(** * agent-device: snapshot / ref / locator subsystem and session daemon

    A shallow embedding of the TypeScript sources

    - [src/utils/retry.ts]    (the retry executor),
    - [src/utils/finders.ts]  (the locator / matching engine),
    - the AX snapshot capturer of [src/platforms/ios] with its frame
      normaliser ([snapshotAx], [normalizeFrames]),
    - the session daemon of [src] ([handleRequest]),

    together with the statements of the specification that are checked
    against them.

    Conventions of the embedding.
    - JavaScript strings are restricted to ASCII and modelled by [string];
      [toLowerCase] acts on the letters A-Z and the class [\s] is the ASCII
      white space (tab, LF, VT, FF, CR, space).
    - A field that may be [undefined] is an [option].
    - Pixel coordinates are integers ([Z]). The delays, the jitter and the
      random source of the retry executor are JavaScript numbers, that is
      IEEE 754 doubles ([Number.number]); the attempt counter is an
      integer.
    - A thrown value is an error object; an asynchronous function is a
      state transformer over the outside world returning either the thrown
      error or the value. *)

From Stdlib Require Import ZArith QArith Qminmax Qpower String Ascii List Bool Lia Lqa.
From Stdlib Require Import SpecFloat.
From stdpp Require Import base option list gmap strings pretty.
Import ListNotations.

Local Open Scope string_scope.
Local Open Scope list_scope.
Local Open Scope Z_scope.

(* ===================================================================== *)
(** ** JavaScript string primitives used by the sources *)
(* ===================================================================== *)

Module JsString.

(** [c.toLowerCase()] on one ASCII character. *)
Definition lowerChar (c : ascii) : ascii :=
  let n := nat_of_ascii c in
  if (Nat.leb 65 n && Nat.leb n 90)%bool then ascii_of_nat (n + 32) else c.

(** [s.toLowerCase()]. *)
Fixpoint toLowerCase (s : string) : string :=
  match s with
  | EmptyString => EmptyString
  | String c s' => String (lowerChar c) (toLowerCase s')
  end.

(** [s.trimStart()]. *)
Fixpoint trimStart (s : string) : string :=
  match s with
  | EmptyString => EmptyString
  | String c s' => if Ascii.is_space c then trimStart s' else s
  end.

(** [s.trimEnd()]: a white-space character is dropped when nothing but
    white space follows it. *)
Fixpoint trimEnd (s : string) : string :=
  match s with
  | EmptyString => EmptyString
  | String c s' =>
      match trimEnd s' with
      | EmptyString => if Ascii.is_space c then EmptyString else String c EmptyString
      | t => String c t
      end
  end.

(** [s.trim()]. *)
Definition trim (s : string) : string := trimEnd (trimStart s).

(** [s.replace(/\s+/g, ' ')]: [inRun] tells that the previous character
    belonged to the white-space run being replaced. *)
Fixpoint collapseFrom (inRun : bool) (s : string) : string :=
  match s with
  | EmptyString => EmptyString
  | String c s' =>
      if Ascii.is_space c
      then if inRun then collapseFrom true s'
           else String " " (collapseFrom true s')
      else String c (collapseFrom false s')
  end.

Definition collapseWhitespace (s : string) : string := collapseFrom false s.

(** [s.startsWith(p)]. *)
Fixpoint startsWith (p s : string) : bool :=
  match p, s with
  | EmptyString, _ => true
  | String a p', String b s' => if Ascii.eqb a b then startsWith p' s' else false
  | String _ _, EmptyString => false
  end.

(** [s.includes(q)]. *)
Fixpoint includes (q s : string) : bool :=
  startsWith q s ||
  match s with
  | EmptyString => false
  | String _ s' => includes q s'
  end.

(** [s.split('.').pop()]: the characters after the last dot; [acc] is the
    segment read so far. *)
Fixpoint lastSegmentFrom (acc s : string) : string :=
  match s with
  | EmptyString => acc
  | String c s' =>
      if Ascii.eqb c "." then lastSegmentFrom EmptyString s'
      else lastSegmentFrom (acc +:+ String c EmptyString) s'
  end.

Definition lastSegment (s : string) : string := lastSegmentFrom EmptyString s.

(** [s.replace(/pat/gi, '')] for a literal, lower-case [pat]: matches are
    found left to right and do not overlap; [skip] counts the characters
    of the current match that are still to be dropped. *)
Fixpoint removeAllFrom (pat : string) (skip : nat) (s : string) : string :=
  match s with
  | EmptyString => EmptyString
  | String c s' =>
      match skip with
      | S k => removeAllFrom pat k s'
      | O =>
          if startsWith pat (toLowerCase s)
          then removeAllFrom pat (String.length pat - 1) s'
          else String c (removeAllFrom pat O s')
      end
  end.

Definition removeAllCI (pat s : string) : string := removeAllFrom pat O s.

(** [s.replace(/^p/, '')] when [s] is known to start with [p]. *)
Fixpoint dropChars (n : nat) (s : string) : string :=
  match n, s with
  | S k, String _ s' => dropChars k s'
  | _, _ => s
  end.

(** [!s] for a string: only the empty string is falsy. *)
Definition isEmpty (s : string) : bool :=
  match s with EmptyString => true | _ => false end.

End JsString.

(* ===================================================================== *)
(** ** Snapshot nodes *)
(* ===================================================================== *)

(** [SnapshotRect] and [SnapshotNode] as declared in [src/utils/output.ts]
    (the declaration of [src/utils/snapshot.ts] that the finders import has
    the same fields). *)
Record SnapshotRect := mkRect {
  rect_x : Z; rect_y : Z; rect_width : Z; rect_height : Z
}.

Record SnapshotNode := mkNode {
  ref : option string;
  depth : option Z;
  type : option string;
  label : option string;
  value : option string;
  identifier : option string;
  rect : option SnapshotRect;
  hittable : option bool;
  enabled : option bool
}.

(** [v ?? ''] *)
Definition orEmpty (v : option string) : string :=
  match v with Some s => s | None => EmptyString end.

(* ===================================================================== *)
(** ** src/utils/finders.ts *)
(* ===================================================================== *)

Module Finders.
Import JsString.

Inductive FindLocator := LAny | LText | LLabel | LValue | LRole | LId.

Record FindMatchOptions := mkOptions { requireRect : option bool }.

(** [value.trim().toLowerCase().replace(/\s+/g, ' ')] *)
Definition normalizeText (value : string) : string :=
  collapseWhitespace (toLowerCase (trim value)).

Definition normalizeRole (value : string) : string :=
  let normalized := trim value in
  if isEmpty normalized then EmptyString
  else
    let lastSeg := lastSegment normalized in
    let normalized := toLowerCase (removeAllCI "xcuielementtype" lastSeg) in
    if startsWith "ax" normalized then dropChars 2 normalized else normalized.

Definition matchText (value : option string) (query : string) : Z :=
  let normalized := normalizeText (orEmpty value) in
  if isEmpty normalized then 0
  else if String.eqb normalized query then 2
  else if includes query normalized then 1
  else 0.

Definition matchRole (value : option string) (query : string) : Z :=
  let normalized := normalizeRole (orEmpty value) in
  if isEmpty normalized then 0
  else if String.eqb normalized query then 2
  else if includes query normalized then 1
  else 0.

Definition matchNode (node : SnapshotNode) (locator : FindLocator) (query : string) : Z :=
  match locator with
  | LRole => matchRole (type node) query
  | LLabel => matchText (label node) query
  | LValue => matchText (value node) query
  | LId => matchText (identifier node) query
  | LText | LAny =>
      Z.max (Z.max (matchText (label node) query) (matchText (value node) query))
            (matchText (identifier node) query)
  end.

(** [options.requireRect && !node.rect] *)
Definition skipped (options : FindMatchOptions) (node : SnapshotNode) : bool :=
  match requireRect options with
  | Some true => match rect node with None => true | Some _ => false end
  | _ => false
  end.

(** The [for ... of nodes] loop, with [best] the loop-carried variable;
    [break] returns the value of [best] at that point. *)
Fixpoint scan (locator : FindLocator) (normalizedQuery : string)
    (options : FindMatchOptions) (nodes : list SnapshotNode)
    (best : option (SnapshotNode * Z)) : option (SnapshotNode * Z) :=
  match nodes with
  | [] => best
  | node :: rest =>
      if skipped options node then scan locator normalizedQuery options rest best
      else
        let score := matchNode node locator normalizedQuery in
        if score <=? 0 then scan locator normalizedQuery options rest best
        else
          let better :=
            match best with
            | None => true
            | Some (_, bestScore) => bestScore <? score
            end in
          if better then
            if 2 <=? score then Some (node, score)
            else scan locator normalizedQuery options rest (Some (node, score))
          else scan locator normalizedQuery options rest best
  end.

Definition findNodeByLocator (nodes : list SnapshotNode) (locator : FindLocator)
    (query : string) (options : FindMatchOptions) : option SnapshotNode :=
  let normalizedQuery := normalizeText query in
  if isEmpty normalizedQuery then None
  else
    match scan locator normalizedQuery options nodes None with
    | Some (node, _) => Some node
    | None => None
    end.

End Finders.

(* ===================================================================== *)
(** ** Errors and asynchronous computations *)
(* ===================================================================== *)

(** The [details] object of an [AppError], with the keys the sources set. *)
Record ErrorDetails := mkDetails {
  d_stderr : option string;
  d_stdout : option string;
  d_retryable : option bool;
  d_error : option string
}.

(** A thrown value: an [AppError] (code, message, optional details) or any
    other JavaScript error (its name and message). *)
Inductive Thrown :=
| AppError (code message : string) (details : option ErrorDetails)
| JsError (name message : string).

(** [String(err)] for a plain JavaScript error. *)
Definition errorToString (name message : string) : string :=
  name +:+ ": " +:+ message.

(** An [async] function over a state [S]: it ends in a new state and either
    rejects with a thrown value or resolves with a value. *)
Definition Async (S A : Type) : Type := S -> S * (Thrown + A).

Definition resolve {S A} (a : A) : Async S A := fun s => (s, inr a).

Definition throw {S A} (e : Thrown) : Async S A := fun s => (s, inl e).

(** [await m] followed by the continuation [k]. *)
Definition await {S A B} (m : Async S A) (k : A -> Async S B) : Async S B :=
  fun s =>
    match m s with
    | (s', inl e) => (s', inl e)
    | (s', inr a) => k a s'
    end.

(** [try { m } catch (err) { h err }]. *)
Definition tryCatch {S A} (m : Async S A) (h : Thrown -> Async S A) : Async S A :=
  fun s =>
    match m s with
    | (s', inl e) => h e s'
    | (s', inr a) => (s', inr a)
    end.

Notation "'let*' x ':=' m 'in' k" := (await m (fun x => k))
  (at level 10, x pattern, m at level 100, k at level 200).

(* ===================================================================== *)
(** ** JavaScript numbers *)
(* ===================================================================== *)

(** A JavaScript number is an IEEE 754 binary64 value: the standard
    library's [spec_float] at precision 53 with the infinities at exponent
    1024, rounding to nearest, ties to even. *)
Module Number.

Definition number : Type := spec_float.

Definition prec : Z := 53.
Definition emax : Z := 1024.

Definition NaN : number := S754_nan.
Definition Infinity : number := S754_infinity false.
Definition zero : number := S754_zero false.

(** An integer literal, and the decimal literal nearest to [n / d]. *)
Definition ofZ (z : Z) : number := binary_normalize prec emax z 0 false.
Definition fraction (n d : Z) : number := SFdiv prec emax (ofZ n) (ofZ d).

Definition add (x y : number) : number := SFadd prec emax x y.
Definition sub (x y : number) : number := SFsub prec emax x y.
Definition neg (x : number) : number := SFopp x.
Definition mul (x y : number) : number := SFmul prec emax x y.

(** [2 ** k] for an integer [k]: the power of two itself, or [Infinity]. *)
Definition pow2 (k : Z) : number := SFldexp prec emax (ofZ 1) k.

(** [x <= y], [x < y] and [x === y]: all false on [NaN]. *)
Definition leq (x y : number) : bool := SFleb x y.
Definition less (x y : number) : bool := SFltb x y.
Definition equal (x y : number) : bool := SFeqb x y.

Definition isNaN (x : number) : bool :=
  match x with S754_nan => true | _ => false end.

(** [Number.isFinite(x)] *)
Definition isFinite (x : number) : bool :=
  match x with S754_zero _ | S754_finite _ _ _ => true | _ => false end.

(** The values a number can take: the mantissa fits the format. *)
Definition isDouble (x : number) : bool := valid_binary prec emax x.

(** [Math.min(x, y)] and [Math.max(x, y)]: [NaN] when an argument is
    [NaN]; [-0] counts as smaller than [+0]. *)
Definition Math_min (x y : number) : number :=
  match SFcompare x y with
  | None => NaN
  | Some Lt => x
  | Some Gt => y
  | Some Eq => match x with S754_zero true => x | _ => y end
  end.

Definition Math_max (x y : number) : number :=
  match SFcompare x y with
  | None => NaN
  | Some Lt => y
  | Some Gt => x
  | Some Eq => match x with S754_zero false => x | _ => y end
  end.

(** A finite number that is not negative, and a number in [0, 1). *)
Definition isAmount (x : number) : bool := isDouble x && isFinite x && leq zero x.
Definition isUnit (x : number) : bool := isDouble x && leq zero x && less x (ofZ 1).

End Number.

(** The exact value of a number, counted in units of [2^-2148], the
    smallest exponent a product of two numbers can have; an infinity counts
    as the first power of two beyond the format. *)
Module Exact.
Import Number.

Definition K : Z := 2148.

Definition top : Z := 2 ^ (emax + K).

Definition signed (s : bool) (v : Z) : Z := if s then - v else v.

Definition val (x : number) : Z :=
  match x with
  | S754_zero _ => 0
  | S754_nan => 0
  | S754_infinity s => signed s top
  | S754_finite s m e => signed s (Zpos m * 2 ^ (e + K))
  end.

(** The exponent (plus [K]) of the format at a magnitude [v]. *)
Definition expOf (v : Z) : Z := Z.max (Z.log2 v + 1 - prec) (K + (3 - emax - prec)).

(** Rounding a mantissa with remainder [r] out of [P] to nearest, ties to
    even. *)
Definition nearestInt (q r P : Z) : Z :=
  if 2 * r <? P then q
  else if P <? 2 * r then q + 1
  else if Z.even q then q else q + 1.

(** The representable magnitude nearest to [v >= 0]. *)
Definition nearest (v : Z) : Z :=
  let P := 2 ^ expOf v in
  Z.min (nearestInt (v / P) (v mod P) P * P) top.

Definition round (v : Z) : Z :=
  if v <? 0 then - nearest (- v) else nearest v.

(** The value of a finite number as a rational. *)
Definition toQ (x : number) : Q :=
  match x with
  | S754_finite s m e => ((if s then -1 else 1) * inject_Z (Zpos m) * Qpower 2 e)%Q
  | _ => 0%Q
  end.

End Exact.

(* ===================================================================== *)
(** ** src/utils/retry.ts *)
(* ===================================================================== *)

Module Retry.
Import Number.

Record RetryOptions := mkRetryOptions {
  attempts : option Z;
  baseDelayMs : option number;
  maxDelayMs : option number;
  jitter : option number;
  shouldRetry : option (Thrown -> Z -> bool)
}.

(** [defaultOptions] *)
Definition default_attempts : Z := 3.
Definition default_baseDelayMs : number := ofZ 200.
Definition default_maxDelayMs : number := ofZ 2000.
Definition default_jitter : number := fraction 2 10.

(** [computeDelay(base, max, jitter, attempt)], with [rnd] the value that
    [Math.random()] returns. *)
Definition computeDelay (base max jitter : number) (attempt : Z) (rnd : number) : number :=
  let exp := Math_min max (mul base (pow2 (attempt - 1))) in
  let jitterAmount := mul exp jitter in
  Math_max zero (add exp (mul (sub (mul rnd (ofZ 2)) (ofZ 1)) jitterAmount)).

(** What the executor does, in order: the attempts it makes (with the error
    of a failed one) and the delays it sleeps. *)
Inductive RetryEvent :=
| Invoked (attempt : Z) (failure : option Thrown)
| Slept (ms : number).

(** The timer and the random source the executor runs against. *)
Record Runtime (S : Type) := mkRuntime {
  Math_random : S -> S * number;
  sleep : number -> S -> S
}.
Arguments Math_random {S}.
Arguments sleep {S}.

Section WithRetry.
Context {S T : Type}.
Variable rt : Runtime S.
Variable fn : Async S T.
Variable options : RetryOptions.

Definition attemptsOf : Z := default default_attempts (attempts options).
Definition baseDelayOf : number := default default_baseDelayMs (baseDelayMs options).
Definition maxDelayOf : number := default default_maxDelayMs (maxDelayMs options).
Definition jitterOf : number := default default_jitter (jitter options).

(** [options.shouldRetry && !options.shouldRetry(err, attempt)] *)
Definition vetoed (err : Thrown) (attempt : Z) : bool :=
  match shouldRetry options with
  | Some p => negb (p err attempt)
  | None => false
  end.

(** The two statements after the loop. *)
Definition afterLoop (lastError : option Thrown) : Thrown :=
  match lastError with
  | Some e => e
  | None => AppError "COMMAND_FAILED" "retry failed" None
  end.

(** The [for] loop from the value [attempt] of its counter; [fuel] bounds
    the number of iterations that remain. *)
Fixpoint retryLoop (fuel : nat) (attempt : Z) (lastError : option Thrown)
    (trace : list RetryEvent) (s : S) : S * list RetryEvent * (Thrown + T) :=
  match fuel with
  | O => (s, trace, inl (afterLoop lastError))
  | Datatypes.S fuel' =>
      if attempt <=? attemptsOf then
        let '(s1, outcome) := fn s in
        match outcome with
        | inr v => (s1, trace ++ [Invoked attempt None], inr v)
        | inl err =>
            let trace1 := trace ++ [Invoked attempt (Some err)] in
            if attemptsOf <=? attempt then (s1, trace1, inl (afterLoop (Some err)))
            else if vetoed err attempt then (s1, trace1, inl (afterLoop (Some err)))
            else
              let '(s2, rnd) := Math_random rt s1 in
              let delay := computeDelay baseDelayOf maxDelayOf jitterOf attempt rnd in
              retryLoop fuel' (attempt + 1) (Some err)
                (trace1 ++ [Slept delay]) (sleep rt delay s2)
        end
      else (s, trace, inl (afterLoop lastError))
  end.

(** [withRetry(fn, options)] together with the record of what it did. *)
Definition withRetryTraced (s : S) : S * list RetryEvent * (Thrown + T) :=
  retryLoop (Z.to_nat attemptsOf) 1 None [] s.

Definition withRetry : Async S T :=
  fun s => let '(s', _, r) := withRetryTraced s in (s', r).

End WithRetry.

(** The number of times the operation was invoked. *)
Definition isInvoked (e : RetryEvent) : bool :=
  match e with Invoked _ _ => true | Slept _ => false end.

Definition invocations (trace : list RetryEvent) : nat :=
  length (filter (fun e => isInvoked e = true) trace).

(** An operation that plays a script: each call consumes the next outcome;
    once the script is over it resolves with [dflt]. *)
Definition scripted {T} (dflt : T) : Async (list (Thrown + T)) T :=
  fun script =>
    match script with
    | [] => ([], inr dflt)
    | r :: rest => (rest, r)
    end.

(** A runtime for scripted operations: [Math.random()] returns [rnd] and
    sleeping leaves the script alone. *)
Definition scriptedRuntime {T} (rnd : number) : Runtime (list (Thrown + T)) :=
  {| Math_random := fun s => (s, rnd); sleep := fun _ s => s |}.

End Retry.

(* ===================================================================== *)
(** ** src/utils/snapshot.ts: refs *)
(* ===================================================================== *)

Module Snapshot.
Import JsString.

Definition withRef (node : SnapshotNode) (r : string) : SnapshotNode :=
  {| ref := Some r; depth := depth node; type := type node; label := label node;
     value := value node; identifier := identifier node; rect := rect node;
     hittable := hittable node; enabled := enabled node |}.

(** The ref of the node at position [index]: ["e" + index]. *)
Definition refOfIndex (index : nat) : string := "e" +:+ pretty index.

(** The positional map of [attachRefs], from position [index] on. *)
Fixpoint attachRefsFrom (index : nat) (nodes : list SnapshotNode) : list SnapshotNode :=
  match nodes with
  | [] => []
  | node :: rest => withRef node (refOfIndex index) :: attachRefsFrom (Datatypes.S index) rest
  end.

(** Modelled from the spec: [attachRefs] of [src/utils/snapshot.ts], which
    is not among the sources. It "assigns ref = "e" + positionalIndex to
    every node in the given order", the index being 0-based. *)
Definition attachRefs (nodes : list SnapshotNode) : list SnapshotNode :=
  attachRefsFrom O nodes.

Definition isDigit (c : ascii) : bool :=
  match Ascii.is_nat c with Some _ => true | None => false end.

Fixpoint allDigits (s : string) : bool :=
  match s with
  | EmptyString => true
  | String c s' => isDigit c && allDigits s'
  end.

(** A ref token has the form [e<N>]. *)
Definition isRefToken (s : string) : bool :=
  match s with
  | String "e" (String c rest) => isDigit c && allDigits rest
  | _ => false
  end.

(** Modelled from the spec: [normalizeRef] of [src/utils/snapshot.ts], which
    is not among the sources. It "accepts forms with or without a leading
    [@]; returns null for empty/invalid input". *)
Definition normalizeRef (input : string) : option string :=
  let token := match input with String "@" rest => rest | _ => input end in
  if isRefToken token then Some token else None.

(** Modelled from the spec: [findNodeByRef] of [src/utils/snapshot.ts],
    which is not among the sources: a "linear lookup by exact ref match;
    returns null if absent". *)
Fixpoint findNodeByRef (nodes : list SnapshotNode) (r : string) : option SnapshotNode :=
  match nodes with
  | [] => None
  | node :: rest =>
      match ref node with
      | Some r' => if String.eqb r' r then Some node else findNodeByRef rest r
      | None => findNodeByRef rest r
      end
  end.

(** Modelled from the spec: [centerOfRect] of [src/utils/snapshot.ts], which
    is not among the sources: it "returns the geometric center". *)
Definition centerOfRect (r : SnapshotRect) : Q * Q :=
  ((inject_Z (rect_x r) + inject_Z (rect_width r) / 2)%Q,
   (inject_Z (rect_y r) + inject_Z (rect_height r) / 2)%Q).

End Snapshot.

(** [DeviceInfo] of [src/utils/device.ts]; at run time the platform and
    the kind are strings. *)
Module Device.

Record DeviceInfo := mkDevice {
  platform : string;
  kind : string;
  id : string;
  name : string
}.

End Device.

Abbreviation DeviceInfo := Device.DeviceInfo.

(* ===================================================================== *)
(** ** The AX snapshot capturer: [snapshotAx] *)
(* ===================================================================== *)

Module Ax.
Import JsString.

Record AXFrame := mkFrame { x : Z; y : Z; width : Z; height : Z }.

(** [AXNode]; an absent [children] is the empty list. *)
#[warnings="-register-all"]
Inductive AXNode :=
| mkAXNode (role subrole label value identifier : option string)
    (frame : option AXFrame) (children : list AXNode).

Definition frameOf (node : AXNode) : option AXFrame :=
  match node with mkAXNode _ _ _ _ _ f _ => f end.

Definition childrenOf (node : AXNode) : list AXNode :=
  match node with mkAXNode _ _ _ _ _ _ cs => cs end.

(** [AXNode & { depth: number }] with [children: undefined]. *)
Record FlatNode := mkFlat {
  f_role : option string;
  f_subrole : option string;
  f_label : option string;
  f_value : option string;
  f_identifier : option string;
  f_frame : option AXFrame;
  f_depth : Z
}.

(** An element of the array [snapshotAx] returns. *)
Record RawSnapshotNode := mkRaw {
  r_index : Z;
  r_type : option string;
  r_label : option string;
  r_value : option string;
  r_identifier : option string;
  r_rect : option AXFrame;
  r_depth : Z
}.

(** The decoded output of the helper: a bare root node, or an object with a
    [root] key and an optional [windowFrame]. *)
Inductive Payload :=
| PlainNode (tree : AXNode)
| Wrapped (root : option AXNode) (windowFrame : option AXFrame).

Record CmdResult := mkCmdResult {
  stdout : option string;
  stderr : option string;
  exitCode : Z
}.

Record RunOptions := mkRunOptions { cwd : option string; allowFailure : bool }.

Record SnapshotOptions := mkSnapshotOptions { traceLogPath : option string }.

(** *** The pure part: flattening and frame normalisation *)

(** [node.frame && rootFrame ? { x: node.frame.x - rootFrame.x, ... } : node.frame] *)
Definition translated (nodeFrame rootFrame : option AXFrame) : option AXFrame :=
  match nodeFrame, rootFrame with
  | Some f, Some r =>
      Some {| x := x f - x r; y := y f - y r; width := width f; height := height f |}
  | _, _ => nodeFrame
  end.

Definition flatOf (node : AXNode) (frame : option AXFrame) (depth : Z) : FlatNode :=
  match node with
  | mkAXNode r sr l v i _ _ =>
      {| f_role := r; f_subrole := sr; f_label := l; f_value := v; f_identifier := i;
         f_frame := frame; f_depth := depth |}
  end.

(** The closure [walk]; the accumulator holds the arrays [frameSamples] and
    [nodes] it pushes to. *)
Fixpoint walk (rootFrame : option AXFrame) (node : AXNode) (depth : Z)
    (acc : list AXFrame * list FlatNode) : list AXFrame * list FlatNode :=
  let '(frameSamples, nodes) := acc in
  let frameSamples1 :=
    match frameOf node with
    | Some f => frameSamples ++ [f]
    | None => frameSamples
    end in
  let frame := translated (frameOf node) rootFrame in
  let nodes1 := nodes ++ [flatOf node frame depth] in
  (fix walkChildren (cs : list AXNode) (acc : list AXFrame * list FlatNode) :=
     match cs with
     | [] => acc
     | child :: rest => walkChildren rest (walk rootFrame child (depth + 1) acc)
     end) (childrenOf node) (frameSamples1, nodes1).

(** A running minimum that starts at [Number.POSITIVE_INFINITY]. *)
Inductive Bound := Infinity | Finite (z : Z).

(** [v < bound] *)
Definition below (v : Z) (bound : Bound) : bool :=
  match bound with Infinity => true | Finite b => v <? b end.

(** [bound <= 5] *)
Definition atMost (bound : Bound) (limit : Z) : bool :=
  match bound with Infinity => false | Finite b => b <=? limit end.

(** The [for ... of frames] loop of [normalizeFrames]. *)
Fixpoint minima (frames : list AXFrame) (minX minY : Bound) : Bound * Bound :=
  match frames with
  | [] => (minX, minY)
  | frame :: rest =>
      let minX1 := if below (x frame) minX then Finite (x frame) else minX in
      let minY1 := if below (y frame) minY then Finite (y frame) else minY in
      minima rest minX1 minY1
  end.

Definition nearZero (frames : list AXFrame) : bool :=
  let '(minX, minY) := minima frames Infinity Infinity in
  atMost minX 5 && atMost minY 5.

Definition addOrigin (originFrame : AXFrame) (node : FlatNode) : FlatNode :=
  {| f_role := f_role node; f_subrole := f_subrole node; f_label := f_label node;
     f_value := f_value node; f_identifier := f_identifier node;
     f_frame :=
       match f_frame node with
       | Some f =>
           Some {| x := x f + x originFrame; y := y f + y originFrame;
                   width := width f; height := height f |}
       | None => None
       end;
     f_depth := f_depth node |}.

Definition normalizeFrames (nodes : list FlatNode) (originFrame : option AXFrame)
    (frames : list AXFrame) : list FlatNode :=
  match originFrame with
  | None => nodes
  | Some origin =>
      match frames with
      | [] => nodes
      | _ :: _ => if nearZero frames then map (addOrigin origin) nodes else nodes
      end
  end.

Definition toRaw (index : nat) (node : FlatNode) : RawSnapshotNode :=
  {| r_index := Z.of_nat index;
     r_type := match f_subrole node with Some s => Some s | None => f_role node end;
     r_label := f_label node; r_value := f_value node;
     r_identifier := f_identifier node;
     r_rect :=
       match f_frame node with
       | Some f => Some {| x := x f; y := y f; width := width f; height := height f |}
       | None => None
       end;
     r_depth := f_depth node |}.

(** [tree.frame ?? originFrame] *)
Definition rootFrameOf (tree : AXNode) (originFrame : option AXFrame) : option AXFrame :=
  match frameOf tree with Some f => Some f | None => originFrame end.

(** Lines 68-87 of [snapshotAx]: the flattened nodes, normalised. *)
Definition normalizedNodes (tree : AXNode) (originFrame : option AXFrame) : list FlatNode :=
  let rootFrame := rootFrameOf tree originFrame in
  let '(frameSamples, nodes) := walk rootFrame tree 0 ([], []) in
  normalizeFrames nodes rootFrame frameSamples.

(** Lines 68-104 of [snapshotAx]: what it returns for a decoded tree. *)
Definition mappedNodes (tree : AXNode) (originFrame : option AXFrame) : list RawSnapshotNode :=
  imap toRaw (normalizedNodes tree originFrame).

(** *** Diagnostics *)

Definition axHintFromStderr (stderrText : string) : string :=
  let lower := toLowerCase stderrText in
  if includes "accessibility permission" lower then
    " Enable Accessibility for your terminal in System Settings > Privacy & Security > Accessibility, "
    +:+ "or use --backend xctest (slower snapshots via XCTest)."
  else if includes "could not find ios app content" lower then
    " AX snapshot sometimes caches empty content. Try restarting the Simulator app."
  else "".

Definition isRetryableAxError (stderrText : string) : bool :=
  let lower := toLowerCase stderrText in
  if includes "could not find ios app content" lower then true
  else if includes "timeout" lower then true
  else false.

(** [err instanceof AppError && err.code === 'COMMAND_FAILED' &&
    err.details?.retryable === true] *)
Definition isRetryableError (err : Thrown) : bool :=
  match err with
  | AppError code _ details =>
      String.eqb code "COMMAND_FAILED" &&
      match details with
      | Some d => match d_retryable d with Some true => true | _ => false end
      | None => false
      end
  | JsError _ _ => false
  end.

(** *** The capture itself *)

(** What the capturer needs from Node.js and from the machine it runs on,
    over a state [W] of the outside world. *)
Record Host (W : Type) := mkHost {
  existsSync : string -> W -> bool;
  env_AGENT_DEVICE_AX_BINARY : W -> option string;
  process_cwd : W -> string;
  path_join : list string -> string;
  path_dirname : string -> string;
  runCmd : string -> list string -> RunOptions -> Async W CmdResult;
  appendFileSync : string -> string -> W -> W;
  JSON_parse : string -> (string * string) + Payload;
  timer : Retry.Runtime W
}.
Arguments existsSync {W}.
Arguments env_AGENT_DEVICE_AX_BINARY {W}.
Arguments process_cwd {W}.
Arguments path_join {W}.
Arguments path_dirname {W}.
Arguments runCmd {W}.
Arguments appendFileSync {W}.
Arguments JSON_parse {W}.
Arguments timer {W}.

(** The outside world together with the list of the external processes
    spawned so far (command and arguments). *)
Record AxState (W : Type) := mkAxState {
  world : W;
  spawned : list (string * list string)
}.
Arguments mkAxState {W}.
Arguments world {W}.
Arguments spawned {W}.

Section Capture.
Context {W : Type}.
Variable host : Host W.

Definition onWorld (f : W -> W) (st : AxState W) : AxState W :=
  {| world := f (world st); spawned := spawned st |}.

(** [runCmd], recorded. *)
Definition spawn (cmd : string) (args : list string) (opts : RunOptions)
    : Async (AxState W) CmdResult :=
  fun st =>
    let '(w, r) := runCmd host cmd args opts (world st) in
    ({| world := w; spawned := spawned st ++ [(cmd, args)] |}, r).

Definition axRuntime : Retry.Runtime (AxState W) :=
  {| Retry.Math_random := fun st =>
       let '(w, r) := Retry.Math_random (timer host) (world st) in
       ({| world := w; spawned := spawned st |}, r);
     Retry.sleep := fun ms => onWorld (Retry.sleep (timer host) ms) |}.

Fixpoint findProjectRootFrom (rounds : nat) (current : string) (w : W) : option string :=
  match rounds with
  | O => None
  | Datatypes.S k =>
      if existsSync host (path_join host [current; "package.json"]) w then Some current
      else findProjectRootFrom k (path_dirname host current) w
  end.

Definition findProjectRoot (w : W) : string :=
  default (process_cwd host w) (findProjectRootFrom 6 (process_cwd host w) w).

Definition buildFailed (result : CmdResult) : Thrown :=
  AppError "COMMAND_FAILED" "Failed to build AX snapshot tool"
    (Some {| d_stderr := stderr result; d_stdout := stdout result;
             d_retryable := None; d_error := None |}).

Definition ensureAxSnapshotBinary : Async (AxState W) string :=
  fun st =>
    let w := world st in
    let projectRoot := findProjectRoot w in
    let packageDir := path_join host [projectRoot; "ios-runner"; "AXSnapshot"] in
    let packagedPath := path_join host [projectRoot; "dist"; "bin"; "axsnapshot"] in
    let binaryPath := path_join host [packageDir; ".build"; "release"; "axsnapshot"] in
    let envHit :=
      match env_AGENT_DEVICE_AX_BINARY host w with
      | Some envPath =>
          if negb (isEmpty envPath) && existsSync host envPath w then Some envPath else None
      | None => None
      end in
    match envHit with
    | Some envPath => (st, inr envPath)
    | None =>
        if existsSync host packagedPath w then (st, inr packagedPath)
        else if existsSync host binaryPath w then (st, inr binaryPath)
        else
          (let* result :=
             spawn "swift" ["build"; "-c"; "release"]
               {| cwd := Some packageDir; allowFailure := true |} in
           fun st' =>
             if negb (exitCode result =? 0) || negb (existsSync host binaryPath (world st'))
             then (st', inl (buildFailed result))
             else (st', inr binaryPath)) st
    end.

(** [appendAxTrace] *)
Definition appendAxTrace (path : string) (result : CmdResult) (w : W) : W :=
  let stdoutText := orEmpty (stdout result) in
  let stderrText := orEmpty (stderr result) in
  let header :=
    String "010" "[axsnapshot] exit=" +:+ pretty (exitCode result)
    +:+ " stdoutBytes=" +:+ pretty (String.length stdoutText)
    +:+ " stderrBytes=" +:+ pretty (String.length stderrText) +:+ String "010" "" in
  let w1 := appendFileSync host path header w in
  if negb (exitCode result =? 0) || negb (isEmpty stderrText) then
    let w2 :=
      if negb (isEmpty stderrText)
      then appendFileSync host path (stderrText +:+ String "010" "") w1 else w1 in
    if negb (exitCode result =? 0) && negb (isEmpty stdoutText)
    then appendFileSync host path (stdoutText +:+ String "010" "") w2 else w2
  else w1.

(** The error a failed attempt raises. *)
Definition snapshotFailed (result : CmdResult) : Thrown :=
  let stderrText := orEmpty (stderr result) in
  let hint := axHintFromStderr stderrText in
  let retryable := isRetryableAxError stderrText in
  AppError "COMMAND_FAILED" "AX snapshot failed"
    (Some {| d_stderr := Some (stderrText +:+ hint); d_stdout := stdout result;
             d_retryable := Some retryable; d_error := None |}).

(** The operation handed to [withRetry]. *)
Definition attemptOnce (binary : string) (options : SnapshotOptions)
    : Async (AxState W) CmdResult :=
  let* attemptResult := spawn binary [] {| cwd := None; allowFailure := true |} in
  fun st =>
    let st1 :=
      match traceLogPath options with
      | Some path =>
          if isEmpty path then st else onWorld (appendAxTrace path attemptResult) st
      | None => st
      end in
    if negb (exitCode attemptResult =? 0)
    then (st1, inl (snapshotFailed attemptResult))
    else (st1, inr attemptResult).

(** The options handed to [withRetry]. *)
Definition axRetryOptions : Retry.RetryOptions :=
  {| Retry.attempts := None; Retry.baseDelayMs := None; Retry.maxDelayMs := None;
     Retry.jitter := None;
     Retry.shouldRetry := Some (fun err _ => isRetryableError err) |}.

Definition invalidJson (text : string) : Thrown :=
  AppError "COMMAND_FAILED" "Invalid AX snapshot JSON"
    (Some {| d_stderr := None; d_stdout := None; d_retryable := None;
             d_error := Some text |}).

(** The [try ... catch] that decodes the helper's output. [JSON.parse] of an
    absent [stdout] parses the text ["undefined"]. *)
Definition decodePayload (out : option string) : Thrown + (AXNode * option AXFrame) :=
  match JSON_parse host (default "undefined" out) with
  | inl (name, message) => inl (invalidJson (errorToString name message))
  | inr (PlainNode tree) => inr (tree, None)
  | inr (Wrapped None _) =>
      inl (invalidJson (errorToString "Error" "AX snapshot missing root"))
  | inr (Wrapped (Some tree) windowFrame) => inr (tree, windowFrame)
  end.

Definition unsupported : Thrown :=
  AppError "UNSUPPORTED_OPERATION" "AX snapshot is only supported on iOS simulators" None.

(** [snapshotAx] after its guard. *)
Definition capture (options : SnapshotOptions) : Async (AxState W) (list RawSnapshotNode) :=
  let* binary := ensureAxSnapshotBinary in
  let* result := Retry.withRetry axRuntime (attemptOnce binary options) axRetryOptions in
  match decodePayload (stdout result) with
  | inl err => throw err
  | inr (tree, originFrame) => resolve (mappedNodes tree originFrame)
  end.

Definition snapshotAx (device : DeviceInfo) (options : SnapshotOptions)
    : Async (AxState W) (list RawSnapshotNode) :=
  if negb (String.eqb (Device.platform device) "ios")
     || negb (String.eqb (Device.kind device) "simulator")
  then throw unsupported
  else capture options.

End Capture.

End Ax.

(* ===================================================================== *)
(** ** The session daemon: [handleRequest] *)
(* ===================================================================== *)

Module Daemon.
Import JsString.

(** [CommandFlags] of [src/core/dispatch.ts], with the flags the daemon
    reads; [selectors] stands for the flags it only passes on. *)
Record CommandFlags := mkFlags {
  out : option string;
  verbose : option bool;
  snapshotInteractiveOnly : option bool;
  snapshotCompact : option bool;
  snapshotDepth : option Z;
  snapshotScope : option string;
  snapshotRaw : option bool;
  selectors : list (string * string)
}.

Definition noFlags : CommandFlags :=
  {| out := None; verbose := None; snapshotInteractiveOnly := None;
     snapshotCompact := None; snapshotDepth := None; snapshotScope := None;
     snapshotRaw := None; selectors := [] |}.

Record DaemonRequest := mkRequest {
  token : string;
  session : string;
  command : string;
  positionals : option (list string);
  flags : option CommandFlags
}.

(** The object [contextFromFlags] builds. *)
Record DispatchContext := mkContext {
  c_appBundleId : option string;
  c_verbose : option bool;
  c_logPath : string;
  c_snapshotInteractiveOnly : option bool;
  c_snapshotCompact : option bool;
  c_snapshotDepth : option Z;
  c_snapshotScope : option string;
  c_snapshotRaw : option bool
}.

(** The [SnapshotState] of [src/utils/snapshot.ts]. *)
Record SnapshotState := mkSnapshot {
  nodes : list SnapshotNode;
  truncated : option bool;
  s_createdAt : Z
}.

Record SessionState := mkSession {
  name : string;
  device : DeviceInfo;
  createdAt : Z;
  appBundleId : option string;
  snapshot : option SnapshotState
}.

(** What [dispatchCommand] resolves with, when it is not [undefined]: the
    keys the daemon reads, and the rest. *)
Record DispatchData := mkData {
  data_nodes : option (list SnapshotNode);
  data_truncated : option bool;
  data_rest : list (string * string)
}.

Record SessionSummary := mkSummary {
  sum_name : string;
  sum_platform : string;
  sum_device : string;
  sum_id : string;
  sum_createdAt : Z
}.

(** The [data] of an [ok] response, by the branch that builds it. *)
Inductive ResponseData :=
| SessionList (sessions : list SessionSummary)
| SessionName (session : string)
| SnapshotNodes (nodes : list SnapshotNode) (truncated : bool)
| RefPoint (ref : string) (x y : Q)
| Forwarded (data : DispatchData)
| RefAttrs (ref : string) (node : SnapshotNode)
| RefText (ref text : string) (node : SnapshotNode)
| EmptyObject.

Inductive DaemonResponse :=
| Ok (data : ResponseData)
| Fail (code message : string).

(** The calls the daemon makes to its collaborators and the updates of the
    session map, in the order they happen. *)
Inductive Event :=
| TargetResolved
| AppResolved (device : DeviceInfo) (app : string)
| Dispatch (device : DeviceInfo) (command : string) (positionals : list string)
| RunnerStopped (deviceId : string)
| SessionSet (name : string)
| SessionDeleted (name : string).

(** The collaborators of the daemon, over a state [W] of the outside
    world. *)
Record Platform (W : Type) := mkPlatform {
  resolveTargetDevice : CommandFlags -> Async W DeviceInfo;
  resolveIosApp : DeviceInfo -> string -> Async W string;
  dispatchCommand :
    DeviceInfo -> string -> list string -> option string -> DispatchContext ->
    Async W (option DispatchData);
  stopIosRunnerSession : string -> Async W unit;
  Date_now : W -> Z;
  numberToString : Q -> string
}.
Arguments resolveTargetDevice {W}.
Arguments resolveIosApp {W}.
Arguments dispatchCommand {W}.
Arguments stopIosRunnerSession {W}.
Arguments Date_now {W}.
Arguments numberToString {W}.

(** The state of the daemon process: the map [sessions], the outside world
    and the journal of what has been done. The map is keyed by name; the
    enumeration of [session_list] follows the keys. *)
Record DaemonState (W : Type) := mkState {
  sessions : gmap string SessionState;
  world : W;
  journal : list Event
}.
Arguments mkState {W}.
Arguments sessions {W}.
Arguments world {W}.
Arguments journal {W}.

Section Handler.
Context {W : Type}.
Variable platformOps : Platform W.
(** The constants [token] and [logPath] of the module. *)
Variable daemonToken : string.
Variable logPath : string.

(** A call to a collaborator, entered in the journal before it runs. *)
Definition call {A} (ev : Event) (m : Async W A) : Async (DaemonState W) A :=
  fun st =>
    let '(w, r) := m (world st) in
    ({| sessions := sessions st; world := w; journal := journal st ++ [ev] |}, r).

Definition sessionsSet (key : string) (s : SessionState) : Async (DaemonState W) unit :=
  fun st =>
    ({| sessions := <[key := s]> (sessions st); world := world st;
        journal := journal st ++ [SessionSet key] |}, inr tt).

Definition sessionsDelete (key : string) : Async (DaemonState W) unit :=
  fun st =>
    ({| sessions := delete key (sessions st); world := world st;
        journal := journal st ++ [SessionDeleted key] |}, inr tt).

Definition sessionsGet (key : string) : Async (DaemonState W) (option SessionState) :=
  fun st => (st, inr (sessions st !! key)).

Definition now : Async (DaemonState W) Z :=
  fun st => (st, inr (Date_now platformOps (world st))).

Definition contextFromFlags (fl : option CommandFlags) (app : option string)
    : DispatchContext :=
  {| c_appBundleId := app;
     c_verbose := fl ≫= verbose;
     c_logPath := logPath;
     c_snapshotInteractiveOnly := fl ≫= snapshotInteractiveOnly;
     c_snapshotCompact := fl ≫= snapshotCompact;
     c_snapshotDepth := fl ≫= snapshotDepth;
     c_snapshotScope := fl ≫= snapshotScope;
     c_snapshotRaw := fl ≫= snapshotRaw |}.

Definition dispatch (dev : DeviceInfo) (cmd : string) (args : list string)
    (req : DaemonRequest) (app : option string) : Async (DaemonState W) (option DispatchData) :=
  call (Dispatch dev cmd args)
    (dispatchCommand platformOps dev cmd args (flags req ≫= out)
       (contextFromFlags (flags req) app)).

Definition resolveTarget (req : DaemonRequest) : Async (DaemonState W) DeviceInfo :=
  call TargetResolved (resolveTargetDevice platformOps (default noFlags (flags req))).

(** [req.positionals?.[i]] *)
Definition positional (req : DaemonRequest) (i : nat) : option string :=
  positionals req ≫= fun ps => ps !! i.

Definition summary (s : SessionState) : SessionSummary :=
  {| sum_name := name s; sum_platform := Device.platform (device s);
     sum_device := Device.name (device s); sum_id := Device.id (device s);
     sum_createdAt := createdAt s |}.

(** [device.platform === 'ios' && device.kind === 'simulator'] *)
Definition isIosSimulator (dev : DeviceInfo) : bool :=
  String.eqb (Device.platform dev) "ios" && String.eqb (Device.kind dev) "simulator".

Definition fail {S} (code message : string) : Async S DaemonResponse :=
  resolve (Fail code message).

Definition noSnapshot {S} : Async S DaemonResponse :=
  fail "INVALID_ARGS" "No snapshot in session. Run snapshot first.".

(** [command === 'session_list'] *)
Definition handleSessionList : Async (DaemonState W) DaemonResponse :=
  fun st => (st, inr (Ok (SessionList (summary <$> (map_to_list (sessions st)).*2)))).

(** [command === 'open'] *)
Definition handleOpen (req : DaemonRequest) (sessionName : string)
    : Async (DaemonState W) DaemonResponse :=
  let* dev := resolveTarget req in
  let* app :=
    if String.eqb (Device.platform dev) "ios" then
      let target := default "" (positional req 0) in
      tryCatch
        (let* resolved := call (AppResolved dev target)
                            (resolveIosApp platformOps dev target) in
         resolve (Some resolved))
        (fun _ => resolve None)
    else resolve None in
  let* _ := dispatch dev "open" (default [] (positionals req)) req app in
  let* created := now in
  let* _ := sessionsSet sessionName
              {| name := sessionName; device := dev; createdAt := created;
                 appBundleId := app; snapshot := None |} in
  resolve (Ok (SessionName sessionName)).

(** [req.session || 'default'] *)
Definition sessionNameOf (req : DaemonRequest) : string :=
  if isEmpty (session req) then "default" else session req.

(** The first step of [close]: the platform [close] command, dispatched
    when the request names an app. *)
Definition closeApp (req : DaemonRequest) (sess : SessionState)
    : Async (DaemonState W) unit :=
  match positionals req with
  | Some (p :: ps) =>
      let* _ := dispatch (device sess) "close" (p :: ps) req (appBundleId sess) in
      resolve tt
  | _ => resolve tt
  end.

(** The second step of [close]: the runner of an iOS simulator is stopped. *)
Definition stopRunner (sess : SessionState) : Async (DaemonState W) unit :=
  if isIosSimulator (device sess)
  then call (RunnerStopped (Device.id (device sess)))
         (stopIosRunnerSession platformOps (Device.id (device sess)))
  else resolve tt.

(** [command === 'close'] *)
Definition handleClose (req : DaemonRequest) (sessionName : string)
    : Async (DaemonState W) DaemonResponse :=
  let* found := sessionsGet sessionName in
  match found with
  | None => fail "SESSION_NOT_FOUND" "No active session"
  | Some sess =>
      let* _ := closeApp req sess in
      let* _ := stopRunner sess in
      let* _ := sessionsDelete sessionName in
      resolve (Ok (SessionName sessionName))
  end.

(** [command === 'snapshot'] *)
Definition handleSnapshot (req : DaemonRequest) (sessionName : string)
    : Async (DaemonState W) DaemonResponse :=
  let* found := sessionsGet sessionName in
  let* dev :=
    match found with
    | Some sess => resolve (device sess)
    | None => resolveTarget req
    end in
  let app := found ≫= appBundleId in
  let* data := dispatch dev "snapshot" [] req app in
  let nodes1 := Snapshot.attachRefs (default [] (data ≫= data_nodes)) in
  let* stamp := now in
  let snap := {| nodes := nodes1; truncated := data ≫= data_truncated;
                 s_createdAt := stamp |} in
  let* created :=
    match found with
    | Some sess => resolve (createdAt sess)
    | None => now
    end in
  let* _ := sessionsSet sessionName
              {| name := sessionName; device := dev; createdAt := created;
                 appBundleId := app; snapshot := Some snap |} in
  resolve (Ok (SnapshotNodes nodes1 (default false (data ≫= data_truncated)))).

(** [command === 'click'] *)
Definition handleClick (req : DaemonRequest) (sessionName : string)
    : Async (DaemonState W) DaemonResponse :=
  let* found := sessionsGet sessionName in
  match found ≫= (fun sess => pair sess <$> snapshot sess) with
  | None => noSnapshot
  | Some (sess, snap) =>
      let refInput := default "" (positional req 0) in
      match Snapshot.normalizeRef refInput with
      | None => fail "INVALID_ARGS" "click requires a ref like @e2"
      | Some r =>
          if isEmpty r then fail "INVALID_ARGS" "click requires a ref like @e2"
          else
            match Snapshot.findNodeByRef (nodes snap) r ≫= rect with
            | None =>
                fail "COMMAND_FAILED" ("Ref " +:+ refInput +:+ " not found or has no bounds")
            | Some box =>
                let '(cx, cy) := Snapshot.centerOfRect box in
                let* _ := dispatch (device sess) "press"
                            [numberToString platformOps cx; numberToString platformOps cy]
                            req (appBundleId sess) in
                resolve (Ok (RefPoint r cx cy))
            end
      end
  end.

(** The ref form of [command === 'fill'], taken when the first positional
    starts with [@]. *)
Definition handleFillRef (req : DaemonRequest) (sessionName : string) (first : string)
    (ps : list string) : Async (DaemonState W) DaemonResponse :=
  let* found := sessionsGet sessionName in
  match found ≫= (fun sess => pair sess <$> snapshot sess) with
  | None => noSnapshot
  | Some (sess, snap) =>
      match Snapshot.normalizeRef first with
      | None => fail "INVALID_ARGS" "fill requires a ref like @e2"
      | Some r =>
          if isEmpty r then fail "INVALID_ARGS" "fill requires a ref like @e2"
          else
            let text := String.concat " " (drop 1 ps) in
            if isEmpty text then fail "INVALID_ARGS" "fill requires text after ref"
            else
              match Snapshot.findNodeByRef (nodes snap) r ≫= rect with
              | None =>
                  fail "COMMAND_FAILED" ("Ref " +:+ first +:+ " not found or has no bounds")
              | Some box =>
                  let '(cx, cy) := Snapshot.centerOfRect box in
                  let* data := dispatch (device sess) "fill"
                                 [numberToString platformOps cx;
                                  numberToString platformOps cy; text]
                                 req (appBundleId sess) in
                  match data with
                  | Some d => resolve (Ok (Forwarded d))
                  | None => resolve (Ok (RefPoint r cx cy))
                  end
              end
      end
  end.

(** [typeof value === 'string' ? value.trim() : ''], then the first
    non-empty candidate. *)
Definition firstText (node : SnapshotNode) : string :=
  let candidates :=
    filter (fun t => isEmpty t = false)
      ((fun v => match v with Some t => trim t | None => "" end)
         <$> [label node; value node; identifier node]) in
  default "" (candidates !! O).

(** [command === 'get'] *)
Definition handleGet (req : DaemonRequest) (sessionName : string)
    : Async (DaemonState W) DaemonResponse :=
  let sub := positional req 0 in
  let refInput := positional req 1 in
  if negb (bool_decide (sub = Some "text")) && negb (bool_decide (sub = Some "attrs"))
  then fail "INVALID_ARGS" "get only supports text or attrs"
  else
    let* found := sessionsGet sessionName in
    match found ≫= snapshot with
    | None => noSnapshot
    | Some snap =>
        match Snapshot.normalizeRef (default "" refInput) with
        | None => fail "INVALID_ARGS" "get text requires a ref like @e2"
        | Some r =>
            if isEmpty r then fail "INVALID_ARGS" "get text requires a ref like @e2"
            else
              match Snapshot.findNodeByRef (nodes snap) r with
              | None =>
                  fail "COMMAND_FAILED"
                    ("Ref " +:+ default "undefined" refInput +:+ " not found")
              | Some node =>
                  if bool_decide (sub = Some "attrs") then resolve (Ok (RefAttrs r node))
                  else resolve (Ok (RefText r (firstText node) node))
              end
        end
    end.

(** The end of [handleRequest]: every other command is forwarded. *)
Definition handleOther (req : DaemonRequest) (sessionName : string)
    : Async (DaemonState W) DaemonResponse :=
  let* found := sessionsGet sessionName in
  match found with
  | None => fail "SESSION_NOT_FOUND" "No active session. Run open first."
  | Some sess =>
      let* data := dispatch (device sess) (command req) (default [] (positionals req))
                     req (appBundleId sess) in
      match data with
      | Some d => resolve (Ok (Forwarded d))
      | None => resolve (Ok EmptyObject)
      end
  end.

(** [req.positionals?.[0]?.startsWith('@')] *)
Definition refForm (req : DaemonRequest) : option (string * list string) :=
  match positionals req with
  | Some (first :: rest) =>
      if startsWith "@" first then Some (first, first :: rest) else None
  | _ => None
  end.

Definition handleRequest (req : DaemonRequest) : Async (DaemonState W) DaemonResponse :=
  if negb (String.eqb (token req) daemonToken) then fail "UNAUTHORIZED" "Invalid token"
  else
    let sessionName := sessionNameOf req in
    if String.eqb (command req) "session_list" then handleSessionList
    else if String.eqb (command req) "open" then handleOpen req sessionName
    else if String.eqb (command req) "close" then handleClose req sessionName
    else if String.eqb (command req) "snapshot" then handleSnapshot req sessionName
    else if String.eqb (command req) "click" then handleClick req sessionName
    else
      match (if String.eqb (command req) "fill" then refForm req else None) with
      | Some (first, ps) => handleFillRef req sessionName first ps
      | None =>
          if String.eqb (command req) "get" then handleGet req sessionName
          else handleOther req sessionName
      end.

End Handler.

End Daemon.

(* ===================================================================== *)
(** ** The statements of the specification, as definitions *)
(* ===================================================================== *)

Module Stated.
Import JsString.

(** *** Locator engine *)

(** "exact normalized match = 2, substring match = 1, otherwise 0" *)
Definition scoreOf (normalizedField query : string) : Z :=
  if String.eqb normalizedField query then 2
  else if includes query normalizedField then 1
  else 0.

(** "skip nodes lacking geometry when requireRect is set" *)
Definition considered (options : Finders.FindMatchOptions) (node : SnapshotNode) : bool :=
  match Finders.requireRect options with
  | Some true => bool_decide (rect node ≠ None)
  | _ => true
  end.

(** The first considered node whose score is [score]. *)
Definition firstScoring (score : Z) (locator : Finders.FindLocator) (query : string)
    (options : Finders.FindMatchOptions) (nodes : list SnapshotNode) : option SnapshotNode :=
  List.find
    (fun node => considered options node && (Finders.matchNode node locator query =? score))
    nodes.

(** "the first exact match wins", otherwise the first substring candidate,
    otherwise null. *)
Definition selected (locator : Finders.FindLocator) (query : string)
    (options : Finders.FindMatchOptions) (nodes : list SnapshotNode) : option SnapshotNode :=
  match firstScoring 2 locator query options nodes with
  | Some node => Some node
  | None => firstScoring 1 locator query options nodes
  end.

(** A string of white space only. *)
Fixpoint allSpaces (s : string) : bool :=
  match s with
  | EmptyString => true
  | String c s' => Ascii.is_space c && allSpaces s'
  end.

(** *** Frame normaliser *)

(** The nodes of a tree in pre-order, each with its depth. *)
Fixpoint preorder (node : Ax.AXNode) (depth : Z) : list (Ax.AXNode * Z) :=
  (node, depth) ::
  (fix children (cs : list Ax.AXNode) : list (Ax.AXNode * Z) :=
     match cs with
     | [] => []
     | child :: rest => preorder child (depth + 1) ++ children rest
     end) (Ax.childrenOf node).

(** The frames the capturer samples: those of the nodes that have one. *)
Definition frameAt (nd : Ax.AXNode * Z) : option Ax.AXFrame := Ax.frameOf nd.1.

Definition sampledFrames (tree : Ax.AXNode) : list Ax.AXFrame :=
  omap frameAt (preorder tree 0).

(** The flattened node for a tree node at its depth, the root frame
    subtracted. *)
Definition flatAt (rootFrame : option Ax.AXFrame) (nd : Ax.AXNode * Z) : Ax.FlatNode :=
  Ax.flatOf nd.1 (Ax.translated (Ax.frameOf nd.1) rootFrame) nd.2.

(** Step 3 in the words of the specification: the origin is added back
    when the minimum over [samples] is not near zero. *)
Definition driftCorrectionAsStated (samples : list Ax.AXFrame) (origin : Ax.AXFrame)
    (nodes : list Ax.FlatNode) : list Ax.FlatNode :=
  if negb (Ax.nearZero samples) then map (Ax.addOrigin origin) nodes else nodes.

(** The frames of the flattened nodes, after the subtraction. *)
Definition framesOf (nodes : list Ax.FlatNode) : list Ax.AXFrame :=
  omap Ax.f_frame nodes.

(** What the capturer computes for one node: the origin subtracted, and
    added back when [back] is set. *)
Definition placed (origin : Ax.AXFrame) (back : bool) (f : Ax.AXFrame) : Ax.AXFrame :=
  if back
  then {| Ax.x := Ax.x f - Ax.x origin + Ax.x origin;
          Ax.y := Ax.y f - Ax.y origin + Ax.y origin;
          Ax.width := Ax.width f; Ax.height := Ax.height f |}
  else {| Ax.x := Ax.x f - Ax.x origin; Ax.y := Ax.y f - Ax.y origin;
          Ax.width := Ax.width f; Ax.height := Ax.height f |}.

(** What [walk] pushes for the node itself, before it visits the
    children. *)
Definition pushed (rootFrame : option Ax.AXFrame) (node : Ax.AXNode) (depth : Z)
    (acc : list Ax.AXFrame * list Ax.FlatNode) : list Ax.AXFrame * list Ax.FlatNode :=
  (match Ax.frameOf node with Some f => acc.1 ++ [f] | None => acc.1 end,
   acc.2 ++ [Ax.flatOf node (Ax.translated (Ax.frameOf node) rootFrame) depth]).

(** Steps 1 to 3 in the words of the specification. The minimum is taken
    over the frames as sampled, or, when [afterSubtraction] is set, over the
    frames of the nodes once the origin is subtracted. *)
Definition normalizedAsStated (afterSubtraction : bool) (tree : Ax.AXNode)
    (originFrame : option Ax.AXFrame) : list Ax.FlatNode :=
  let rootFrame := Ax.rootFrameOf tree originFrame in
  let '(frameSamples, nodes) := Ax.walk rootFrame tree 0 ([], []) in
  match rootFrame with
  | None => nodes
  | Some origin =>
      let samples := if afterSubtraction then framesOf nodes else frameSamples in
      match samples with
      | [] => nodes
      | _ :: _ => driftCorrectionAsStated samples origin nodes
      end
  end.

(** *** Backoff *)

(** "the computed delay always lies in the interval
    [max(0, exp * (1 - jitter)), exp * (1 + jitter)]": with the bounds
    computed as the program computes numbers, and with the bounds computed
    in exact arithmetic. *)
Definition inInterval (exp jitter delay : Number.number) : bool :=
  Number.leq (Number.Math_max Number.zero
                (Number.mul exp (Number.sub (Number.ofZ 1) jitter))) delay
  && Number.leq delay (Number.mul exp (Number.add (Number.ofZ 1) jitter)).

Definition inExactInterval (exp jitter delay : Number.number) : Prop :=
  (Qmax 0 (Exact.toQ exp * (1 - Exact.toQ jitter)) <= Exact.toQ delay /\
   Exact.toQ delay <= Exact.toQ exp * (1 + Exact.toQ jitter))%Q.

End Stated.

(** *** Induction on trees *)

Section AXNodeInduction.
Variable P : Ax.AXNode -> Prop.
Hypothesis step :
  forall r sr l v i f cs, Forall P cs -> P (Ax.mkAXNode r sr l v i f cs).

(** Induction on a tree with the hypothesis for every child. *)
Fixpoint AXNode_induction (node : Ax.AXNode) : P node :=
  match node with
  | Ax.mkAXNode r sr l v i f cs =>
      step r sr l v i f cs
        ((fix all (cs : list Ax.AXNode) : Forall P cs :=
            match cs with
            | [] => List.Forall_nil P
            | c :: rest => List.Forall_cons P c rest (AXNode_induction c) (all rest)
            end) cs)
  end.

End AXNodeInduction.

(* ===================================================================== *)
(** ** Concrete inputs *)
(* ===================================================================== *)

Module Examples.

(** A button at (100, 100) under a root without a frame, in a window whose
    frame starts at (10, 10). *)
Definition okButton : Ax.AXNode :=
  Ax.mkAXNode (Some "AXButton") None (Some "OK") None None
    (Some {| Ax.x := 100; Ax.y := 100; Ax.width := 50; Ax.height := 20 |}) [].

Definition appRoot : Ax.AXNode :=
  Ax.mkAXNode (Some "AXGroup") None None None None None [okButton].

Definition windowFrame : Ax.AXFrame :=
  {| Ax.x := 10; Ax.y := 10; Ax.width := 400; Ax.height := 800 |}.

(** The same button at (3, 3), in a window whose frame starts at (1, 1). *)
Definition cornerButton : Ax.AXNode :=
  Ax.mkAXNode (Some "AXButton") None (Some "OK") None None
    (Some {| Ax.x := 3; Ax.y := 3; Ax.width := 50; Ax.height := 20 |}) [].

Definition cornerRoot : Ax.AXNode :=
  Ax.mkAXNode (Some "AXGroup") None None None None None [cornerButton].

Definition cornerFrame : Ax.AXFrame :=
  {| Ax.x := 1; Ax.y := 1; Ax.width := 400; Ax.height := 800 |}.

(** What the helper writes to stderr when the terminal lacks the
    Accessibility permission, and when the simulator shows no content yet
    (the messages of [ios-runner/AXSnapshot]). *)
Definition permissionDenied : string :=
  "axsnapshot error: Accessibility permission not granted. Enable it in System Settings > Privacy & Security > Accessibility.".

Definition contentMissing : string :=
  "axsnapshot error: Could not find iOS app content in Simulator.".

(** Three nodes of a settings screen. *)
Definition plainNode (ty lbl : string) (box : option SnapshotRect) : SnapshotNode :=
  {| ref := None; depth := Some 0; type := Some ty; label := Some lbl; value := None;
     identifier := None; rect := box; hittable := None; enabled := None |}.

Definition settingsNodes : list SnapshotNode :=
  [ plainNode "XCUIElementTypeStaticText" "Camera Roll"
      (Some {| rect_x := 0; rect_y := 0; rect_width := 100; rect_height := 20 |});
    plainNode "XCUIElementTypeButton" "  CAMERA " None;
    plainNode "XCUIElementTypeButton" "Camera"
      (Some {| rect_x := 0; rect_y := 40; rect_width := 100; rect_height := 20 |}) ].

(** A simulator, a platform whose [close] command fails while every other
    call succeeds, and requests against it. The outside world carries no
    state here. *)
Definition simulator : DeviceInfo :=
  {| Device.platform := "ios"; Device.kind := "simulator"; Device.id := "SIM-1";
     Device.name := "iPhone 15" |}.

Definition closeFails : Daemon.Platform unit :=
  {| Daemon.resolveTargetDevice := fun _ w => (w, inr simulator);
     Daemon.resolveIosApp := fun _ app w => (w, inr app);
     Daemon.dispatchCommand := fun _ cmd _ _ _ w =>
       if String.eqb cmd "close"
       then (w, inl (AppError "COMMAND_FAILED" "app did not terminate" None))
       else (w, inr None);
     Daemon.stopIosRunnerSession := fun _ w => (w, inr tt);
     Daemon.Date_now := fun _ => 0;
     Daemon.numberToString := fun _ => "0" |}.

Definition requestIn (sessionName cmd : string) (args : list string)
    : Daemon.DaemonRequest :=
  {| Daemon.token := "secret"; Daemon.session := sessionName; Daemon.command := cmd;
     Daemon.positionals := Some args; Daemon.flags := None |}.

Definition request (cmd : string) (args : list string) : Daemon.DaemonRequest :=
  requestIn "" cmd args.

Definition settingsSession : Daemon.SessionState :=
  {| Daemon.name := "default"; Daemon.device := simulator; Daemon.createdAt := 0;
     Daemon.appBundleId := Some "com.apple.Preferences"; Daemon.snapshot := None |}.

Definition noSessions : Daemon.DaemonState unit :=
  {| Daemon.sessions := ∅; Daemon.world := tt; Daemon.journal := [] |}.

Definition oneSession : Daemon.DaemonState unit :=
  {| Daemon.sessions := {[ "default" := settingsSession ]}; Daemon.world := tt;
     Daemon.journal := [] |}.

(** An operation that fails twice and then succeeds, under three attempts
    and a predicate that always retries. *)
Definition timedOut : Thrown := AppError "COMMAND_FAILED" "timed out" None.

Definition flaky : list (Thrown + Z) := [inl timedOut; inl timedOut; inr 7].

Definition threeAttempts : Retry.RetryOptions :=
  {| Retry.attempts := Some 3; Retry.baseDelayMs := None; Retry.maxDelayMs := None;
     Retry.jitter := None; Retry.shouldRetry := Some (fun _ _ => true) |}.

(** A host whose helper binary is installed at [/opt/axsnapshot]; the state
    of the world is the list of the results the next runs of a command will
    give. *)
Definition scriptedHost : Ax.Host (list Ax.CmdResult) :=
  {| Ax.existsSync := fun path _ => String.eqb path "/opt/axsnapshot";
     Ax.env_AGENT_DEVICE_AX_BINARY := fun _ => Some "/opt/axsnapshot";
     Ax.process_cwd := fun _ => "/work";
     Ax.path_join := String.concat "/";
     Ax.path_dirname := fun p => p;
     Ax.runCmd := fun _ _ _ w =>
       match w with
       | [] => ([], inl (JsError "Error" "spawn failed"))
       | r :: rest => (rest, inr r)
       end;
     Ax.appendFileSync := fun _ _ w => w;
     Ax.JSON_parse := fun text =>
       if String.eqb text "{}" then inr (Ax.PlainNode appRoot)
       else inl ("SyntaxError", "Unexpected token");
     Ax.timer := {| Retry.Math_random := fun w => (w, Number.fraction 1 2);
                    Retry.sleep := fun _ w => w |} |}.

Definition denied : Ax.CmdResult :=
  {| Ax.stdout := None; Ax.stderr := Some permissionDenied; Ax.exitCode := 1 |}.

Definition androidPhone : DeviceInfo :=
  {| Device.platform := "android"; Device.kind := "device"; Device.id := "emulator-5554";
     Device.name := "Pixel" |}.

Definition noTrace : Ax.SnapshotOptions := {| Ax.traceLogPath := None |}.

Definition startOf (script : list Ax.CmdResult) : Ax.AxState (list Ax.CmdResult) :=
  {| Ax.world := script; Ax.spawned := [] |}.

End Examples.

(* ===================================================================== *)
(** ** src/utils/output.ts: the text form of a snapshot *)
(* ===================================================================== *)

Module Output.
Import JsString.

(** The keys [formatSnapshotText] reads from its [data] argument. *)
Record SnapshotData := mkSnapshotData {
  nodes : option (list SnapshotNode);
  truncated : option bool
}.

Record FormatOptions := mkFormatOptions { raw : option bool }.

Definition formatRole (type : string) : string :=
  let normalized := toLowerCase (removeAllCI "xcuielementtype" type) in
  if String.eqb normalized "application" then "application"
  else if String.eqb normalized "navigationbar" then "navigation-bar"
  else if String.eqb normalized "tabbar" then "tab-bar"
  else if String.eqb normalized "button" then "button"
  else if String.eqb normalized "link" then "link"
  else if String.eqb normalized "cell" then "cell"
  else if String.eqb normalized "statictext" then "text"
  else if String.eqb normalized "textfield" then "text-field"
  else if String.eqb normalized "textview" then "text-view"
  else if String.eqb normalized "switch" then "switch"
  else if String.eqb normalized "slider" then "slider"
  else if String.eqb normalized "image" then "image"
  else if String.eqb normalized "table" then "list"
  else if String.eqb normalized "collectionview" then "collection"
  else if String.eqb normalized "searchfield" then "search"
  else if String.eqb normalized "segmentedcontrol" then "segmented-control"
  else if isEmpty normalized then "element" else normalized.

(** ['  '.repeat(n)] *)
Fixpoint indentOf (n : nat) : string :=
  match n with
  | O => ""
  | Datatypes.S k => "  " +:+ indentOf k
  end.

(** [a?.trim() || rest] *)
Definition trimmedOr (a : option string) (rest : string) : string :=
  match a with
  | Some t => if isEmpty (trim t) then rest else trim t
  | None => rest
  end.

(** [node.label?.trim() || node.value?.trim() || node.identifier?.trim() || ''] *)
Definition labelOf (node : SnapshotNode) : string :=
  trimmedOr (label node) (trimmedOr (value node) (trimmedOr (identifier node) "")).

(** [node.ref ? `@${node.ref}` : ''] *)
Definition refText (node : SnapshotNode) : string :=
  match ref node with
  | Some r => if isEmpty r then "" else "@" +:+ r
  | None => ""
  end.

(** The bracketed rect; the coordinates are integers, which [Math.round]
    leaves alone. *)
Definition rectText (node : SnapshotNode) : string :=
  match rect node with
  | Some r =>
      " [" +:+ pretty (rect_x r) +:+ "," +:+ pretty (rect_y r) +:+ " "
      +:+ pretty (rect_width r) +:+ "x" +:+ pretty (rect_height r) +:+ "]"
  | None => ""
  end.

(** The array of flags after [filter(Boolean)]. *)
Definition flagsOf (node : SnapshotNode) : list string :=
  (match hittable node with Some true => ["hittable"] | _ => [] end)
  ++ (match enabled node with Some false => ["disabled"] | _ => [] end).

Definition flagText (node : SnapshotNode) : string :=
  let flags := String.concat ", " (flagsOf node) in
  if isEmpty flags then "" else " (" +:+ flags +:+ ")".

Definition textPart (node : SnapshotNode) : string :=
  let lbl := labelOf node in
  if isEmpty lbl then "" else " " +:+ String "034" lbl +:+ String "034" "".

(** The callback of [nodes.map] in the indented form. *)
Definition formatLine (node : SnapshotNode) : string :=
  let d := default 0 (depth node) in
  let indent := indentOf (Z.to_nat (Z.max 0 d)) in
  let ty := formatRole (default "Element" (type node)) in
  trimEnd (indent +:+ refText node +:+ " " +:+ ty +:+ textPart node
           +:+ rectText node +:+ flagText node).

Definition headerOf (count : nat) (isTruncated : bool) : string :=
  "Snapshot: " +:+ pretty count +:+ " nodes"
  +:+ (if isTruncated then " (truncated)" else "").

Definition newline : string := String "010" "".

Section Format.
(** [JSON.stringify] on a node. *)
Variable JSON_stringify : SnapshotNode -> string.

Definition formatSnapshotText (data : SnapshotData) (options : FormatOptions) : string :=
  let ns := default [] (nodes data) in
  let isTruncated := default false (truncated data) in
  let header := headerOf (length ns) isTruncated in
  match ns with
  | [] => header +:+ newline
  | _ :: _ =>
      match raw options with
      | Some true =>
          header +:+ newline +:+ String.concat newline (map JSON_stringify ns) +:+ newline
      | _ =>
          header +:+ newline +:+ String.concat newline (map formatLine ns) +:+ newline
      end
  end.

End Format.

End Output.

(* ===================================================================== *)
(** ** Statements about the record of a retry run *)
(* ===================================================================== *)

Module Recorded.
Import Retry.

(** How a run ends: a success is the last event; an error is the error of
    the last event, or the generic one when nothing was invoked. *)
Definition endsWith {T : Type} (events : list RetryEvent) (lastError : option Thrown)
    (out : Thrown + T) : Prop :=
  match out with
  | inr _ => exists j, last events = Some (Invoked j None)
  | inl e =>
      (events = [] /\ e = afterLoop lastError) \/
      exists j, last events = Some (Invoked j (Some e))
  end.

(** The shape of the record of a run that starts at attempt [attempt]:
    attempts at the even positions, numbered consecutively, delays at the
    odd ones, each followed by an attempt; one delay less than attempts. *)
Definition shaped {T : Type} (attempt : Z) (lastError : option Thrown)
    (events : list RetryEvent) (out : Thrown + T) : Prop :=
  (forall (m : nat) e,
     events !! (2 * m)%nat = Some e -> exists f, e = Invoked (attempt + Z.of_nat m) f) /\
  (forall (m : nat) e,
     events !! (2 * m + 1)%nat = Some e ->
     (exists ms, e = Slept ms) /\ is_Some (events !! (2 * m + 2)%nat)) /\
  endsWith events lastError out /\
  (events <> [] -> length events = (2 * invocations events - 1)%nat).

End Recorded.

(* ===================================================================== *)
(** ** More concrete inputs *)
(* ===================================================================== *)

Module Cases.

(** An operation that times out whenever it is called. *)
Definition alwaysTimesOut : Async (list (Thrown + Z)) Z :=
  fun s => (s, inl Examples.timedOut).

(** The largest number below 1. *)
Definition almostOne : Number.number := S754_finite false 9007199254740991 (-53).

(** Two attempts, and five attempts with a base of 100 ms, a cap of 500 ms
    and no jitter, under a predicate that always retries. *)
Definition twoAttempts : Retry.RetryOptions :=
  {| Retry.attempts := Some 2; Retry.baseDelayMs := None; Retry.maxDelayMs := None;
     Retry.jitter := None; Retry.shouldRetry := Some (fun _ _ => true) |}.

Definition noAttempts : Retry.RetryOptions :=
  {| Retry.attempts := Some 0; Retry.baseDelayMs := None; Retry.maxDelayMs := None;
     Retry.jitter := None; Retry.shouldRetry := None |}.

Definition steadyBackoff : Retry.RetryOptions :=
  {| Retry.attempts := Some 5; Retry.baseDelayMs := Some (Number.ofZ 100);
     Retry.maxDelayMs := Some (Number.ofZ 500); Retry.jitter := Some (Number.ofZ 0);
     Retry.shouldRetry := Some (fun _ _ => true) |}.

Definition halfJitter : Retry.RetryOptions :=
  {| Retry.attempts := Some 4; Retry.baseDelayMs := Some (Number.ofZ 100);
     Retry.maxDelayMs := Some (Number.ofZ 500); Retry.jitter := Some (Number.fraction 1 2);
     Retry.shouldRetry := None |}.

(** A request that carries a token the daemon did not issue. *)
Definition wrongToken : Daemon.DaemonRequest :=
  {| Daemon.token := "guess"; Daemon.session := ""; Daemon.command := "close";
     Daemon.positionals := None; Daemon.flags := None |}.

(** A second session, named "work", with a snapshot of the settings
    screen. *)
Definition workSession : Daemon.SessionState :=
  {| Daemon.name := "work"; Daemon.device := Examples.simulator; Daemon.createdAt := 5;
     Daemon.appBundleId := None;
     Daemon.snapshot :=
       Some {| Daemon.nodes := Snapshot.attachRefs Examples.settingsNodes;
               Daemon.truncated := None; Daemon.s_createdAt := 6 |} |}.

Definition twoSessions : Daemon.DaemonState unit :=
  {| Daemon.sessions := <[ "work" := workSession ]> {[ "default" := Examples.settingsSession ]};
     Daemon.world := tt; Daemon.journal := [] |}.

(** A button one level down, with a ref. *)
Definition nestedButton : SnapshotNode :=
  {| ref := Some "e1"; depth := Some 1; type := Some "XCUIElementTypeButton";
     label := Some "OK"; value := None; identifier := None; rect := None;
     hittable := Some true; enabled := None |}.

End Cases.

(* ===================================================================== *)
(** ** Reading a raw tree *)
(* ===================================================================== *)

Module Tree.
Import Ax.

Definition roleOf (node : AXNode) : option string :=
  match node with mkAXNode r _ _ _ _ _ _ => r end.

Definition subroleOf (node : AXNode) : option string :=
  match node with mkAXNode _ sr _ _ _ _ _ => sr end.

Definition labelOf (node : AXNode) : option string :=
  match node with mkAXNode _ _ l _ _ _ _ => l end.

Definition valueOf (node : AXNode) : option string :=
  match node with mkAXNode _ _ _ v _ _ _ => v end.

Definition identifierOf (node : AXNode) : option string :=
  match node with mkAXNode _ _ _ _ i _ _ => i end.

(** [node.subrole ?? node.role] *)
Definition typeOf (node : AXNode) : option string :=
  match subroleOf node with Some s => Some s | None => roleOf node end.

(** A list of nodes with depths that reads as an outline below depth [d]:
    every depth is at least [d] and no node lies more than one level below
    the node before it. *)
Definition outlined (d : Z) (l : list (AXNode * Z)) : Prop :=
  Forall (fun nd => d <= nd.2) l /\
  forall (i : nat) a b, l !! i = Some a -> l !! Datatypes.S i = Some b -> b.2 <= a.2 + 1.

End Tree.

(* ===================================================================== *)
(** ** What a step of the daemon keeps *)
(* ===================================================================== *)

Module Keeps.
Import Daemon.

(** Every run of [m] relates the state it starts in to the state it ends
    in by [R]. *)
Definition preserves {W A : Type} (R : DaemonState W -> DaemonState W -> Prop)
    (m : Async (DaemonState W) A) : Prop :=
  forall st st' r, m st = (st', r) -> R st st'.

(** The session map is the same. *)
Definition sameSessions {W : Type} (a b : DaemonState W) : Prop :=
  sessions b = sessions a.

(** The session map is the same except, possibly, at [key]. *)
Definition sameElsewhere {W : Type} (key : string) (a b : DaemonState W) : Prop :=
  forall k, k <> key -> sessions b !! k = sessions a !! k.

(** A relation that does not look at the outside world or the journal. *)
Definition blindToCalls {W : Type} (R : DaemonState W -> DaemonState W -> Prop) : Prop :=
  forall st w j, R st {| sessions := sessions st; world := w; journal := j |}.

End Keeps.

(* ===================================================================== *)
(** * Properties *)
(* ===================================================================== *)

(** ** Strings *)

Section StringFacts.
Import JsString.

Lemma isEmpty_true (s : string) : isEmpty s = true <-> s = "".
Proof. destruct s; simpl; split; congruence. Qed.

Lemma isEmpty_false (s : string) : isEmpty s = false <-> s <> "".
Proof. destruct s; simpl; split; congruence. Qed.

Lemma startsWith_nil_r (q : string) : q <> "" -> startsWith q "" = false.
Proof. destruct q; simpl; intros H; [congruence | reflexivity]. Qed.

Lemma includes_nil_r (q : string) : q <> "" -> includes q "" = false.
Proof. intros H. simpl. rewrite startsWith_nil_r by exact H. reflexivity. Qed.

Lemma app_cons (a : ascii) (s t : string) : String a s +:+ t = String a (s +:+ t).
Proof. reflexivity. Qed.

Lemma app_nil_l (t : string) : "" +:+ t = t.
Proof. reflexivity. Qed.

Lemma startsWith_app (q s : string) :
  startsWith q s = true <-> exists post, s = q +:+ post.
Proof.
  revert s. induction q as [|a q IH]; intros s; simpl.
  - split; [intros _; exists s; reflexivity | reflexivity].
  - destruct s as [|b s].
    + split; [discriminate | intros [post H]; discriminate].
    + destruct (Ascii.eqb_spec a b) as [->|Hne].
      * rewrite IH. split; intros [post H]; exists post.
        -- rewrite app_cons. now rewrite H.
        -- rewrite app_cons in H. now injection H.
      * split; [discriminate | intros [post H]; rewrite app_cons in H; congruence].
Qed.

(** [includes] is the substring relation. *)
Lemma includes_substring (q s : string) :
  includes q s = true <-> exists pre post, s = pre +:+ q +:+ post.
Proof.
  induction s as [|c s IH].
  - simpl. rewrite orb_false_r, startsWith_app. split.
    + intros [post H]. exists "", post. exact H.
    + intros [pre [post H]]. destruct pre; [exists post; exact H | discriminate].
  - simpl. rewrite orb_true_iff, startsWith_app, IH. split.
    + intros [[post H] | [pre [post H]]].
      * exists "", post. exact H.
      * exists (String c pre), post. rewrite app_cons. now rewrite H.
    + intros [pre [post H]]. destruct pre as [|c' pre].
      * left. exists post. exact H.
      * right. exists pre, post. rewrite app_cons in H. now injection H.
Qed.

Lemma trimStart_allSpaces (s : string) :
  trimStart s = "" <-> Stated.allSpaces s = true.
Proof.
  induction s as [|c s IH]; simpl; [tauto|].
  destruct (Ascii.is_space c); simpl; [exact IH | split; discriminate].
Qed.

Lemma trimEnd_empty (s : string) : trimEnd s = "" <-> Stated.allSpaces s = true.
Proof.
  induction s as [|c s IH]; simpl; [tauto|].
  destruct (trimEnd s) eqn:E.
  - destruct (Ascii.is_space c); simpl.
    + split; [intros _; apply IH; reflexivity | reflexivity].
    + split; discriminate.
  - split; [discriminate|]. intros H. apply andb_true_iff in H as [_ H].
    apply IH in H. discriminate.
Qed.

Lemma trimStart_no_space_only (s : string) :
  Stated.allSpaces (trimStart s) = true -> trimStart s = "".
Proof.
  induction s as [|c s IH]; simpl; [reflexivity|].
  destruct (Ascii.is_space c) eqn:E; [exact IH|].
  simpl. rewrite E. discriminate.
Qed.

Lemma trim_empty (s : string) : trim s = "" <-> Stated.allSpaces s = true.
Proof.
  unfold trim. rewrite trimEnd_empty. split.
  - intros H. apply trimStart_allSpaces. now apply trimStart_no_space_only.
  - intros H. apply trimStart_allSpaces in H. rewrite H. reflexivity.
Qed.

Lemma toLowerCase_empty (s : string) : toLowerCase s = "" <-> s = "".
Proof. destruct s; simpl; split; congruence. Qed.

Lemma collapseFrom_false_empty (s : string) : collapseFrom false s = "" <-> s = "".
Proof.
  destruct s as [|c s]; simpl; [tauto|].
  destruct (Ascii.is_space c); split; discriminate.
Qed.

Lemma normalizeText_empty (s : string) :
  Finders.normalizeText s = "" <-> Stated.allSpaces s = true.
Proof.
  unfold Finders.normalizeText, collapseWhitespace.
  rewrite collapseFrom_false_empty, toLowerCase_empty. apply trim_empty.
Qed.

End StringFacts.

(** ** Locator engine *)

Section FindersFacts.
Import JsString Finders.

Lemma scoreOf_empty_field (q : string) : q <> "" -> Stated.scoreOf "" q = 0.
Proof.
  intros Hq. unfold Stated.scoreOf.
  destruct (String.eqb_spec "" q) as [E|_]; [congruence|].
  now rewrite includes_nil_r.
Qed.

Lemma matchText_scoreOf (v : option string) (q : string) :
  q <> "" -> matchText v q = Stated.scoreOf (normalizeText (orEmpty v)) q.
Proof.
  intros Hq. unfold matchText.
  destruct (isEmpty (normalizeText (orEmpty v))) eqn:E; [|reflexivity].
  apply isEmpty_true in E. rewrite E. symmetry. now apply scoreOf_empty_field.
Qed.

Lemma matchRole_scoreOf (v : option string) (q : string) :
  q <> "" -> matchRole v q = Stated.scoreOf (normalizeRole (orEmpty v)) q.
Proof.
  intros Hq. unfold matchRole.
  destruct (isEmpty (normalizeRole (orEmpty v))) eqn:E; [|reflexivity].
  apply isEmpty_true in E. rewrite E. symmetry. now apply scoreOf_empty_field.
Qed.

Lemma matchText_range (v : option string) (q : string) :
  matchText v q = 0 \/ matchText v q = 1 \/ matchText v q = 2.
Proof. unfold matchText. repeat case_match; auto. Qed.

Lemma matchRole_range (v : option string) (q : string) :
  matchRole v q = 0 \/ matchRole v q = 1 \/ matchRole v q = 2.
Proof. unfold matchRole. repeat case_match; auto. Qed.

Lemma matchNode_range (node : SnapshotNode) (locator : FindLocator) (q : string) :
  matchNode node locator q = 0 \/ matchNode node locator q = 1
  \/ matchNode node locator q = 2.
Proof.
  destruct locator; simpl;
    try apply matchText_range; try apply matchRole_range;
    destruct (matchText_range (label node) q) as [-> | [-> | ->]];
    destruct (matchText_range (value node) q) as [-> | [-> | ->]];
    destruct (matchText_range (identifier node) q) as [-> | [-> | ->]];
    simpl; auto.
Qed.

Lemma considered_skipped (options : FindMatchOptions) (node : SnapshotNode) :
  Stated.considered options node = negb (skipped options node).
Proof.
  unfold Stated.considered, skipped.
  destruct (requireRect options) as [[|]|]; try reflexivity.
  destruct (rect node); reflexivity.
Qed.

(** The loop, once a substring candidate is held: only an exact match can
    replace it. *)
Lemma scan_holding (locator : FindLocator) (q : string) (options : FindMatchOptions)
    (nodes : list SnapshotNode) (held : SnapshotNode) :
  scan locator q options nodes (Some (held, 1)) =
  match Stated.firstScoring 2 locator q options nodes with
  | Some node => Some (node, 2)
  | None => Some (held, 1)
  end.
Proof.
  induction nodes as [|node rest IH]; [reflexivity|].
  unfold Stated.firstScoring in *. simpl.
  rewrite considered_skipped.
  destruct (skipped options node); simpl; [exact IH|].
  destruct (matchNode_range node locator q) as [E | [E | E]]; rewrite E; simpl; auto.
Qed.

(** The loop from its start. *)
Lemma scan_start (locator : FindLocator) (q : string) (options : FindMatchOptions)
    (nodes : list SnapshotNode) :
  scan locator q options nodes None =
  match Stated.firstScoring 2 locator q options nodes with
  | Some node => Some (node, 2)
  | None =>
      match Stated.firstScoring 1 locator q options nodes with
      | Some node => Some (node, 1)
      | None => None
      end
  end.
Proof.
  induction nodes as [|node rest IH]; [reflexivity|].
  unfold Stated.firstScoring in *. simpl.
  rewrite considered_skipped.
  destruct (skipped options node); simpl; [exact IH|].
  destruct (matchNode_range node locator q) as [E | [E | E]]; rewrite E; simpl; auto.
  rewrite scan_holding. unfold Stated.firstScoring.
  destruct (List.find _ rest); reflexivity.
Qed.

Lemma firstScoring_none (score : Z) (locator : FindLocator) (q : string)
    (options : FindMatchOptions) (nodes : list SnapshotNode) :
  Stated.firstScoring score locator q options nodes = None <->
  forall node, In node nodes -> Stated.considered options node = true ->
               matchNode node locator q <> score.
Proof.
  unfold Stated.firstScoring. split.
  - intros H node Hin Hc E.
    pose proof (find_none _ _ H node Hin) as Hf. simpl in Hf.
    rewrite Hc, E, Z.eqb_refl in Hf. discriminate.
  - intros H. destruct (List.find _ nodes) as [node|] eqn:E; [|reflexivity].
    apply find_some in E as [Hin Hb]. apply andb_true_iff in Hb as [Hc Hs].
    apply Z.eqb_eq in Hs. exfalso. exact (H node Hin Hc Hs).
Qed.

(** C5: for a query that does not normalise to the empty string, a field
    scores 2 when its normalised form equals the normalised query, 1 when
    it only contains it and 0 otherwise; [any] and [text] take the maximum
    over label, value and identifier, [role] scores the normalised type and
    [label], [value], [id] their own field; the result is the first node, in
    order and among those not skipped for lacking a rect, that scores 2,
    otherwise the first that scores 1, and null exactly when every such node
    scores 0. *)
Theorem findNodeByLocator_selects (nodes : list SnapshotNode) (locator : FindLocator)
    (query : string) (options : FindMatchOptions) :
  normalizeText query <> "" ->
  let q := normalizeText query in
  let text v := Stated.scoreOf (normalizeText (orEmpty v)) q in
  (forall node,
     matchNode node locator q =
     match locator with
     | LAny | LText =>
         Z.max (Z.max (text (label node)) (text (value node))) (text (identifier node))
     | LRole => Stated.scoreOf (normalizeRole (orEmpty (type node))) q
     | LLabel => text (label node)
     | LValue => text (value node)
     | LId => text (identifier node)
     end) /\
  findNodeByLocator nodes locator query options =
    Stated.selected locator q options nodes /\
  (findNodeByLocator nodes locator query options = None <->
   forall node, In node nodes -> Stated.considered options node = true ->
                matchNode node locator q = 0).
Proof.
  intros Hq q text.
  assert (Hsel : findNodeByLocator nodes locator query options =
                 Stated.selected locator q options nodes).
  { unfold findNodeByLocator. fold q.
    destruct (isEmpty q) eqn:E; [apply isEmpty_true in E; contradiction|].
    rewrite scan_start. unfold Stated.selected.
    destruct (Stated.firstScoring 2 locator q options nodes); [reflexivity|].
    destruct (Stated.firstScoring 1 locator q options nodes); reflexivity. }
  split; [|split; [exact Hsel|]].
  - intros node. subst text. destruct locator; simpl;
      rewrite ?matchText_scoreOf, ?matchRole_scoreOf by exact Hq; reflexivity.
  - rewrite Hsel. unfold Stated.selected.
    destruct (Stated.firstScoring 2 locator q options nodes) as [n2|] eqn:E2.
    + split; [discriminate|]. intros H.
      apply find_some in E2 as [Hin Hb]. apply andb_true_iff in Hb as [Hc Hs].
      apply Z.eqb_eq in Hs. rewrite (H n2 Hin Hc) in Hs. discriminate.
    + rewrite firstScoring_none in E2. rewrite firstScoring_none. split.
      * intros H1 node Hin Hc.
        destruct (matchNode_range node locator q) as [E | [E | E]]; [exact E | |].
        -- exfalso. exact (H1 node Hin Hc E).
        -- exfalso. exact (E2 node Hin Hc E).
      * intros H node Hin Hc. rewrite (H node Hin Hc). discriminate.
Qed.

(** C10: a query that normalises to the empty string, which is the case
    exactly for an empty or white-space-only query, makes
    [findNodeByLocator] return null whatever the nodes, the locator and the
    options are. *)
Theorem findNodeByLocator_blank_query (query : string) :
  normalizeText query = "" ->
  Stated.allSpaces query = true /\
  forall nodes locator options, findNodeByLocator nodes locator query options = None.
Proof.
  intros H. split; [now apply normalizeText_empty|].
  intros nodes locator options. unfold findNodeByLocator. rewrite H. reflexivity.
Qed.

End FindersFacts.

(** ** Retry executor *)

Section RetryFacts.
Import Retry.
Context {S T : Type}.
Variable rt : Runtime S.
Variable fn : Async S T.
Variable options : RetryOptions.

Local Abbreviation attemptsN := (attemptsOf options).
Local Abbreviation loop := (retryLoop rt fn options).

Lemma invocations_app (a b : list RetryEvent) :
  invocations (a ++ b) = (invocations a + invocations b)%nat.
Proof. unfold invocations. now rewrite filter_app, length_app. Qed.

(** The events already recorded are kept in front of the new ones. *)
Lemma retryLoop_prefix (fuel : nat) :
  forall attempt lastError trace s,
    loop fuel attempt lastError trace s =
    let '(s', events, out) := loop fuel attempt lastError [] s in
    (s', trace ++ events, out).
Proof.
  induction fuel as [|fuel IH]; intros attempt lastError trace s; simpl.
  - now rewrite app_nil_r.
  - destruct (attempt <=? attemptsN); [|now rewrite app_nil_r].
    destruct (fn s) as [s1 [err|v]]; [|reflexivity].
    destruct (attemptsN <=? attempt); [reflexivity|].
    destruct (vetoed options err attempt); [reflexivity|].
    destruct (Math_random rt s1) as [s2 rnd].
    rewrite (IH _ _ ((trace ++ _) ++ _)), (IH _ _ (_ :: _)).
    destruct (loop fuel _ _ [] _) as [[s' events] out].
    now rewrite <- !app_assoc.
Qed.

(** Enough fuel: the loop does not depend on the fuel once it covers the
    attempts that remain. *)
Lemma retryLoop_fuel (fuel1 : nat) :
  forall fuel2 attempt lastError trace s,
    (Z.to_nat (attemptsN - attempt + 1) <= fuel1)%nat ->
    (Z.to_nat (attemptsN - attempt + 1) <= fuel2)%nat ->
    loop fuel1 attempt lastError trace s = loop fuel2 attempt lastError trace s.
Proof.
  induction fuel1 as [|fuel1 IH]; intros [|fuel2] attempt lastError trace s H1 H2;
    simpl; try reflexivity.
  - destruct (Z.leb_spec attempt attemptsN); [lia | reflexivity].
  - destruct (Z.leb_spec attempt attemptsN); [lia | reflexivity].
  - destruct (Z.leb_spec attempt attemptsN); [|reflexivity].
    destruct (fn s) as [s1 [err|v]]; [|reflexivity].
    destruct (attemptsN <=? attempt); [reflexivity|].
    destruct (vetoed options err attempt); [reflexivity|].
    destruct (Math_random rt s1) as [s2 rnd].
    apply IH; lia.
Qed.

(** With more fuel than [attempts] the executor does the same. *)
Lemma withRetryTraced_fuel (fuel : nat) (s : S) :
  (Z.to_nat attemptsN <= fuel)%nat ->
  loop fuel 1 None [] s = withRetryTraced rt fn options s.
Proof.
  intros H. unfold withRetryTraced. apply retryLoop_fuel; lia.
Qed.

Lemma invocations_invoked (j : Z) (failure : option Thrown) (l : list RetryEvent) :
  invocations (Invoked j failure :: l) = Datatypes.S (invocations l).
Proof. reflexivity. Qed.

Lemma invocations_slept (ms : Number.number) (l : list RetryEvent) :
  invocations (Slept ms :: l) = invocations l.
Proof. reflexivity. Qed.

Lemma retryLoop_invocations (fuel : nat) :
  forall attempt lastError s s' events out,
    loop fuel attempt lastError [] s = (s', events, out) ->
    Z.of_nat (invocations events) <= Z.max 0 (attemptsN - attempt + 1).
Proof.
  induction fuel as [|fuel IH]; intros attempt lastError s s' events out; simpl.
  - intros [= _ <- _]. unfold invocations. simpl. lia.
  - destruct (Z.leb_spec attempt attemptsN) as [Hle|Hgt].
    2:{ intros [= _ <- _]. unfold invocations. simpl. lia. }
    destruct (fn s) as [s1 [err|v]].
    2:{ intros [= _ <- _]. rewrite invocations_invoked. unfold invocations. simpl. lia. }
    destruct (Z.leb_spec attemptsN attempt) as [Hfinal|Hmore].
    { intros [= _ <- _]. rewrite invocations_invoked. unfold invocations. simpl. lia. }
    destruct (vetoed options err attempt).
    { intros [= _ <- _]. rewrite invocations_invoked. unfold invocations. simpl. lia. }
    destruct (Math_random rt s1) as [s2 rnd].
    rewrite retryLoop_prefix.
    destruct (loop fuel _ _ [] _) as [[s3 events3] out3] eqn:E.
    intros [= _ <- _]. apply IH in E. simpl.
    rewrite invocations_invoked, invocations_slept. lia.
Qed.

(** A failure on the final attempt, or one the predicate refuses, is the
    last thing that happens, and it is what the executor throws. *)
Lemma retryLoop_stops (fuel : nat) :
  forall attempt lastError s s' events out,
    loop fuel attempt lastError [] s = (s', events, out) ->
    forall (i : nat) j e,
      events !! i = Some (Invoked j (Some e)) ->
      attemptsN <= j \/ vetoed options e j = true ->
      events !! Datatypes.S i = None /\ out = inl e.
Proof.
  induction fuel as [|fuel IH]; intros attempt lastError s s' events out; simpl.
  - intros [= _ <- _] i j e Hi. destruct i; discriminate.
  - destruct (Z.leb_spec attempt attemptsN) as [Hle|Hgt].
    2:{ intros [= _ <- _] i j e Hi. destruct i; discriminate. }
    destruct (fn s) as [s1 [err|v]].
    2:{ intros [= _ <- _] i j e Hi. destruct i as [|[|i]]; discriminate. }
    destruct (Z.leb_spec attemptsN attempt) as [Hfinal|Hmore].
    { intros [= _ <- <-] i j e Hi _. destruct i as [|[|i]]; try discriminate.
      simpl in Hi. injection Hi as -> ->. split; reflexivity. }
    destruct (vetoed options err attempt) eqn:Hveto.
    { intros [= _ <- <-] i j e Hi _. destruct i as [|[|i]]; try discriminate.
      simpl in Hi. injection Hi as -> ->. split; reflexivity. }
    destruct (Math_random rt s1) as [s2 rnd].
    rewrite retryLoop_prefix.
    destruct (loop fuel _ _ [] _) as [[s3 events3] out3] eqn:E.
    intros [= _ <- <-] i j e Hi Hstop.
    destruct i as [|[|i]]; simpl in Hi.
    + injection Hi as -> ->. destruct Hstop as [H|H]; [lia | congruence].
    + discriminate.
    + simpl. eapply IH; eauto.
Qed.

(** A delay is slept only after a failed attempt, and it is the delay
    [computeDelay] gives for that attempt and a value of [Math.random()]. *)
Lemma retryLoop_slept (fuel : nat) :
  forall attempt lastError s s' events out,
    loop fuel attempt lastError [] s = (s', events, out) ->
    forall (i : nat) ms,
      events !! i = Some (Slept ms) ->
      exists j e s1,
        attempt <= j /\ j < attemptsN /\
        events !! pred i = Some (Invoked j (Some e)) /\ i <> O /\
        ms = computeDelay (baseDelayOf options) (maxDelayOf options)
               (jitterOf options) j (Math_random rt s1).2.
Proof.
  induction fuel as [|fuel IH]; intros attempt lastError s s' events out; simpl.
  - intros [= _ <- _] i ms Hi. destruct i; discriminate.
  - destruct (Z.leb_spec attempt attemptsN) as [Hle|Hgt].
    2:{ intros [= _ <- _] i ms Hi. destruct i; discriminate. }
    destruct (fn s) as [s1 [err|v]].
    2:{ intros [= _ <- _] i ms Hi. destruct i as [|[|i]]; discriminate. }
    destruct (Z.leb_spec attemptsN attempt) as [Hfinal|Hmore].
    { intros [= _ <- _] i ms Hi. destruct i as [|[|i]]; discriminate. }
    destruct (vetoed options err attempt) eqn:Hveto.
    { intros [= _ <- _] i ms Hi. destruct i as [|[|i]]; discriminate. }
    destruct (Math_random rt s1) as [s2 rnd] eqn:Hrnd.
    rewrite retryLoop_prefix.
    destruct (loop fuel _ _ [] _) as [[s3 events3] out3] eqn:E.
    intros [= _ <- _] i ms Hi.
    destruct i as [|[|i]]; simpl in Hi.
    + discriminate.
    + injection Hi as <-. exists attempt, err, s1. rewrite Hrnd. simpl.
      repeat split; first [lia | reflexivity].
    + destruct (IH _ _ _ _ _ _ E i ms Hi) as (j & e & s1' & H1 & H2 & H3 & H4 & H5).
      exists j, e, s1'. repeat split; try lia; try assumption.
      destruct i; [contradiction|]. simpl. exact H3.
Qed.

(** With fuel left and attempts left, the loop starts with an invocation. *)
Lemma retryLoop_head (fuel : nat) (attempt : Z) (lastError : option Thrown) (s s' : S)
    (events : list RetryEvent) (out : Thrown + T) :
  attempt <= attemptsN ->
  loop (Datatypes.S fuel) attempt lastError [] s = (s', events, out) ->
  exists failure, events !! O = Some (Invoked attempt failure).
Proof.
  intros Hle. simpl. destruct (Z.leb_spec attempt attemptsN); [|lia].
  destruct (fn s) as [s1 [err|v]].
  2:{ intros [= _ <- _]. eexists. reflexivity. }
  destruct (attemptsN <=? attempt).
  { intros [= _ <- _]. eexists. reflexivity. }
  destruct (vetoed options err attempt).
  { intros [= _ <- _]. eexists. reflexivity. }
  destruct (Math_random rt s1) as [s2 rnd].
  rewrite retryLoop_prefix.
  destruct (loop fuel _ _ [] _) as [[s3 events3] out3].
  intros [= _ <- _]. eexists. reflexivity.
Qed.

(** A failure that is neither final nor refused is followed by a delay and
    by the next attempt. *)
Lemma retryLoop_continues (fuel : nat) :
  forall attempt lastError s s' events out,
    (Z.to_nat (attemptsN - attempt + 1) <= fuel)%nat ->
    loop fuel attempt lastError [] s = (s', events, out) ->
    forall (i : nat) j e,
      events !! i = Some (Invoked j (Some e)) ->
      j < attemptsN -> vetoed options e j = false ->
      exists ms failure,
        events !! Datatypes.S i = Some (Slept ms) /\
        events !! Datatypes.S (Datatypes.S i) = Some (Invoked (j + 1) failure).
Proof.
  induction fuel as [|fuel IH]; intros attempt lastError s s' events out Hfuel.
  - simpl. intros [= _ <- _] i j e Hi. destruct i; discriminate.
  - simpl. destruct (Z.leb_spec attempt attemptsN) as [Hle|Hgt].
    2:{ intros [= _ <- _] i j e Hi. destruct i; discriminate. }
    destruct (fn s) as [s1 [err|v]].
    2:{ intros [= _ <- _] i j e Hi. destruct i as [|[|i]]; discriminate. }
    destruct (Z.leb_spec attemptsN attempt) as [Hfinal|Hmore].
    { intros [= _ <- _] i j e Hi Hj. destruct i as [|[|i]]; try discriminate.
      simpl in Hi. injection Hi as -> ->. lia. }
    destruct (vetoed options err attempt) eqn:Hveto.
    { intros [= _ <- _] i j e Hi Hj Hv. destruct i as [|[|i]]; try discriminate.
      simpl in Hi. injection Hi as -> ->. congruence. }
    destruct (Math_random rt s1) as [s2 rnd].
    rewrite retryLoop_prefix.
    destruct (loop fuel _ _ [] _) as [[s3 events3] out3] eqn:E.
    intros [= _ <- _] i j e Hi Hj Hv.
    destruct i as [|[|i]]; simpl in Hi.
    + injection Hi as -> ->. simpl.
      destruct fuel as [|fuel']; [lia|].
      assert (Hnext : j + 1 <= attemptsN) by lia.
      destruct (retryLoop_head _ _ _ _ _ _ _ Hnext E) as [failure Hhead].
      eexists _, failure. split; [reflexivity | exact Hhead].
    + discriminate.
    + simpl. eapply IH; eauto. lia.
Qed.

End RetryFacts.

(** ** Numbers: rounding to nearest *)

Section RoundingSteps.
Import Number Exact.

Lemma digits2_size (m : positive) : Zpos (digits2_pos m) = Z.log2 (Zpos m) + 1.
Proof.
  assert (H : forall p, digits2_pos p = Pos.size p)
    by (induction p; simpl; congruence).
  rewrite H. destruct m; simpl; lia.
Qed.

Lemma iter_pos_nat {A : Type} (f : A -> A) (p : positive) :
  forall x, SpecFloat.iter_pos f p x = Nat.iter (Pos.to_nat p) f x.
Proof.
  induction p as [p IH|p IH|]; intros x; cbn [SpecFloat.iter_pos].
  - rewrite !IH, Pos2Nat.inj_xI.
    replace (Datatypes.S (2 * Pos.to_nat p)) with (Pos.to_nat p + Datatypes.S (Pos.to_nat p))%nat by lia.
    rewrite Nat.iter_add. f_equal. now rewrite Nat.iter_succ_r.
  - rewrite !IH, Pos2Nat.inj_xO.
    replace (2 * Pos.to_nat p)%nat with (Pos.to_nat p + Pos.to_nat p)%nat by lia.
    now rewrite Nat.iter_add.
  - reflexivity.
Qed.

Lemma shr_1_spec (m : Z) (r s : bool) :
  0 <= m ->
  shr_1 {| shr_m := m; shr_r := r; shr_s := s |} =
  {| shr_m := m / 2; shr_r := Z.odd m; shr_s := r || s |}.
Proof.
  intros Hm. rewrite <- Z.div2_div.
  destruct m as [|p|p]; [reflexivity| |lia].
  destruct p as [p|p|]; reflexivity.
Qed.

Lemma odd_mod2 (a : Z) : a mod 2 = Z.b2z (Z.odd a).
Proof. now rewrite <- Z.bit0_odd, Z.bit0_mod. Qed.

Lemma mod_pow2_succ (m k : Z) :
  0 <= k -> m mod 2 ^ (k + 1) = m mod 2 ^ k + 2 ^ k * Z.b2z (Z.odd (m / 2 ^ k)).
Proof.
  intros Hk. rewrite Z.pow_add_r, Z.pow_1_r by lia.
  assert (0 < 2 ^ k) by (apply Z.pow_pos_nonneg; lia).
  rewrite Z.rem_mul_r by lia. now rewrite odd_mod2.
Qed.

Lemma shr_iter (m : Z) (k : nat) :
  0 <= m ->
  Nat.iter (Datatypes.S k) shr_1 {| shr_m := m; shr_r := false; shr_s := false |} =
  {| shr_m := m / 2 ^ (Z.of_nat k + 1);
     shr_r := Z.odd (m / 2 ^ Z.of_nat k);
     shr_s := negb (m mod 2 ^ Z.of_nat k =? 0) |}.
Proof.
  intros Hm. induction k as [|k IH].
  - cbn [Nat.iter]. rewrite shr_1_spec by assumption.
    change (Z.of_nat 0) with 0. rewrite Z.pow_0_r, Z.div_1_r, Z.mod_1_r. reflexivity.
  - rewrite Nat.iter_succ, IH.
    assert (Hp : 0 < 2 ^ (Z.of_nat k + 1)) by (apply Z.pow_pos_nonneg; lia).
    assert (Hq : 0 < 2 ^ Z.of_nat k) by (apply Z.pow_pos_nonneg; lia).
    rewrite shr_1_spec by (apply Z.div_pos; lia).
    replace (Z.of_nat (Datatypes.S k)) with (Z.of_nat k + 1) by lia.
    f_equal.
    + rewrite Z.div_div by lia. f_equal.
      rewrite (Z.pow_add_r 2 (Z.of_nat k + 1) 1) by lia. reflexivity.
    + rewrite mod_pow2_succ by lia.
      pose proof (Z.mod_pos_bound m (2 ^ Z.of_nat k) Hq) as Hb.
      destruct (Z.odd (m / 2 ^ Z.of_nat k)); cbn [Z.b2z orb].
      * symmetry. apply negb_true_iff, Z.eqb_neq. lia.
      * now rewrite Z.mul_0_r, Z.add_0_r.
Qed.

Lemma shr_round (m e n : Z) :
  0 <= m -> 0 <= n ->
  let mrs := (shr {| shr_m := m; shr_r := false; shr_s := false |} e n).1 in
  (shr {| shr_m := m; shr_r := false; shr_s := false |} e n).2 = e + n /\
  shr_m mrs = m / 2 ^ n /\
  round_nearest_even (shr_m mrs) (loc_of_shr_record mrs) =
  nearestInt (m / 2 ^ n) (m mod 2 ^ n) (2 ^ n).
Proof.
  intros Hm Hn. destruct n as [|p|p]; [| |lia].
  - cbn [shr fst snd shr_m loc_of_shr_record round_nearest_even].
    rewrite Z.pow_0_r, Z.div_1_r, Z.mod_1_r, Z.add_0_r. now unfold nearestInt.
  - cbn [shr fst snd]. split; [reflexivity|].
    rewrite iter_pos_nat.
    destruct (Pos.to_nat p) as [|k] eqn:Ek; [pose proof (Pos2Nat.is_pos p); lia|].
    rewrite shr_iter by assumption.
    assert (En : Z.pos p = Z.of_nat k + 1) by lia. rewrite En.
    cbn [shr_m]. split; [reflexivity|].
    set (h := 2 ^ Z.of_nat k). set (q := m / 2 ^ (Z.of_nat k + 1)).
    assert (Hh : 0 < h) by (apply Z.pow_pos_nonneg; lia).
    assert (EP : 2 ^ (Z.of_nat k + 1) = 2 * h)
      by (unfold h; rewrite Z.pow_add_r, Z.pow_1_r by lia; lia).
    rewrite mod_pow2_succ by lia. fold h. rewrite EP.
    pose proof (Z.mod_pos_bound m h Hh) as Hb.
    unfold nearestInt.
    destruct (Z.odd (m / h)); cbn [Z.b2z loc_of_shr_record].
    + destruct (Z.eqb_spec (m mod h) 0) as [E0|N0]; cbn [negb round_nearest_even].
      * rewrite E0. replace (2 * (0 + h * 1)) with (2 * h) by lia.
        rewrite !Z.ltb_irrefl. reflexivity.
      * destruct (Z.ltb_spec (2 * (m mod h + h * 1)) (2 * h)); [lia|].
        destruct (Z.ltb_spec (2 * h) (2 * (m mod h + h * 1))); [reflexivity|lia].
    + destruct (Z.ltb_spec (2 * (m mod h + h * 0)) (2 * h)); [|lia].
      now destruct (negb (m mod h =? 0)).
Qed.

Lemma fexp_eq (x : Z) : fexp prec emax x = Z.max (x - 53) (-1074).
Proof. reflexivity. Qed.

Lemma pow2_pos (a : Z) : 0 <= a -> 0 < 2 ^ a.
Proof. intros. apply Z.pow_pos_nonneg; lia. Qed.

Lemma pow2_mul (a b : Z) : 0 <= a -> 0 <= b -> 2 ^ a * 2 ^ b = 2 ^ (a + b).
Proof. intros. now rewrite Z.pow_add_r. Qed.

Lemma pow2_mono (a b : Z) : 0 <= a -> a <= b -> 2 ^ a <= 2 ^ b.
Proof. intros. apply Z.pow_le_mono_r; lia. Qed.

Lemma pow2_mono_lt (a b : Z) : 0 <= a -> a < b -> 2 ^ a < 2 ^ b.
Proof. intros. apply Z.pow_lt_mono_r; lia. Qed.

Lemma log2_bounds (a : Z) : 0 < a -> 2 ^ Z.log2 a <= a < 2 ^ (Z.log2 a + 1).
Proof. intros H. exact (Z.log2_spec a H). Qed.

Lemma nearestInt_range (q r P : Z) : q <= nearestInt q r P <= q + 1.
Proof.
  unfold nearestInt.
  destruct (2 * r <? P); [lia|]. destruct (P <? 2 * r); [lia|].
  destruct (Z.even q); lia.
Qed.

Lemma nearestInt_scale (q r P c : Z) :
  0 < c -> nearestInt q (r * c) (P * c) = nearestInt q r P.
Proof.
  intros Hc. unfold nearestInt.
  replace (2 * (r * c)) with (2 * r * c) by lia.
  destruct (Z.ltb_spec (2 * r) P), (Z.ltb_spec (2 * r * c) (P * c)); try nia.
  destruct (Z.ltb_spec P (2 * r)), (Z.ltb_spec (P * c) (2 * r * c)); try nia; reflexivity.
Qed.

(** The magnitude [m * 2^e] when its mantissa does not already sit on a
    coarser grid than the format's. *)
Lemma nearest_unfold (m : positive) (e : Z) :
  0 <= e + K ->
  let E := fexp prec emax (Zpos (digits2_pos m) + e) in
  e <= E ->
  expOf (Zpos m * 2 ^ (e + K)) = E + K /\
  nearest (Zpos m * 2 ^ (e + K)) =
  Z.min (nearestInt (Zpos m / 2 ^ (E - e)) (Zpos m mod 2 ^ (E - e)) (2 ^ (E - e))
         * 2 ^ (E + K)) top.
Proof.
  intros HK E HE.
  assert (Hexp : expOf (Zpos m * 2 ^ (e + K)) = E + K).
  { unfold expOf, E. rewrite fexp_eq, digits2_size.
    rewrite Z.log2_mul_pow2 by lia. unfold prec, emax, K in *. lia. }
  split; [exact Hexp|].
  unfold nearest. rewrite Hexp.
  assert (Hc : 0 < 2 ^ (e + K)) by (apply pow2_pos; lia).
  assert (EP : 2 ^ (E + K) = 2 ^ (E - e) * 2 ^ (e + K)).
  { rewrite pow2_mul by lia. f_equal. lia. }
  rewrite EP at 1 2 3.
  rewrite Z.div_mul_cancel_r by lia.
  rewrite Z.mul_mod_distr_r by lia.
  rewrite nearestInt_scale by lia. reflexivity.
Qed.

Lemma Zdigits2_log2 (q : Z) : 0 < q -> Zdigits2 q = Z.log2 q + 1.
Proof. intros H. destruct q as [|p|p]; try lia. apply digits2_size. Qed.

Lemma top_pos : 0 < top.
Proof. apply pow2_pos. unfold emax, K. lia. Qed.

Lemma round_aux_spec (s : bool) (m : positive) (e : Z) :
  0 <= e + K ->
  e <= fexp prec emax (Zpos (digits2_pos m) + e) ->
  let res := binary_round_aux prec emax s (Zpos m) e loc_Exact in
  isDouble res = true /\ isNaN res = false /\
  val res = signed s (nearest (Zpos m * 2 ^ (e + K))).
Proof.
  intros HK HE res.
  destruct (nearest_unfold m e HK HE) as [_ Hn].
  assert (HE1074 : -1074 <= fexp prec emax (Zpos (digits2_pos m) + e))
    by (rewrite fexp_eq; lia).
  assert (HEd : fexp prec emax (Zpos (digits2_pos m) + e) =
                Z.max (Z.log2 (Zpos m) + 1 + e - 53) (-1074))
    by (rewrite fexp_eq, digits2_size; lia).
  set (E := fexp prec emax (Zpos (digits2_pos m) + e)) in *.
  pose proof (shr_round (Zpos m) e (E - e) ltac:(lia) ltac:(lia)) as Hshr.
  cbv zeta in Hshr.
  unfold res, binary_round_aux, shr_fexp.
  change (Zdigits2 (Z.pos m)) with (Zpos (digits2_pos m)).
  change (shr_record_of_loc (Z.pos m) loc_Exact)
    with {| shr_m := Zpos m; shr_r := false; shr_s := false |}.
  fold E.
  destruct (shr {| shr_m := Zpos m; shr_r := false; shr_s := false |} e (E - e))
    as [mrs' e'] eqn:Es.
  cbn [fst snd] in Hshr. destruct Hshr as (He' & Hq & Hround).
  rewrite Hround. subst e'. replace (e + (E - e)) with E by lia.
  clear Hround Hq Es mrs'.
  pose proof (log2_bounds (Zpos m) ltac:(lia)) as Hd.
  assert (Hn0 : 0 < 2 ^ (E - e)) by (apply pow2_pos; lia).
  assert (Hq53 : 0 <= Zpos m / 2 ^ (E - e) < 2 ^ 53).
  { split; [apply Z.div_pos; lia|].
    apply Z.div_lt_upper_bound; [lia|].
    rewrite pow2_mul by lia.
    eapply Z.lt_le_trans; [apply Hd|]. apply pow2_mono; [|lia].
    pose proof (Z.log2_nonneg (Zpos m)). lia. }
  assert (Hq52 : -1074 < E -> 2 ^ 52 <= Zpos m / 2 ^ (E - e)).
  { intros Hnorm. apply Z.div_le_lower_bound; [lia|].
    rewrite pow2_mul by lia.
    eapply Z.le_trans; [|apply Hd]. apply pow2_mono; lia. }
  pose proof (nearestInt_range (Zpos m / 2 ^ (E - e)) (Zpos m mod 2 ^ (E - e))
                (2 ^ (E - e))) as Hr.
  set (q' := nearestInt (Zpos m / 2 ^ (E - e)) (Zpos m mod 2 ^ (E - e)) (2 ^ (E - e))) in *.
  clearbody q'.
  change (shr_record_of_loc q' loc_Exact)
    with {| shr_m := q'; shr_r := false; shr_s := false |}.
  assert (HEK : 0 < 2 ^ (E + K)) by (apply pow2_pos; unfold K; lia).
  destruct (Z.eq_dec q' (2 ^ 53)) as [Ecarry|Ncarry].
  - (* the mantissa carried into a 54th bit *)
    subst q'. change (Zdigits2 (2 ^ 53)) with 54.
    replace (fexp prec emax (54 + E) - E) with 1 by (rewrite fexp_eq; lia).
    cbn [shr SpecFloat.iter_pos shr_1 fst snd shr_m].
    change (2 ^ 53) with 9007199254740992 in *. cbn [shr_1 shr_m].
    change (emax - prec) with 971.
    assert (Etop : top = 2 ^ (E + K) * 2 ^ (971 - E) * 9007199254740992 \/ 971 <= E).
    { destruct (Z_lt_le_dec E 971); [left|now right].
      rewrite pow2_mul by (unfold K; lia).
      change 9007199254740992 with (2 ^ 53). rewrite pow2_mul by (unfold K; lia).
      unfold top. f_equal. unfold emax. lia. }
    destruct (Z.leb_spec (E + 1) 971) as [Hfit|Hover].
    + split; [|split; [reflexivity|]].
      * cbn [isDouble valid_binary]. unfold bounded, canonical_mantissa.
        change (Z.pos (digits2_pos 4503599627370496)) with 53.
        rewrite fexp_eq. apply andb_true_iff. split; [apply Z.eqb_eq; lia|].
        change (emax - prec) with 971. apply Z.leb_le. lia.
      * cbn [val]. f_equal. rewrite Hn.
        replace (2 ^ (E + 1 + K)) with (2 ^ (E + K) * 2)
          by (rewrite <- (Z.pow_1_r 2) at 2; rewrite pow2_mul by (unfold K; lia);
              f_equal; lia).
        destruct Etop as [Etop|]; [|lia].
        assert (1 <= 2 ^ (971 - E)) by (pose proof (pow2_pos (971 - E)); lia).
        rewrite Z.min_l by nia. lia.
    + split; [reflexivity|split; [reflexivity|]].
      cbn [val]. f_equal. rewrite Hn.
      assert (top <= 9007199254740992 * 2 ^ (E + K)).
      { change 9007199254740992 with (2 ^ 53). rewrite pow2_mul by (unfold K; lia).
        apply pow2_mono; unfold emax, K; lia. }
      now rewrite Z.min_r by lia.
  - (* the mantissa fits *)
    assert (Hfit : 0 <= q' < 2 ^ 53) by lia.
    assert (Hshift : fexp prec emax (Zdigits2 q' + E) - E <= 0).
    { rewrite fexp_eq. destruct (Z.eq_dec q' 0) as [->|Hnz]; [simpl; lia|].
      rewrite Zdigits2_log2 by lia.
      assert (Z.log2 q' < 53) by (apply Z.log2_lt_pow2; lia). lia. }
    destruct (fexp prec emax (Zdigits2 q' + E) - E) as [|p|p] eqn:Eshift; [| lia |];
      cbn [shr fst snd shr_m].
    all: destruct q' as [|p'|p'] eqn:Eq'; [| | lia].
    all: try (split; [reflexivity|split; [reflexivity|]]; cbn [val]; rewrite Hn;
              rewrite Z.mul_0_l, Z.min_l by (pose proof top_pos; lia);
              now destruct s).
    all: change (emax - prec) with 971.
    all: assert (Hlog : Z.log2 (Zpos p') < 53) by (apply Z.log2_lt_pow2; lia).
    all: assert (Hcanon : -1074 < E -> 52 <= Z.log2 (Zpos p'))
           by (intros Hnorm; apply Z.log2_le_pow2; [lia|]; specialize (Hq52 Hnorm); lia).
    all: destruct (Z.leb_spec E 971) as [Hin|Hover].
    all: try (split; [|split; [reflexivity|]];
              [ cbn [isDouble valid_binary]; unfold bounded, canonical_mantissa;
                rewrite fexp_eq, digits2_size; apply andb_true_iff;
                split; [apply Z.eqb_eq; lia | change (emax - prec) with 971; apply Z.leb_le; lia]
              | cbn [val]; f_equal; rewrite Hn;
                assert (2 ^ (E + K) * 2 ^ 53 <= top)
                  by (rewrite pow2_mul by (unfold K; lia); apply pow2_mono;
                      unfold emax, K; lia);
                rewrite Z.min_l by nia; reflexivity ]).
    all: split; [reflexivity|split; [reflexivity|]]; cbn [val]; f_equal; rewrite Hn.
    all: assert (top <= 2 ^ 52 * 2 ^ (E + K))
           by (rewrite pow2_mul by (unfold K; lia); apply pow2_mono; unfold emax, K; lia).
    all: specialize (Hq52 ltac:(lia)).
    all: rewrite Z.min_r by nia; reflexivity.
Qed.

Lemma iter_xO (m d : positive) : Zpos (Pos.iter xO m d) = Zpos m * 2 ^ Zpos d.
Proof.
  induction d as [|d IH] using Pos.peano_ind.
  - cbn [Pos.iter]. rewrite Z.pow_1_r. lia.
  - rewrite Pos.iter_succ, Pos2Z.inj_xO, IH, Pos2Z.inj_succ, Z.pow_succ_r by lia. lia.
Qed.

Lemma shl_align_spec (m : positive) (e e' : Z) :
  let mz := (shl_align m e e').1 in
  let ez := (shl_align m e e').2 in
  ez = Z.min e e' /\ Zpos mz = Zpos m * 2 ^ (e - ez).
Proof.
  unfold shl_align. destruct (e' - e) as [|d|d] eqn:Ed; cbn [fst snd].
  - split; [lia|]. now rewrite Z.sub_diag, Z.mul_1_r.
  - split; [lia|]. now rewrite Z.sub_diag, Z.mul_1_r.
  - split; [lia|]. rewrite iter_xO. do 2 f_equal. lia.
Qed.

Lemma binary_round_spec (s : bool) (m : positive) (e : Z) :
  0 <= e + K ->
  let res := binary_round prec emax s m e in
  isDouble res = true /\ isNaN res = false /\
  val res = signed s (nearest (Zpos m * 2 ^ (e + K))).
Proof.
  intros HK res. unfold res, binary_round.
  pose proof (shl_align_spec m e (fexp prec emax (Zpos (digits2_pos m) + e))) as Ha.
  cbv zeta in Ha.
  destruct (shl_align m e (fexp prec emax (Zpos (digits2_pos m) + e))) as [mz ez].
  cbn [fst snd] in Ha. destruct Ha as [Hez Hmz].
  assert (Hfe : -1074 <= fexp prec emax (Zpos (digits2_pos m) + e))
    by (rewrite fexp_eq; lia).
  assert (HK' : 0 <= ez + K) by (unfold K in *; lia).
  assert (Hdig : Zpos (digits2_pos mz) + ez = Zpos (digits2_pos m) + e).
  { rewrite !digits2_size, Hmz, Z.log2_mul_pow2 by lia. lia. }
  assert (Hval : Zpos mz * 2 ^ (ez + K) = Zpos m * 2 ^ (e + K)).
  { rewrite Hmz, <- Z.mul_assoc, pow2_mul by lia. do 2 f_equal. lia. }
  rewrite <- Hval. apply round_aux_spec; [exact HK'|]. rewrite Hdig. lia.
Qed.

Lemma nearest_0 : nearest 0 = 0.
Proof.
  unfold nearest. rewrite Z.div_0_l, Z.mod_0_l; cycle 1.
  - unfold expOf. pose proof (pow2_pos (Z.max (Z.log2 0 + 1 - prec) (K + (3 - emax - prec)))).
    unfold prec, emax, K in *. lia.
  - unfold expOf. pose proof (pow2_pos (Z.max (Z.log2 0 + 1 - prec) (K + (3 - emax - prec)))).
    unfold prec, emax, K in *. lia.
  - unfold nearestInt.
    assert (0 < 2 ^ expOf 0) by (apply pow2_pos; unfold expOf, prec, emax, K; lia).
    destruct (Z.ltb_spec (2 * 0) (2 ^ expOf 0)); [|lia].
    pose proof top_pos. lia.
Qed.

Lemma round_0 : round 0 = 0.
Proof. unfold round. simpl. apply nearest_0. Qed.

Lemma round_opp (v : Z) : round (- v) = - round v.
Proof.
  unfold round. destruct (Z.ltb_spec v 0), (Z.ltb_spec (- v) 0); try lia.
  - now rewrite Z.opp_involutive.
  - assert (v = 0) by lia. subst v. simpl. rewrite nearest_0. reflexivity.
Qed.

Lemma round_signed (s : bool) (v : Z) : 0 <= v -> signed s (nearest v) = round (signed s v).
Proof.
  intros Hv. destruct s; cbn [signed].
  - rewrite round_opp. unfold round. destruct (Z.ltb_spec v 0); [lia|reflexivity].
  - unfold round. destruct (Z.ltb_spec v 0); [lia|reflexivity].
Qed.

Lemma binary_normalize_spec (m e : Z) (sz : bool) :
  0 <= e + K ->
  let res := binary_normalize prec emax m e sz in
  isDouble res = true /\ isNaN res = false /\ val res = round (m * 2 ^ (e + K)).
Proof.
  intros HK res. unfold res, binary_normalize.
  assert (0 < 2 ^ (e + K)) by (apply pow2_pos; lia).
  destruct m as [|p|p].
  - split; [reflexivity|split; [reflexivity|]]. now rewrite Z.mul_0_l, round_0.
  - destruct (binary_round_spec false p e HK) as (H1 & H2 & H3).
    split; [exact H1|split; [exact H2|]]. rewrite H3.
    rewrite (round_signed false) by lia. reflexivity.
  - destruct (binary_round_spec true p e HK) as (H1 & H2 & H3).
    split; [exact H1|split; [exact H2|]]. rewrite H3.
    rewrite (round_signed true) by lia. cbn [signed]. f_equal. lia.
Qed.

Lemma valid_finite (s : bool) (m : positive) (e : Z) :
  isDouble (S754_finite s m e) = true ->
  -1074 <= e <= 971 /\ Zpos m < 2 ^ 53 /\ (-1074 < e -> 2 ^ 52 <= Zpos m) /\
  fexp prec emax (Zpos (digits2_pos m) + e) = e.
Proof.
  cbn [isDouble valid_binary]. unfold bounded, canonical_mantissa.
  intros H. apply andb_true_iff in H as [Hc Hb].
  apply Z.eqb_eq in Hc. apply Z.leb_le in Hb. change (emax - prec) with 971 in Hb.
  pose proof Hc as Hc'. rewrite fexp_eq, digits2_size in Hc'.
  split; [lia|]. split; [|split; [|exact Hc]].
  - apply Z.log2_lt_pow2; lia.
  - intros Hn. apply Z.log2_le_pow2; lia.
Qed.

Lemma val_finite_bound (s : bool) (m : positive) (e : Z) :
  isDouble (S754_finite s m e) = true ->
  0 < Zpos m * 2 ^ (e + K) < top.
Proof.
  intros H. destruct (valid_finite s m e H) as (He & Hm & _ & _).
  assert (0 < 2 ^ (e + K)) by (apply pow2_pos; unfold K; lia).
  split; [lia|].
  assert (2 ^ 53 * 2 ^ (e + K) <= top).
  { rewrite pow2_mul by (unfold K; lia). apply pow2_mono; unfold emax, K; lia. }
  nia.
Qed.

Lemma val_bound (x : number) :
  isDouble x = true -> - top <= val x <= top.
Proof.
  intros H. pose proof top_pos. destruct x as [s|s| |s m e]; cbn [val]; try lia.
  - destruct s; cbn [signed]; lia.
  - pose proof (val_finite_bound s m e H). destruct s; cbn [signed]; lia.
Qed.

Lemma val_finite (x : number) :
  isDouble x = true -> isFinite x = true -> - top < val x < top.
Proof.
  intros H Hf. pose proof top_pos. destruct x as [s|s| |s m e]; cbn [val]; try lia;
    try discriminate.
  pose proof (val_finite_bound s m e H). destruct s; cbn [signed]; lia.
Qed.

Lemma isFinite_val (x : number) :
  isDouble x = true -> isNaN x = false -> - top < val x < top -> isFinite x = true.
Proof.
  intros H Hn Hv. destruct x as [s|s| |s m e]; try reflexivity; try discriminate.
  cbn [val] in Hv. destruct s; cbn [signed] in Hv; lia.
Qed.

Lemma nearest_fix (s : bool) (m : positive) (e : Z) :
  isDouble (S754_finite s m e) = true ->
  nearest (Zpos m * 2 ^ (e + K)) = Zpos m * 2 ^ (e + K).
Proof.
  intros H. destruct (valid_finite s m e H) as (He & Hm & _ & Hc).
  pose proof (val_finite_bound s m e H) as Hb.
  destruct (nearest_unfold m e ltac:(unfold K; lia)) as [_ Hn]; [lia|].
  rewrite Hn, Hc, Z.sub_diag, Z.pow_0_r, Z.div_1_r, Z.mod_1_r.
  replace (nearestInt (Z.pos m) 0 1) with (Z.pos m) by reflexivity. lia.
Qed.

Lemma round_fix (x : number) :
  isDouble x = true -> isFinite x = true -> round (val x) = val x.
Proof.
  intros H Hf. destruct x as [s|s| |s m e]; try discriminate; cbn [val].
  - apply round_0.
  - pose proof (val_finite_bound s m e H).
    rewrite <- round_signed by lia. f_equal. now apply (nearest_fix s).
Qed.

Lemma nearestInt_mono_r (q r1 r2 P : Z) :
  r1 <= r2 -> nearestInt q r1 P <= nearestInt q r2 P.
Proof.
  intros H. unfold nearestInt.
  destruct (Z.ltb_spec (2 * r1) P), (Z.ltb_spec (2 * r2) P); try lia.
  - destruct (P <? 2 * r2); [lia|]. destruct (Z.even q); lia.
  - destruct (Z.ltb_spec P (2 * r1)), (Z.ltb_spec P (2 * r2)); try lia.
    destruct (Z.even q); lia.
Qed.

Lemma expOf_bounds (v : Z) :
  K - 1074 <= expOf v /\
  (0 < v -> v < 2 ^ (expOf v + 53)) /\
  (K - 1074 < expOf v -> 2 ^ (expOf v + 52) <= v).
Proof.
  unfold expOf. change (K + (3 - emax - prec)) with (K - 1074). change prec with 53.
  split; [lia|]. split.
  - intros Hv. pose proof (log2_bounds v Hv) as [_ Hlt].
    eapply Z.lt_le_trans; [exact Hlt|]. apply pow2_mono; [|lia].
    pose proof (Z.log2_nonneg v). lia.
  - intros Hn. assert (Hv : 0 < v).
    { destruct (Z_lt_le_dec 0 v); [assumption|].
      rewrite Z.log2_nonpos in Hn by lia. unfold K in Hn. lia. }
    pose proof (log2_bounds v Hv) as [Hle _].
    replace (Z.max (Z.log2 v + 1 - 53) (K - 1074) + 52) with (Z.log2 v) by lia.
    exact Hle.
Qed.

Lemma nearest_mono (a b : Z) : 0 <= a -> a <= b -> nearest a <= nearest b.
Proof.
  intros Ha Hab.
  destruct (Z.eq_dec a 0) as [->|Hnz].
  { rewrite nearest_0. unfold nearest.
    pose proof (expOf_bounds b) as [Hb _].
    assert (0 < 2 ^ expOf b) by (apply pow2_pos; unfold K in *; lia).
    pose proof (nearestInt_range (b / 2 ^ expOf b) (b mod 2 ^ expOf b) (2 ^ expOf b)).
    assert (0 <= b / 2 ^ expOf b) by (apply Z.div_pos; lia).
    pose proof top_pos. apply Z.min_glb; nia. }
  assert (Hle : expOf a <= expOf b).
  { unfold expOf. pose proof (Z.log2_le_mono a b Hab). lia. }
  destruct (expOf_bounds a) as (Ha0 & Ha1 & _).
  destruct (expOf_bounds b) as (Hb0 & _ & Hb2).
  specialize (Ha1 ltac:(lia)).
  unfold nearest. apply Z.min_le_compat_r.
  assert (HPa : 0 < 2 ^ expOf a) by (apply pow2_pos; unfold K in *; lia).
  assert (HPb : 0 < 2 ^ expOf b) by (apply pow2_pos; unfold K in *; lia).
  pose proof (nearestInt_range (a / 2 ^ expOf a) (a mod 2 ^ expOf a) (2 ^ expOf a)) as Hra.
  pose proof (nearestInt_range (b / 2 ^ expOf b) (b mod 2 ^ expOf b) (2 ^ expOf b)) as Hrb.
  destruct (Z.eq_dec (expOf a) (expOf b)) as [Eeq|Ene].
  - rewrite <- Eeq in *. set (P := 2 ^ expOf a) in *.
    pose proof (Z.div_le_mono a b P HPa Hab) as Hq.
    apply Z.mul_le_mono_nonneg_r; [lia|].
    destruct (Z.eq_dec (a / P) (b / P)) as [Eq|Nq].
    + rewrite <- Eq. apply nearestInt_mono_r.
      rewrite !Z.mod_eq by lia. rewrite <- Eq. lia.
    + lia.
  - specialize (Hb2 ltac:(lia)).
    assert (Hqa : a / 2 ^ expOf a < 2 ^ 53).
    { apply Z.div_lt_upper_bound; [lia|]. rewrite pow2_mul by (unfold K in *; lia).
      exact Ha1. }
    assert (Hqb : 2 ^ 52 <= b / 2 ^ expOf b).
    { apply Z.div_le_lower_bound; [lia|]. rewrite pow2_mul by (unfold K in *; lia).
      exact Hb2. }
    assert (Hstep : 2 ^ 53 * 2 ^ expOf a <= 2 ^ 52 * 2 ^ expOf b).
    { rewrite !pow2_mul by (unfold K in *; lia). apply pow2_mono; unfold K in *; lia. }
    change (2 ^ 53) with 9007199254740992 in *. change (2 ^ 52) with 4503599627370496 in *.
    nia.
Qed.

Lemma nearest_nonneg (v : Z) : 0 <= v -> 0 <= nearest v.
Proof. intros H. rewrite <- nearest_0. now apply nearest_mono. Qed.

Lemma round_mono (a b : Z) : a <= b -> round a <= round b.
Proof.
  intros H. unfold round.
  destruct (Z.ltb_spec a 0), (Z.ltb_spec b 0); try lia.
  - pose proof (nearest_mono (- b) (- a) ltac:(lia) ltac:(lia)). lia.
  - pose proof (nearest_nonneg (- a) ltac:(lia)).
    pose proof (nearest_nonneg b ltac:(lia)). lia.
  - apply nearest_mono; lia.
Qed.

Lemma round_bound (v : Z) : - top <= round v <= top.
Proof.
  assert (Hn : forall w, 0 <= w -> 0 <= nearest w <= top).
  { intros w Hw. split; [now apply nearest_nonneg|]. unfold nearest. apply Z.le_min_r. }
  unfold round. destruct (Z.ltb_spec v 0).
  - specialize (Hn (- v) ltac:(lia)). lia.
  - specialize (Hn v ltac:(lia)). lia.
Qed.

Lemma mag_lt (s1 s2 : bool) (m1 m2 : positive) (e1 e2 : Z) :
  isDouble (S754_finite s1 m1 e1) = true -> isDouble (S754_finite s2 m2 e2) = true ->
  e1 < e2 -> Zpos m1 * 2 ^ (e1 + K) < Zpos m2 * 2 ^ (e2 + K).
Proof.
  intros H1 H2 He.
  destruct (valid_finite _ _ _ H1) as (He1 & Hm1 & _ & _).
  destruct (valid_finite _ _ _ H2) as (He2 & _ & Hm2 & _).
  specialize (Hm2 ltac:(lia)).
  assert (0 < 2 ^ (e1 + K)) by (apply pow2_pos; unfold K; lia).
  assert (0 < 2 ^ (e2 + K)) by (apply pow2_pos; unfold K; lia).
  assert (2 ^ 53 * 2 ^ (e1 + K) <= 2 ^ 52 * 2 ^ (e2 + K)).
  { rewrite !pow2_mul by (unfold K; lia). apply pow2_mono; unfold K; lia. }
  change (2 ^ 53) with 9007199254740992 in *. change (2 ^ 52) with 4503599627370496 in *.
  nia.
Qed.

Lemma mag_compare (s1 s2 : bool) (m1 m2 : positive) (e1 e2 : Z) :
  isDouble (S754_finite s1 m1 e1) = true -> isDouble (S754_finite s2 m2 e2) = true ->
  match e1 ?= e2 with
  | Lt => Lt
  | Gt => Gt
  | Eq => Pos.compare_cont Eq m1 m2
  end = (Zpos m1 * 2 ^ (e1 + K) ?= Zpos m2 * 2 ^ (e2 + K)).
Proof.
  intros H1 H2. destruct (Z.compare_spec e1 e2) as [E|L|G].
  - subst e2. destruct (valid_finite _ _ _ H1) as (He1 & _).
    assert (0 < 2 ^ (e1 + K)) by (apply pow2_pos; unfold K; lia).
    change (Pos.compare_cont Eq m1 m2) with (m1 ?= m2)%positive.
    symmetry. destruct (Pos.compare_spec m1 m2) as [E|L|G].
    + subst m2. apply Z.compare_refl.
    + apply Z.compare_lt_iff. nia.
    + apply Z.compare_gt_iff. nia.
  - symmetry. apply Z.compare_lt_iff. now apply (mag_lt s1 s2).
  - symmetry. apply Z.compare_gt_iff. now apply (mag_lt s2 s1).
Qed.

Lemma compare_spec (x y : number) :
  isDouble x = true -> isDouble y = true -> isNaN x = false -> isNaN y = false ->
  SFcompare x y = Some (val x ?= val y).
Proof.
  intros Hx Hy Nx Ny. pose proof top_pos as Ht.
  destruct x as [sx|sx| |sx mx ex], y as [sy|sy| |sy my ey]; try discriminate;
    cbn [SFcompare val].
  all: try pose proof (val_finite_bound _ _ _ Hx) as Bx.
  all: try pose proof (val_finite_bound _ _ _ Hy) as By.
  all: try (destruct sx); try (destruct sy); cbn [signed]; f_equal; symmetry.
  all: try reflexivity.
  all: try (apply Z.compare_lt_iff; lia).
  all: try (apply Z.compare_gt_iff; lia).
  all: try (apply Z.compare_eq_iff; lia).
  - rewrite Z.compare_opp, <- (mag_compare true true my mx ey ex Hy Hx).
    rewrite (Z.compare_antisym ey ex).
    destruct (ey ?= ex); cbn [CompOpp]; try reflexivity.
    now rewrite Pos.compare_cont_antisym.
  - symmetry. now apply (mag_compare false false).
Qed.

Lemma leq_spec (x y : number) :
  isDouble x = true -> isDouble y = true -> isNaN x = false -> isNaN y = false ->
  leq x y = true <-> val x <= val y.
Proof.
  intros Hx Hy Nx Ny. unfold leq, SFleb. rewrite compare_spec by assumption.
  destruct (Z.compare_spec (val x) (val y)); split; intros; try lia; try discriminate;
    reflexivity.
Qed.

Lemma less_spec (x y : number) :
  isDouble x = true -> isDouble y = true -> isNaN x = false -> isNaN y = false ->
  less x y = true <-> val x < val y.
Proof.
  intros Hx Hy Nx Ny. unfold less, SFltb. rewrite compare_spec by assumption.
  destruct (Z.compare_spec (val x) (val y)); split; intros; try lia; try discriminate;
    reflexivity.
Qed.

Lemma equal_spec (x y : number) :
  isDouble x = true -> isDouble y = true -> isNaN x = false -> isNaN y = false ->
  equal x y = true <-> val x = val y.
Proof.
  intros Hx Hy Nx Ny. unfold equal, SFeqb. rewrite compare_spec by assumption.
  destruct (Z.compare_spec (val x) (val y)); split; intros; try lia; try discriminate;
    reflexivity.
Qed.

Lemma leq_not_NaN (x y : number) : leq x y = true -> isNaN x = false /\ isNaN y = false.
Proof. unfold leq, SFleb. destruct x, y; cbn; try discriminate; auto. Qed.

Lemma less_not_NaN (x y : number) : less x y = true -> isNaN x = false /\ isNaN y = false.
Proof. unfold less, SFltb. destruct x, y; cbn; try discriminate; auto. Qed.

Lemma signed_mul (s1 s2 : bool) (a b : Z) :
  signed s1 a * signed s2 b = signed (xorb s1 s2) (a * b).
Proof. destruct s1, s2; cbn [signed xorb]; lia. Qed.

Lemma signed_div (s : bool) (a c : Z) :
  0 < c -> signed s (a * c) / c = signed s a.
Proof.
  intros Hc. destruct s; cbn [signed]; [|now rewrite Z.div_mul by lia].
  rewrite <- Z.mul_opp_l. now rewrite Z.div_mul by lia.
Qed.

Lemma mul_spec (x y : number) :
  isDouble x = true -> isDouble y = true -> isFinite x = true -> isFinite y = true ->
  isDouble (mul x y) = true /\ isNaN (mul x y) = false /\
  val (mul x y) = round (val x * val y / 2 ^ K).
Proof.
  intros Hx Hy Fx Fy.
  destruct x as [sx|sx| |sx mx ex], y as [sy|sy| |sy my ey]; try discriminate;
    cbn [mul SFmul val].
  all: try (split; [reflexivity|split; [reflexivity|]];
            rewrite ?Z.mul_0_l, ?Z.mul_0_r, Z.div_0_l by (pose proof (pow2_pos K); unfold K in *; lia);
            now rewrite round_0).
  destruct (valid_finite _ _ _ Hx) as (Hex & Hmx & Hnx & _).
  destruct (valid_finite _ _ _ Hy) as (Hey & Hmy & Hny & _).
  assert (HK : 0 <= ex + ey + K) by (unfold K; lia).
  assert (Hgrid : ex + ey <= fexp prec emax (Zpos (digits2_pos (mx * my)) + (ex + ey))).
  { rewrite fexp_eq, digits2_size, Pos2Z.inj_mul.
    pose proof (Z.log2_mul_below (Zpos mx) (Zpos my) ltac:(lia) ltac:(lia)) as Hlog.
    pose proof (Z.log2_nonneg (Zpos mx)). pose proof (Z.log2_nonneg (Zpos my)).
    destruct (Z.eq_dec ex (-1074)) as [Ex|Nx].
    - destruct (Z.eq_dec ey (-1074)) as [Ey|Ny]; [lia|].
      assert (52 <= Z.log2 (Zpos my)) by (apply Z.log2_le_pow2; [lia|apply Hny; lia]). lia.
    - assert (52 <= Z.log2 (Zpos mx)) by (apply Z.log2_le_pow2; [lia|apply Hnx; lia]). lia. }
  destruct (round_aux_spec (xorb sx sy) (mx * my) (ex + ey) HK Hgrid) as (H1 & H2 & H3).
  split; [exact H1|split; [exact H2|]]. rewrite H3.
  assert (Hc : 0 < 2 ^ K) by (apply pow2_pos; unfold K; lia).
  assert (0 < 2 ^ (ex + ey + K)) by (apply pow2_pos; lia).
  rewrite round_signed by lia. f_equal.
  rewrite signed_mul.
  replace (Zpos mx * 2 ^ (ex + K) * (Zpos my * 2 ^ (ey + K)))
    with (Zpos (mx * my) * 2 ^ (ex + ey + K) * 2 ^ K).
  - now rewrite signed_div.
  - rewrite Pos2Z.inj_mul, <- !Z.mul_assoc. f_equal.
    rewrite pow2_mul by (unfold K; lia).
    rewrite (Z.mul_comm (2 ^ (ex + K))), <- Z.mul_assoc. f_equal.
    rewrite pow2_mul by (unfold K; lia). f_equal. lia.
Qed.

Lemma aligned_val (s : bool) (m : positive) (e ez : Z) :
  ez <= e -> 0 <= ez + K ->
  cond_Zopp s (Zpos (shl_align m e ez).1) * 2 ^ (ez + K) = signed s (Zpos m * 2 ^ (e + K)).
Proof.
  intros Hle HK. destruct (shl_align_spec m e ez) as [Hez Hm].
  rewrite Hm, Hez. replace (Z.min e ez) with ez by lia.
  assert (E : Zpos m * 2 ^ (e - ez) * 2 ^ (ez + K) = Zpos m * 2 ^ (e + K)).
  { rewrite <- Z.mul_assoc, pow2_mul by lia. do 2 f_equal. lia. }
  destruct s; cbn [cond_Zopp signed]; lia.
Qed.

Lemma isDouble_opp (s s' : bool) (m : positive) (e : Z) :
  isDouble (S754_finite s m e) = isDouble (S754_finite s' m e).
Proof. reflexivity. Qed.

Lemma add_spec (x y : number) :
  isDouble x = true -> isDouble y = true -> isFinite x = true -> isFinite y = true ->
  isDouble (add x y) = true /\ isNaN (add x y) = false /\
  val (add x y) = round (val x + val y).
Proof.
  intros Hx Hy Fx Fy.
  destruct x as [sx|sx| |sx mx ex], y as [sy|sy| |sy my ey]; try discriminate;
    cbn [add SFadd].
  - split; [now destruct sx, sy|split; [now destruct sx, sy|]].
    replace (val (S754_zero sx) + val (S754_zero sy)) with 0 by reflexivity.
    rewrite round_0. now destruct sx, sy.
  - split; [exact Hy|split; [reflexivity|]].
    rewrite Z.add_0_l. symmetry. now apply round_fix.
  - split; [exact Hx|split; [reflexivity|]].
    change (val (S754_zero sy)) with 0. rewrite Z.add_0_r. symmetry. now apply round_fix.
  - destruct (valid_finite _ _ _ Hx) as (Hex & _).
    destruct (valid_finite _ _ _ Hy) as (Hey & _).
    assert (HK : 0 <= Z.min ex ey + K) by (unfold K; lia).
    destruct (binary_normalize_spec
                (cond_Zopp sx (Zpos (shl_align mx ex (Z.min ex ey)).1) +
                 cond_Zopp sy (Zpos (shl_align my ey (Z.min ex ey)).1))
                (Z.min ex ey) false HK) as (H1 & H2 & H3).
    split; [exact H1|split; [exact H2|]]. rewrite H3. f_equal.
    rewrite Z.mul_add_distr_r, !aligned_val by lia. reflexivity.
Qed.

Lemma sub_spec (x y : number) :
  isDouble x = true -> isDouble y = true -> isFinite x = true -> isFinite y = true ->
  isDouble (sub x y) = true /\ isNaN (sub x y) = false /\
  val (sub x y) = round (val x - val y).
Proof.
  intros Hx Hy Fx Fy.
  destruct x as [sx|sx| |sx mx ex], y as [sy|sy| |sy my ey]; try discriminate;
    cbn [sub SFsub].
  - split; [now destruct sx, sy|split; [now destruct sx, sy|]].
    replace (val (S754_zero sx) - val (S754_zero sy)) with 0 by reflexivity.
    rewrite round_0. now destruct sx, sy.
  - split; [exact Hy|split; [reflexivity|]].
    change (val (S754_zero sx)) with 0. rewrite Z.sub_0_l, round_opp.
    rewrite round_fix by assumption. cbn [val]. destruct sy; cbn [negb signed]; lia.
  - split; [exact Hx|split; [reflexivity|]].
    change (val (S754_zero sy)) with 0. rewrite Z.sub_0_r. symmetry. now apply round_fix.
  - destruct (valid_finite _ _ _ Hx) as (Hex & _).
    destruct (valid_finite _ _ _ Hy) as (Hey & _).
    assert (HK : 0 <= Z.min ex ey + K) by (unfold K; lia).
    destruct (binary_normalize_spec
                (cond_Zopp sx (Zpos (shl_align mx ex (Z.min ex ey)).1) -
                 cond_Zopp sy (Zpos (shl_align my ey (Z.min ex ey)).1))
                (Z.min ex ey) false HK) as (H1 & H2 & H3).
    split; [exact H1|split; [exact H2|]]. rewrite H3. f_equal.
    rewrite Z.mul_sub_distr_r, !aligned_val by lia. reflexivity.
Qed.

End RoundingSteps.

Section NumberFacts.
Import Number Exact.

Lemma nearest_overflow (v : Z) : top <= v -> nearest v = top.
Proof.
  intros Hv. pose proof top_pos as Ht.
  destruct (expOf_bounds v) as (H0 & _ & H2).
  assert (Hlog : emax + K <= Z.log2 v) by (apply Z.log2_le_pow2; [lia|exact Hv]).
  assert (Hexp : 972 + K <= expOf v) by (unfold expOf, prec, emax in *; lia).
  specialize (H2 ltac:(unfold K in *; lia)).
  assert (HP : 0 < 2 ^ expOf v) by (apply pow2_pos; unfold K in *; lia).
  assert (Hq : 2 ^ 52 <= v / 2 ^ expOf v).
  { apply Z.div_le_lower_bound; [lia|]. rewrite pow2_mul by (unfold K in *; lia). exact H2. }
  pose proof (nearestInt_range (v / 2 ^ expOf v) (v mod 2 ^ expOf v) (2 ^ expOf v)) as Hr.
  assert (top <= 2 ^ 52 * 2 ^ expOf v).
  { rewrite pow2_mul by (unfold K in *; lia). apply pow2_mono; unfold emax, K in *; lia. }
  unfold nearest. apply Z.min_r.
  change (2 ^ 52) with 4503599627370496 in *. nia.
Qed.

Lemma val_one : val (ofZ 1) = 2 ^ K.
Proof.
  change (ofZ 1) with (S754_finite false 4503599627370496 (-52)). cbn [val signed].
  change 4503599627370496 with (2 ^ 52). rewrite pow2_mul by (unfold K; lia).
  f_equal.
Qed.

Lemma val_two : val (ofZ 2) = 2 * 2 ^ K.
Proof.
  change (ofZ 2) with (S754_finite false 4503599627370496 (-51)). cbn [val signed].
  change 4503599627370496 with (2 ^ 52). rewrite pow2_mul by (unfold K; lia).
  replace (52 + (-51 + K)) with (1 + K) by lia.
  rewrite <- pow2_mul by (unfold K; lia). reflexivity.
Qed.

Lemma unit_lt_top : 2 * 2 ^ K < top.
Proof.
  replace (2 * 2 ^ K) with (2 ^ (1 + K))
    by (rewrite <- pow2_mul by (unfold K; lia); reflexivity).
  apply pow2_mono_lt; unfold emax, K; lia.
Qed.

(** [2 ** k] for [k >= 0]. *)
Lemma pow2_spec (k : Z) :
  0 <= k ->
  (k <= 1023 ->
   isDouble (pow2 k) = true /\ isFinite (pow2 k) = true /\ val (pow2 k) = 2 ^ (k + K)) /\
  (1024 <= k -> pow2 k = Infinity).
Proof.
  intros Hk. unfold pow2.
  change (ofZ 1) with (S754_finite false 4503599627370496 (-52)). cbn [SFldexp].
  destruct (binary_round_spec false 4503599627370496 (-52 + k) ltac:(unfold K; lia))
    as (H1 & H2 & H3).
  cbn [signed] in H3.
  assert (Ev : Zpos 4503599627370496 * 2 ^ (-52 + k + K) = 2 ^ (k + K)).
  { change (Zpos 4503599627370496) with (2 ^ 52). rewrite pow2_mul by (unfold K; lia).
    f_equal. lia. }
  rewrite Ev in H3. split.
  - intros Hle.
    assert (Hvalid : isDouble (S754_finite false 4503599627370496 (-52 + k)) = true).
    { cbn [isDouble valid_binary]. unfold bounded, canonical_mantissa.
      change (Z.pos (digits2_pos 4503599627370496)) with 53. rewrite fexp_eq.
      apply andb_true_iff. split; [apply Z.eqb_eq; lia|].
      change (emax - prec) with 971. apply Z.leb_le. lia. }
    pose proof (nearest_fix _ _ _ Hvalid) as Hfix. rewrite Ev in Hfix.
    rewrite Hfix in H3. split; [exact H1|]. split; [|exact H3].
    apply isFinite_val; [exact H1|exact H2|]. rewrite H3.
    pose proof (pow2_pos (k + K) ltac:(unfold K; lia)).
    pose proof top_pos. split; [lia|]. apply pow2_mono_lt; unfold emax, K; lia.
  - intros Hge. rewrite nearest_overflow in H3
      by (apply pow2_mono; unfold emax, K; lia).
    pose proof top_pos.
    destruct (binary_round prec emax false 4503599627370496 (-52 + k))
      as [s|s| |s m e]; cbn [val] in H3; [lia| |discriminate|].
    + destruct s; [cbn [signed] in H3; lia|reflexivity].
    + pose proof (val_finite_bound _ _ _ H1). destruct s; cbn [signed] in H3; lia.
Qed.

Lemma Math_min_spec (x y : number) :
  isDouble x = true -> isDouble y = true -> isNaN x = false -> isNaN y = false ->
  isDouble (Math_min x y) = true /\ isNaN (Math_min x y) = false /\
  val (Math_min x y) = Z.min (val x) (val y).
Proof.
  intros Hx Hy Nx Ny. unfold Math_min. rewrite compare_spec by assumption.
  destruct (Z.compare_spec (val x) (val y)) as [E|L|G].
  - destruct x as [[|]| | |]; (split; [assumption|split; [assumption|lia]]).
  - split; [assumption|split; [assumption|lia]].
  - split; [assumption|split; [assumption|lia]].
Qed.

Lemma Math_max_spec (x y : number) :
  isDouble x = true -> isDouble y = true -> isNaN x = false -> isNaN y = false ->
  isDouble (Math_max x y) = true /\ isNaN (Math_max x y) = false /\
  val (Math_max x y) = Z.max (val x) (val y).
Proof.
  intros Hx Hy Nx Ny. unfold Math_max. rewrite compare_spec by assumption.
  destruct (Z.compare_spec (val x) (val y)) as [E|L|G].
  - destruct x as [[|]| | |]; (split; [assumption|split; [assumption|lia]]).
  - split; [assumption|split; [assumption|lia]].
  - split; [assumption|split; [assumption|lia]].
Qed.

Lemma isFinite_not_NaN (x : number) : isFinite x = true -> isNaN x = false.
Proof. now destruct x. Qed.

Lemma isAmount_spec (x : number) :
  isAmount x = true ->
  isDouble x = true /\ isFinite x = true /\ 0 <= val x < top.
Proof.
  unfold isAmount. intros H. apply andb_true_iff in H as [H Hle].
  apply andb_true_iff in H as [Hd Hf].
  split; [exact Hd|split; [exact Hf|]].
  apply leq_spec in Hle; try reflexivity; try assumption; [|now apply isFinite_not_NaN].
  pose proof (val_finite x Hd Hf). change (val zero) with 0 in Hle. lia.
Qed.

Lemma isUnit_spec (x : number) :
  isUnit x = true ->
  isDouble x = true /\ isFinite x = true /\ 0 <= val x < 2 ^ K.
Proof.
  unfold isUnit. intros H. apply andb_true_iff in H as [H Hlt].
  apply andb_true_iff in H as [Hd Hle].
  destruct (leq_not_NaN _ _ Hle) as [_ Hn].
  apply leq_spec in Hle; try reflexivity; try assumption.
  apply less_spec in Hlt; try reflexivity; try assumption.
  rewrite val_one in Hlt. change (val zero) with 0 in Hle.
  split; [exact Hd|]. split; [|lia].
  apply isFinite_val; try assumption. pose proof unit_lt_top. pose proof top_pos. lia.
Qed.

Lemma isAmount_intro (x : number) :
  isDouble x = true -> isFinite x = true -> 0 <= val x -> isAmount x = true.
Proof.
  intros Hd Hf Hv. unfold isAmount. rewrite Hd, Hf. cbn [andb].
  apply leq_spec; try reflexivity; try assumption. now apply isFinite_not_NaN.
Qed.

Lemma mul_NaN_r (x : number) : mul x NaN = NaN.
Proof. now destruct x. Qed.

Lemma add_NaN_r (x : number) : add x NaN = NaN.
Proof. now destruct x. Qed.

Lemma Math_min_NaN_r (x : number) : Math_min x NaN = NaN.
Proof. now destruct x. Qed.

Lemma Math_max_NaN_r (x : number) : Math_max x NaN = NaN.
Proof. now destruct x. Qed.

Lemma val_neg (x : number) : val (neg x) = - val x.
Proof. destruct x as [s|s| |s m e]; cbn [neg SFopp val]; try lia; destruct s; cbn [negb signed]; lia. Qed.

Lemma isDouble_neg (x : number) : isDouble (neg x) = isDouble x.
Proof. now destruct x. Qed.

Lemma isNaN_neg (x : number) : isNaN (neg x) = isNaN x.
Proof. now destruct x. Qed.

Lemma zero_of_val (x : number) :
  isDouble x = true -> isFinite x = true -> val x = 0 -> exists s, x = S754_zero s.
Proof.
  intros Hd Hf Hv. destruct x as [s|s| |s m e]; try discriminate; [now exists s|].
  pose proof (val_finite_bound _ _ _ Hd). cbn [val] in Hv. destruct s; cbn [signed] in Hv; lia.
Qed.

Lemma positive_of_val (x : number) :
  isDouble x = true -> isFinite x = true -> 0 < val x -> exists m e, x = S754_finite false m e.
Proof.
  intros Hd Hf Hv. destruct x as [s|s| |s m e]; try discriminate; cbn [val] in Hv.
  pose proof (val_finite_bound _ _ _ Hd). destruct s; cbn [signed] in Hv; [lia|].
  now exists m, e.
Qed.

(** The first step of [computeDelay]: [Math.min(max, base * 2 ** (n - 1))]
    is [NaN] when [base] is zero and the power overflows, and otherwise a
    finite number between 0 and [max]. *)
Lemma backoff_exp (base mx : number) (n : Z) :
  isAmount base = true -> isAmount mx = true -> 1 <= n ->
  let exp := Math_min mx (mul base (pow2 (n - 1))) in
  (val base = 0 /\ 1025 <= n -> exp = NaN) /\
  (~ (val base = 0 /\ 1025 <= n) ->
   isDouble exp = true /\ isFinite exp = true /\ 0 <= val exp <= val mx).
Proof.
  intros Hb Hm Hn exp.
  destruct (isAmount_spec _ Hb) as (Db & Fb & Vb).
  destruct (isAmount_spec _ Hm) as (Dm & Fm & Vm).
  destruct (pow2_spec (n - 1) ltac:(lia)) as [Hsmall Hbig].
  assert (Hstep : forall e0, isDouble e0 = true -> isNaN e0 = false -> 0 <= val e0 ->
            exp = Math_min mx e0 ->
            isDouble exp = true /\ isFinite exp = true /\ 0 <= val exp <= val mx).
  { intros e0 D0 N0 V0 ->.
    destruct (Math_min_spec mx e0 Dm D0 (isFinite_not_NaN _ Fm) N0) as (H1 & H2 & H3).
    split; [exact H1|]. split; [|lia].
    apply isFinite_val; [exact H1|exact H2|lia]. }
  split.
  - intros [Hz Hge]. destruct (zero_of_val base Db Fb Hz) as [s ->].
    unfold exp. rewrite Hbig by lia. cbn [mul SFmul Infinity]. apply Math_min_NaN_r.
  - intros Hnot. destruct (Z_le_gt_dec (n - 1) 1023) as [Hle|Hgt].
    + destruct (Hsmall Hle) as (Dp & Fp & Vp).
      destruct (mul_spec base (pow2 (n - 1)) Db Dp Fb Fp) as (H1 & H2 & H3).
      apply (Hstep (mul base (pow2 (n - 1)))); [exact H1|exact H2| |reflexivity].
      rewrite H3, <- round_0. apply round_mono.
      apply Z.div_pos; [|apply pow2_pos; unfold K; lia].
      pose proof (pow2_pos (n - 1 + K) ltac:(unfold K; lia)). nia.
    + assert (Hpos : 0 < val base) by lia.
      destruct (positive_of_val base Db Fb Hpos) as (m & e & ->).
      apply (Hstep Infinity); [reflexivity|reflexivity|cbn [val Infinity signed];
        pose proof top_pos; lia|].
      unfold exp. rewrite Hbig by lia. reflexivity.
Qed.

Lemma div_unit_bounds (a b U : Z) :
  0 < U -> 0 <= b -> - U <= a <= U -> - b <= a * b / U <= b.
Proof.
  intros HU Hb Ha. split.
  - apply Z.div_le_lower_bound; [lia|]. nia.
  - apply Z.div_le_upper_bound; [lia|]. nia.
Qed.

(** The random factor [Math.random() * 2 - 1] lies between -1 and 1. *)
Lemma random_factor (rnd : number) :
  isUnit rnd = true ->
  let factor := sub (mul rnd (ofZ 2)) (ofZ 1) in
  isDouble factor = true /\ isFinite factor = true /\ - 2 ^ K <= val factor <= 2 ^ K.
Proof.
  intros Hr factor. destruct (isUnit_spec _ Hr) as (Dr & Fr & Vr).
  assert (HU : 0 < 2 ^ K) by (apply pow2_pos; unfold K; lia).
  pose proof unit_lt_top as Htop. pose proof top_pos as Ht.
  destruct (mul_spec rnd (ofZ 2) Dr eq_refl Fr eq_refl) as (D1 & N1 & V1).
  rewrite val_two in V1.
  replace (val rnd * (2 * 2 ^ K) / 2 ^ K) with (2 * val rnd) in V1
    by (replace (val rnd * (2 * 2 ^ K)) with (2 * val rnd * 2 ^ K) by lia;
        now rewrite Z.div_mul by lia).
  assert (Efix2 : round (2 * 2 ^ K) = 2 * 2 ^ K)
    by (rewrite <- val_two; now apply round_fix).
  assert (Efix1 : round (2 ^ K) = 2 ^ K)
    by (rewrite <- val_one; now apply round_fix).
  assert (B1 : 0 <= val (mul rnd (ofZ 2)) <= 2 * 2 ^ K).
  { rewrite V1. split.
    - rewrite <- round_0. apply round_mono. lia.
    - rewrite <- Efix2. apply round_mono. lia. }
  assert (F1 : isFinite (mul rnd (ofZ 2)) = true)
    by (apply isFinite_val; [exact D1|exact N1|lia]).
  destruct (sub_spec (mul rnd (ofZ 2)) (ofZ 1) D1 eq_refl F1 eq_refl) as (D2 & N2 & V2).
  rewrite val_one in V2.
  assert (B2 : - 2 ^ K <= val factor <= 2 ^ K).
  { unfold factor. rewrite V2. split.
    - rewrite <- Efix1 at 1. rewrite <- round_opp. apply round_mono. lia.
    - rewrite <- Efix1 at 2. apply round_mono. lia. }
  split; [exact D2|]. split; [|exact B2].
  apply isFinite_val; [exact D2|exact N2|lia].
Qed.

(** The rest of [computeDelay], from a finite [exp] between 0 and [max]. *)
Lemma backoff_values (exp mx jit rnd : number) :
  isDouble exp = true -> isFinite exp = true -> 0 <= val exp <= val mx ->
  isAmount mx = true -> isAmount jit = true -> isFinite (mul mx jit) = true ->
  isUnit rnd = true ->
  let jA := mul exp jit in
  let off := mul (sub (mul rnd (ofZ 2)) (ofZ 1)) jA in
  let d := Math_max zero (add exp off) in
  (isDouble jA = true /\ isFinite jA = true /\ 0 <= val jA <= val (mul mx jit) /\
   (val jit = 0 -> val jA = 0)) /\
  (isDouble off = true /\ isFinite off = true /\ - val jA <= val off <= val jA) /\
  (isDouble d = true /\ isNaN d = false /\ val d = Z.max 0 (round (val exp + val off))).
Proof.
  intros De Fe Ve Hm Hj Fmj Hr jA off d.
  destruct (isAmount_spec _ Hm) as (Dm & Fm & Vm).
  destruct (isAmount_spec _ Hj) as (Dj & Fj & Vj).
  assert (HU : 0 < 2 ^ K) by (apply pow2_pos; unfold K; lia).
  pose proof top_pos as Ht.
  destruct (mul_spec exp jit De Dj Fe Fj) as (D1 & N1 & V1).
  destruct (mul_spec mx jit Dm Dj Fm Fj) as (D2 & N2 & V2).
  pose proof (val_finite _ D2 Fmj) as B2.
  assert (BjA : 0 <= val jA <= val (mul mx jit)).
  { unfold jA. rewrite V1, V2. split.
    - rewrite <- round_0. apply round_mono. apply Z.div_pos; [nia|lia].
    - apply round_mono. apply Z.div_le_mono; [lia|nia]. }
  assert (FjA : isFinite jA = true) by (apply isFinite_val; [exact D1|exact N1|lia]).
  assert (ZjA : val jit = 0 -> val jA = 0).
  { intros Hz. unfold jA. rewrite V1, Hz, Z.mul_0_r, Z.div_0_l by lia. apply round_0. }
  destruct (random_factor rnd Hr) as (Df & Ff & Vf).
  destruct (mul_spec (sub (mul rnd (ofZ 2)) (ofZ 1)) jA Df D1 Ff FjA) as (D3 & N3 & V3).
  assert (Boff : - val jA <= val off <= val jA).
  { unfold off. rewrite V3.
    pose proof (div_unit_bounds (val (sub (mul rnd (ofZ 2)) (ofZ 1))) (val jA) (2 ^ K)
                  HU ltac:(lia) Vf) as Hd.
    pose proof (round_fix jA D1 FjA) as Efix.
    split.
    - rewrite <- Efix at 1. rewrite <- round_opp. apply round_mono. lia.
    - rewrite <- Efix at 2. apply round_mono. lia. }
  assert (Foff : isFinite off = true) by (apply isFinite_val; [exact D3|exact N3|lia]).
  destruct (add_spec exp off De D3 Fe Foff) as (D4 & N4 & V4).
  destruct (Math_max_spec zero (add exp off) eq_refl D4 eq_refl N4) as (D5 & N5 & V5).
  split; [|split].
  - split; [exact D1|]. split; [exact FjA|]. split; [exact BjA|exact ZjA].
  - split; [exact D3|]. split; [exact Foff|exact Boff].
  - split; [exact D5|]. split; [exact N5|]. unfold d. rewrite V5, V4. reflexivity.
Qed.

End NumberFacts.

Section DelayFacts.
Import Number Exact Retry.

(** What [computeDelay] returns for amounts that are finite and not
    negative and a random number in [0, 1): [NaN] when the base is zero
    and the power of two overflows, and otherwise a number within the
    rounded bounds. *)
Lemma computeDelay_range (base cap jit rnd : number) (n : Z) :
  isAmount base = true -> isAmount cap = true -> isAmount jit = true ->
  isFinite (mul cap jit) = true -> isUnit rnd = true -> 1 <= n ->
  let exp := Math_min cap (mul base (pow2 (n - 1))) in
  let jitterAmount := mul exp jit in
  let offset := mul (sub (mul rnd (ofZ 2)) (ofZ 1)) jitterAmount in
  let ms := computeDelay base cap jit n rnd in
  ms = Math_max zero (add exp offset) /\
  (equal base zero = true /\ 1025 <= n -> ms = NaN) /\
  (~ (equal base zero = true /\ 1025 <= n) ->
   isAmount exp = true /\ leq exp cap = true /\
   leq (neg jitterAmount) offset = true /\ leq offset jitterAmount = true /\
   leq (Math_max zero (sub exp jitterAmount)) ms = true /\
   leq ms (add exp jitterAmount) = true /\
   isNaN ms = false /\ leq zero ms = true /\
   leq ms (add cap (mul cap jit)) = true /\
   (equal jit zero = true -> equal ms exp = true)).
Proof.
  intros Hb Hc Hj Fcj Hr Hn exp jitterAmount offset ms.
  destruct (isAmount_spec _ Hb) as (Db & Fb & Vb).
  destruct (isAmount_spec _ Hc) as (Dc & Fc & Vc).
  destruct (isAmount_spec _ Hj) as (Dj & Fj & Vj).
  assert (Ebase : equal base zero = true <-> val base = 0).
  { rewrite equal_spec; try reflexivity; try assumption.
    now apply isFinite_not_NaN. }
  destruct (backoff_exp base cap n Hb Hc Hn) as [Hnan Hnum]. fold exp in Hnan, Hnum.
  split; [reflexivity|]. split.
  - intros [Hz Hge]. apply Ebase in Hz.
    unfold ms, computeDelay. fold exp. rewrite (Hnan (conj Hz Hge)).
    change (mul NaN jit) with NaN. now rewrite mul_NaN_r, add_NaN_r, Math_max_NaN_r.
  - intros Hnot.
    destruct Hnum as (De & Fe & Ve); [rewrite <- Ebase; exact Hnot|].
    destruct (backoff_values exp cap jit rnd De Fe Ve Hc Hj Fcj Hr)
      as ((DjA & FjA & VjA & ZjA) & (Do & Fo & Vo) & (Dm & Nm & Vm)).
    fold jitterAmount in DjA, FjA, VjA, ZjA, Do, Fo, Vo, Dm, Nm, Vm.
    fold offset in Do, Fo, Vo, Dm, Nm, Vm.
    change (Math_max zero (add exp offset)) with ms in Dm, Nm, Vm.
    pose proof (isFinite_not_NaN _ Fe) as Ne.
    pose proof (isFinite_not_NaN _ FjA) as NjA.
    pose proof (isFinite_not_NaN _ Fo) as No.
    pose proof (isFinite_not_NaN _ Fc) as Nc.
    destruct (sub_spec exp jitterAmount De DjA Fe FjA) as (Ds & Ns & Vs).
    destruct (add_spec exp jitterAmount De DjA Fe FjA) as (Da & Na & Va).
    destruct (Math_max_spec zero (sub exp jitterAmount) eq_refl Ds eq_refl Ns)
      as (Dl & Nl & Vl).
    destruct (mul_spec cap jit Dc Dj Fc Fj) as (Dcj & Ncj & _).
    destruct (add_spec cap (mul cap jit) Dc Dcj Fc Fcj) as (Dt & Nt & Vt).
    change (val zero) with 0 in *.
    assert (Hlow : round (val exp - val jitterAmount) <= round (val exp + val offset))
      by (apply round_mono; lia).
    assert (Hhigh : round (val exp + val offset) <= round (val exp + val jitterAmount))
      by (apply round_mono; lia).
    assert (Hpos : 0 <= round (val exp + val jitterAmount))
      by (rewrite <- round_0; apply round_mono; lia).
    assert (Hcap : round (val exp + val jitterAmount) <= round (val cap + val (mul cap jit)))
      by (apply round_mono; lia).
    split; [apply isAmount_intro; [exact De|exact Fe|lia]|].
    split; [apply leq_spec; try assumption; lia|].
    split; [apply leq_spec; rewrite ?isDouble_neg, ?isNaN_neg, ?val_neg;
            try assumption; lia|].
    split; [apply leq_spec; try assumption; lia|].
    split; [apply leq_spec; try assumption; lia|].
    split; [apply leq_spec; try assumption; lia|].
    split; [exact Nm|].
    split; [apply leq_spec; try assumption; try reflexivity; change (val zero) with 0; lia|].
    split; [apply leq_spec; try assumption; lia|].
    intros Hz. apply equal_spec in Hz; try assumption; try reflexivity;
      [|now apply isFinite_not_NaN].
    change (val zero) with 0 in Hz. specialize (ZjA Hz).
    apply equal_spec; try assumption.
    assert (val offset = 0) by lia.
    rewrite Vm. replace (val exp + val offset) with (val exp) by lia.
    rewrite (round_fix exp De Fe). lia.
Qed.

End DelayFacts.

(** C4: [withRetry] invokes the operation at most [attempts] times, the
    configured number or 3 when none is configured; a failure on the final
    attempt, or one for which [shouldRetry] returns false, is the last
    event of the run (no delay, no further invocation) and is the error
    thrown; when [shouldRetry] returns false after attempt 1 exactly one
    call is made; with [attempts] 0 (or less) nothing is invoked and the
    generic retry error is thrown; and an operation that fails twice and
    then succeeds, under [attempts] 3 and an always-true [shouldRetry],
    returns the success after 3 calls. *)
Theorem withRetry_attempts {S T : Type} (rt : Retry.Runtime S) (fn : Async S T)
    (options : Retry.RetryOptions) (s s' : S) (events : list Retry.RetryEvent)
    (out : Thrown + T) :
  Retry.withRetryTraced rt fn options s = (s', events, out) ->
  Z.of_nat (Retry.invocations events) <= Z.max 0 (default 3 (Retry.attempts options)) /\
  (forall (i : nat) j e,
     events !! i = Some (Retry.Invoked j (Some e)) ->
     default 3 (Retry.attempts options) <= j \/
     (exists p, Retry.shouldRetry options = Some p /\ p e j = false) ->
     events !! Datatypes.S i = None /\ out = inl e) /\
  (forall p e s1,
     Retry.shouldRetry options = Some p -> 1 <= default 3 (Retry.attempts options) ->
     fn s = (s1, inl e) -> p e 1 = false ->
     events = [Retry.Invoked 1 (Some e)] /\ out = inl e /\ s' = s1) /\
  (default 3 (Retry.attempts options) <= 0 ->
     events = [] /\ s' = s /\
     out = inl (AppError "COMMAND_FAILED" "retry failed" None)) /\
  (forall (e1 e2 : Thrown) (v dflt : T) rest rnd p base max jit,
     (forall e k, p e k = true) ->
     exists d1 d2,
       Retry.withRetryTraced (Retry.scriptedRuntime rnd) (Retry.scripted dflt)
         {| Retry.attempts := Some 3; Retry.baseDelayMs := base;
            Retry.maxDelayMs := max; Retry.jitter := jit;
            Retry.shouldRetry := Some p |}
         (inl e1 :: inl e2 :: inr v :: rest) =
       (rest,
        [Retry.Invoked 1 (Some e1); Retry.Slept d1; Retry.Invoked 2 (Some e2);
         Retry.Slept d2; Retry.Invoked 3 None],
        inr v)).
Proof.
  intros Hrun.
  change (default 3 (Retry.attempts options)) with (Retry.attemptsOf options).
  split; [|split; [|split; [|split]]].
  - pose proof (retryLoop_invocations rt fn options _ _ _ _ _ _ _ Hrun) as H.
    now replace (Retry.attemptsOf options - 1 + 1) with (Retry.attemptsOf options) in H by lia.
  - intros i j e Hi Hstop.
    apply (retryLoop_stops rt fn options _ _ _ _ _ _ _ Hrun i j e Hi).
    destruct Hstop as [Hlast|(p & Hp & Hfalse)]; [now left|right].
    unfold Retry.vetoed. now rewrite Hp, Hfalse.
  - intros p e s1 Hp Hatt Hfn Hfalse. unfold Retry.withRetryTraced in Hrun.
    destruct (Z.to_nat (Retry.attemptsOf options)) as [|fuel] eqn:Ef; [lia|].
    simpl in Hrun. rewrite Hfn in Hrun.
    destruct (Z.leb_spec 1 (Retry.attemptsOf options)); [|lia].
    assert (Hv : Retry.vetoed options e 1 = true)
      by (unfold Retry.vetoed; now rewrite Hp, Hfalse).
    rewrite Hv in Hrun.
    destruct (Retry.attemptsOf options <=? 1); now injection Hrun as <- <- <-.
  - intros H0. unfold Retry.withRetryTraced in Hrun.
    replace (Z.to_nat (Retry.attemptsOf options)) with O in Hrun by lia.
    simpl in Hrun. now injection Hrun as <- <- <-.
  - intros e1 e2 v dflt rest rnd p base max jit Hp.
    eexists _, _. unfold Retry.withRetryTraced, Retry.attemptsOf. simpl.
    unfold Retry.vetoed. simpl. rewrite !Hp. simpl. reflexivity.
Qed.

(** C6, as the code has it: the executor computes in IEEE doubles. Every
    delay it sleeps follows a failed attempt [n >= 1] that leads to another
    attempt, and is [Math.max(0, exp + offset)] with
    [exp = Math.min(maxDelayMs, baseDelayMs * 2 ** (n - 1))] and
    [offset = (Math.random() * 2 - 1) * (exp * jitter)], each operation
    rounded. For a base delay, a cap and a jitter that are finite and not
    negative, with [maxDelayMs * jitter] finite, and [Math.random()] in
    [0, 1): the delay is [NaN] when the base delay is zero and [n >= 1025];
    otherwise [exp] is finite with [0 <= exp <= maxDelayMs], the offset
    lies within plus or minus [exp * jitter], and the delay is not negative
    and lies between [Math.max(0, exp - exp * jitter)] and
    [exp + exp * jitter] as the program computes them. *)
Theorem backoff_delay_bounds {S T : Type} (rt : Retry.Runtime S) (fn : Async S T)
    (options : Retry.RetryOptions) (s s' : S) (events : list Retry.RetryEvent)
    (out : Thrown + T) :
  Retry.withRetryTraced rt fn options s = (s', events, out) ->
  Number.isAmount (default (Number.ofZ 200) (Retry.baseDelayMs options)) = true ->
  Number.isAmount (default (Number.ofZ 2000) (Retry.maxDelayMs options)) = true ->
  Number.isAmount (default (Number.fraction 2 10) (Retry.jitter options)) = true ->
  Number.isFinite
    (Number.mul (default (Number.ofZ 2000) (Retry.maxDelayMs options))
       (default (Number.fraction 2 10) (Retry.jitter options))) = true ->
  (forall st, Number.isUnit (Retry.Math_random rt st).2 = true) ->
  forall (i : nat) ms,
    events !! i = Some (Retry.Slept ms) ->
    exists n e st,
      1 <= n /\ n < default 3 (Retry.attempts options) /\
      events !! pred i = Some (Retry.Invoked n (Some e)) /\
      let base := default (Number.ofZ 200) (Retry.baseDelayMs options) in
      let cap := default (Number.ofZ 2000) (Retry.maxDelayMs options) in
      let jitter := default (Number.fraction 2 10) (Retry.jitter options) in
      let exp := Number.Math_min cap (Number.mul base (Number.pow2 (n - 1))) in
      let jitterAmount := Number.mul exp jitter in
      let offset :=
        Number.mul
          (Number.sub (Number.mul (Retry.Math_random rt st).2 (Number.ofZ 2)) (Number.ofZ 1))
          jitterAmount in
      ms = Number.Math_max Number.zero (Number.add exp offset) /\
      (Number.equal base Number.zero = true /\ 1025 <= n -> ms = Number.NaN) /\
      (~ (Number.equal base Number.zero = true /\ 1025 <= n) ->
       Number.isAmount exp = true /\ Number.leq exp cap = true /\
       Number.leq (Number.neg jitterAmount) offset = true /\
       Number.leq offset jitterAmount = true /\
       Number.leq Number.zero ms = true /\
       Number.leq (Number.Math_max Number.zero (Number.sub exp jitterAmount)) ms = true /\
       Number.leq ms (Number.add exp jitterAmount) = true).
Proof.
  intros Hrun Hb Hm Hj Hfin Hrnd i ms Hi.
  destruct (retryLoop_slept rt fn options _ _ _ _ _ _ _ Hrun i ms Hi)
    as (n & e & s1 & Hn1 & Hn2 & Hprev & _ & Hms).
  exists n, e, s1.
  change (Retry.attemptsOf options) with (default 3 (Retry.attempts options)) in Hn2.
  change (Retry.baseDelayOf options)
    with (default (Number.ofZ 200) (Retry.baseDelayMs options)) in Hms.
  change (Retry.maxDelayOf options)
    with (default (Number.ofZ 2000) (Retry.maxDelayMs options)) in Hms.
  change (Retry.jitterOf options)
    with (default (Number.fraction 2 10) (Retry.jitter options)) in Hms.
  split; [exact Hn1|]. split; [exact Hn2|]. split; [exact Hprev|].
  destruct (computeDelay_range _ _ _ _ n Hb Hm Hj Hfin (Hrnd s1) Hn1)
    as (E & Hnan & Hnum).
  cbv zeta. rewrite <- Hms in E, Hnan, Hnum.
  split; [exact E|]. split; [exact Hnan|].
  intros Hnot. destruct (Hnum Hnot) as (H1 & H2 & H3 & H4 & H5 & H6 & _ & H7 & _).
  repeat split; assumption.
Qed.

(** C6 as stated fails. With a base delay of zero the product
    [0 * 2 ** 1025] is [NaN] and so is the delay after attempt 1026,
    whatever [Math.random()] returns: a delay in no interval. And away from
    [NaN], with a base of 200 ms, a cap of 2000 ms, a jitter of 0.15 and
    [Math.random()] returning the largest number below 1, the delay after
    attempt 1 is 230 ms, above [200 * (1 + 0.15)] both as the program
    computes it (229.99999999999997) and in exact arithmetic (the jitter
    being the double nearest to 0.15, which is below 0.15). *)
Lemma backoff_delay_not_as_stated :
  (forall rnd,
     Retry.computeDelay (Number.ofZ 0) (Number.ofZ 2000) (Number.fraction 2 10) 1026 rnd =
     Number.NaN /\
     forall exp jitter, Stated.inInterval exp jitter Number.NaN = false) /\
  (Number.isUnit Cases.almostOne = true /\
   Number.Math_min (Number.ofZ 2000) (Number.mul (Number.ofZ 200) (Number.pow2 (1 - 1))) =
   Number.ofZ 200 /\
   Retry.computeDelay (Number.ofZ 200) (Number.ofZ 2000) (Number.fraction 15 100) 1
     Cases.almostOne = Number.ofZ 230 /\
   Stated.inInterval (Number.ofZ 200) (Number.fraction 15 100) (Number.ofZ 230) = false /\
   ~ Stated.inExactInterval (Number.ofZ 200) (Number.fraction 15 100) (Number.ofZ 230)).
Proof.
  split.
  - intros rnd. split.
    + unfold Retry.computeDelay.
      change (Number.Math_min (Number.ofZ 2000)
                (Number.mul (Number.ofZ 0) (Number.pow2 (1026 - 1)))) with Number.NaN.
      change (Number.mul Number.NaN (Number.fraction 2 10)) with Number.NaN.
      now rewrite mul_NaN_r, add_NaN_r, Math_max_NaN_r.
    + intros exp jitter. unfold Stated.inInterval.
      assert (H : forall x, Number.leq x Number.NaN = false) by (now intros [ | | | ]).
      rewrite H. apply andb_false_r.
  - split; [reflexivity|]. split; [reflexivity|]. split; [reflexivity|].
    split; [reflexivity|].
    intros [_ H]. vm_compute in H. apply H. reflexivity.
Qed.

(** ** Frame normaliser *)


Section NormalizerFacts.
Import Ax.

Lemma walk_unfold (rootFrame : option AXFrame) (node : AXNode) (depth : Z)
    (acc : list AXFrame * list FlatNode) :
  walk rootFrame node depth acc =
  fold_left (fun acc child => walk rootFrame child (depth + 1) acc)
    (childrenOf node) (Stated.pushed rootFrame node depth acc).
Proof.
  destruct node as [r sr l v i f cs], acc as [samples nodes].
  unfold Stated.pushed. simpl.
  match goal with |- _ cs ?acc = _ => generalize acc end.
  induction cs as [|c cs IH]; intros acc; simpl; [reflexivity | apply IH].
Qed.

Lemma preorder_unfold (node : AXNode) (depth : Z) :
  Stated.preorder node depth =
  (node, depth) :: concat (map (fun child => Stated.preorder child (depth + 1))
                             (childrenOf node)).
Proof.
  destruct node as [r sr l v i f cs]. simpl. f_equal.
  induction cs as [|c cs IH]; simpl; [reflexivity | now rewrite IH].
Qed.

(** [walk] pushes the frames and the nodes of the tree in pre-order. *)
Lemma walk_preorder (rootFrame : option AXFrame) (node : AXNode) :
  forall depth samples nodes,
    walk rootFrame node depth (samples, nodes) =
    (samples ++ omap Stated.frameAt (Stated.preorder node depth),
     nodes ++ map (Stated.flatAt rootFrame) (Stated.preorder node depth)).
Proof.
  induction node as [r sr l v i f cs IH] using AXNode_induction.
  intros depth samples nodes.
  rewrite walk_unfold, preorder_unfold.
  assert (Hkids : forall d acc,
            fold_left (fun acc child => walk rootFrame child d acc) cs acc =
            (acc.1 ++ omap Stated.frameAt
                        (concat (map (fun child => Stated.preorder child d) cs)),
             acc.2 ++ map (Stated.flatAt rootFrame)
                        (concat (map (fun child => Stated.preorder child d) cs)))).
  { intros d. induction IH as [|c rest Hc _ IHrest]; intros [samples1 nodes1]; simpl.
    - now rewrite !app_nil_r.
    - rewrite Hc, IHrest. simpl. rewrite omap_app, map_app, !app_assoc. reflexivity. }
  change (childrenOf (mkAXNode r sr l v i f cs)) with cs.
  rewrite Hkids. unfold Stated.pushed. simpl.
  unfold Stated.frameAt at 2. simpl.
  destruct f; simpl; rewrite <- ?app_assoc; reflexivity.
Qed.

Lemma atMost_step (v limit : Z) (bound : Bound) :
  atMost (if below v bound then Finite v else bound) limit =
  atMost bound limit || (v <=? limit).
Proof.
  destruct bound as [|b]; simpl; [reflexivity|].
  destruct (Z.ltb_spec v b); simpl;
    destruct (Z.leb_spec b limit), (Z.leb_spec v limit); simpl; try reflexivity; lia.
Qed.

(** The running minima are at most [limit] when the starting bound or a
    frame is. *)
Lemma minima_atMost (limit : Z) (frames : list AXFrame) :
  forall minX minY,
    atMost (minima frames minX minY).1 limit =
      atMost minX limit || existsb (fun f => x f <=? limit) frames /\
    atMost (minima frames minX minY).2 limit =
      atMost minY limit || existsb (fun f => y f <=? limit) frames.
Proof.
  induction frames as [|f rest IH]; intros minX minY; simpl.
  - now rewrite !orb_false_r.
  - destruct (IH (if below (x f) minX then Finite (x f) else minX)
                 (if below (y f) minY then Finite (y f) else minY)) as [-> ->].
    rewrite !atMost_step, !orb_assoc. split; reflexivity.
Qed.

(** [nearZero]: the smallest x and the smallest y are both at most 5. *)
Lemma nearZero_iff (frames : list AXFrame) :
  nearZero frames = true <->
  (exists f, In f frames /\ x f <= 5) /\ (exists f, In f frames /\ y f <= 5).
Proof.
  unfold nearZero.
  destruct (minima frames Infinity Infinity) as [minX minY] eqn:E.
  destruct (minima_atMost 5 frames Infinity Infinity) as [HX HY].
  rewrite E in HX, HY. simpl in HX, HY. rewrite HX, HY, andb_true_iff, !existsb_exists.
  split; intros [[f [Hf Hx]] [g [Hg Hy]]]; (split; [exists f | exists g]); split;
    try assumption; lia.
Qed.

End NormalizerFacts.

Section NormalizerClaims.
Import Ax.

Lemma addOrigin_flatAt (origin : AXFrame) (nd : AXNode * Z) :
  addOrigin origin (Stated.flatAt (Some origin) nd) =
  flatOf nd.1 (Stated.placed origin true <$> frameOf nd.1) nd.2.
Proof.
  destruct nd as [[r sr l v i f cs] d]. unfold Stated.flatAt, addOrigin. simpl.
  destruct f; reflexivity.
Qed.

Lemma kept_flatAt (origin : AXFrame) (nd : AXNode * Z) :
  Stated.flatAt (Some origin) nd =
  flatOf nd.1 (Stated.placed origin false <$> frameOf nd.1) nd.2.
Proof.
  destruct nd as [[r sr l v i f cs] d]. unfold Stated.flatAt. simpl.
  destruct f; reflexivity.
Qed.

(** C1, as the code has it: for a tree with a known root frame and at
    least one sampled frame, every node's rect has the origin's (x, y)
    subtracted; when the smallest x and the smallest y over the sampled
    frames are both at most 5 the origin's (x, y) is added back to every
    rect, otherwise the subtracted coordinates are kept; widths and heights
    are unchanged, and the nodes come out in pre-order with their depth and
    their position as index. *)
Theorem normalizedNodes_placement (tree : AXNode) (originFrame : option AXFrame)
    (origin : AXFrame) :
  rootFrameOf tree originFrame = Some origin ->
  Stated.sampledFrames tree <> [] ->
  let back := nearZero (Stated.sampledFrames tree) in
  (back = true <->
   (exists f, In f (Stated.sampledFrames tree) /\ x f <= 5) /\
   (exists f, In f (Stated.sampledFrames tree) /\ y f <= 5)) /\
  normalizedNodes tree originFrame =
    map (fun nd => flatOf nd.1 (Stated.placed origin back <$> frameOf nd.1) nd.2)
      (Stated.preorder tree 0) /\
  (forall (i : nat) nd,
     Stated.preorder tree 0 !! i = Some nd ->
     exists raw,
       mappedNodes tree originFrame !! i = Some raw /\
       r_index raw = Z.of_nat i /\ r_depth raw = nd.2 /\
       r_rect raw = Stated.placed origin back <$> frameOf nd.1) /\
  (forall b f,
     width (Stated.placed origin b f) = width f /\
     height (Stated.placed origin b f) = height f /\
     x (Stated.placed origin b f) = (if b then x f - x origin + x origin else x f - x origin) /\
     y (Stated.placed origin b f) = (if b then y f - y origin + y origin else y f - y origin)).
Proof.
  intros Hroot Hsamples back.
  assert (Hnodes : normalizedNodes tree originFrame =
            map (fun nd => flatOf nd.1 (Stated.placed origin back <$> frameOf nd.1) nd.2)
              (Stated.preorder tree 0)).
  { unfold normalizedNodes. rewrite Hroot, walk_preorder. simpl.
    fold (Stated.sampledFrames tree). unfold normalizeFrames.
    destruct (Stated.sampledFrames tree) as [|f0 fs] eqn:E; [contradiction|].
    subst back. destruct (nearZero (f0 :: fs)).
    - rewrite map_map. apply map_ext. intros nd. apply addOrigin_flatAt.
    - apply map_ext. intros nd. apply kept_flatAt. }
  split; [apply nearZero_iff|]. split; [exact Hnodes|]. split.
  - intros i nd Hi. unfold mappedNodes. rewrite Hnodes.
    eexists. rewrite list_lookup_imap, list_lookup_fmap, Hi. simpl.
    split; [reflexivity|]. destruct nd as [[r sr l v j f cs] d]. simpl.
    repeat split. destruct f as [f|]; [|reflexivity]. simpl. f_equal.
    destruct (Stated.placed origin back f). reflexivity.
  - intros [|] f; simpl; repeat split.
Qed.

(** C1 as stated fails in both branches. With the window frame at
    (10, 10) and one button sampled at (100, 100), the minimum is above 5
    before the subtraction (100) and after it (90), yet the capturer keeps
    the subtracted coordinates (90, 90) where the statement has the origin
    added back. With the window frame at (1, 1) and the button sampled at
    (3, 3), the minimum is within 5 before the subtraction (3) and after it
    (2), yet the capturer adds the origin back (3, 3) where the statement
    keeps the subtracted coordinates (2, 2). *)
Lemma normalizedNodes_not_as_stated :
  (rootFrameOf Examples.appRoot (Some Examples.windowFrame) = Some Examples.windowFrame /\
   Stated.sampledFrames Examples.appRoot =
     [{| x := 100; y := 100; width := 50; height := 20 |}] /\
   nearZero (Stated.sampledFrames Examples.appRoot) = false /\
   map f_frame (normalizedNodes Examples.appRoot (Some Examples.windowFrame)) =
     [None; Some {| x := 90; y := 90; width := 50; height := 20 |}] /\
   map f_frame (Stated.normalizedAsStated false Examples.appRoot (Some Examples.windowFrame)) =
     [None; Some {| x := 100; y := 100; width := 50; height := 20 |}] /\
   map f_frame (Stated.normalizedAsStated true Examples.appRoot (Some Examples.windowFrame)) =
     [None; Some {| x := 100; y := 100; width := 50; height := 20 |}] /\
   normalizedNodes Examples.appRoot (Some Examples.windowFrame) <>
     Stated.normalizedAsStated false Examples.appRoot (Some Examples.windowFrame) /\
   normalizedNodes Examples.appRoot (Some Examples.windowFrame) <>
     Stated.normalizedAsStated true Examples.appRoot (Some Examples.windowFrame)) /\
  (rootFrameOf Examples.cornerRoot (Some Examples.cornerFrame) = Some Examples.cornerFrame /\
   nearZero (Stated.sampledFrames Examples.cornerRoot) = true /\
   map f_frame (normalizedNodes Examples.cornerRoot (Some Examples.cornerFrame)) =
     [None; Some {| x := 3; y := 3; width := 50; height := 20 |}] /\
   map f_frame (Stated.normalizedAsStated false Examples.cornerRoot (Some Examples.cornerFrame)) =
     [None; Some {| x := 2; y := 2; width := 50; height := 20 |}] /\
   map f_frame (Stated.normalizedAsStated true Examples.cornerRoot (Some Examples.cornerFrame)) =
     [None; Some {| x := 2; y := 2; width := 50; height := 20 |}] /\
   normalizedNodes Examples.cornerRoot (Some Examples.cornerFrame) <>
     Stated.normalizedAsStated false Examples.cornerRoot (Some Examples.cornerFrame) /\
   normalizedNodes Examples.cornerRoot (Some Examples.cornerFrame) <>
     Stated.normalizedAsStated true Examples.cornerRoot (Some Examples.cornerFrame)).
Proof.
  repeat split; try reflexivity; intros H; vm_compute in H; discriminate H.
Qed.

(** The placement at the concrete tree of the examples. *)
Lemma normalizedNodes_placement_witness :
  map f_frame (normalizedNodes Examples.appRoot (Some Examples.windowFrame)) =
  [None; Some {| x := 90; y := 90; width := 50; height := 20 |}].
Proof.
  destruct (normalizedNodes_placement Examples.appRoot (Some Examples.windowFrame)
              Examples.windowFrame) as (_ & H & _).
  - reflexivity.
  - discriminate.
  - rewrite H. reflexivity.
Defined.

End NormalizerClaims.

(** ** Snapshot capturer *)

Section CaptureFacts.
Import Ax.
Context {W : Type}.
Variable host : Host W.

(** C8: for a device that is not an iOS simulator [snapshotAx] throws
    [UNSUPPORTED_OPERATION] in the state it was called in, so that no
    external process has been spawned; for an iOS simulator the guard
    passes and the capture runs. *)
Theorem snapshotAx_guard (device : DeviceInfo) (options : SnapshotOptions)
    (st : AxState W) :
  (Device.platform device <> "ios" \/ Device.kind device <> "simulator" ->
   snapshotAx host device options st =
     (st, inl (AppError "UNSUPPORTED_OPERATION"
                 "AX snapshot is only supported on iOS simulators" None)) /\
   spawned (snapshotAx host device options st).1 = spawned st) /\
  (Device.platform device = "ios" -> Device.kind device = "simulator" ->
   snapshotAx host device options st = capture host options st).
Proof.
  unfold snapshotAx. split.
  - intros H.
    assert (E : negb (String.eqb (Device.platform device) "ios")
                || negb (String.eqb (Device.kind device) "simulator") = true).
    { destruct (String.eqb_spec (Device.platform device) "ios") as [Hp|Hp],
               (String.eqb_spec (Device.kind device) "simulator") as [Hk|Hk];
        simpl; try reflexivity. destruct H; contradiction. }
    rewrite E. split; reflexivity.
  - intros -> ->. reflexivity.
Qed.

(** Every spawn is recorded. *)
Lemma spawn_recorded (cmd : string) (args : list string) (opts : RunOptions)
    (st : AxState W) :
  spawned (spawn host cmd args opts st).1 = spawned st ++ [(cmd, args)].
Proof. unfold spawn. destruct (runCmd host cmd args opts (world st)). reflexivity. Qed.

Lemma isRetryableAxError_iff (stderrText : string) :
  isRetryableAxError stderrText = true <->
  JsString.includes "could not find ios app content" (JsString.toLowerCase stderrText) = true
  \/ JsString.includes "timeout" (JsString.toLowerCase stderrText) = true.
Proof.
  unfold isRetryableAxError.
  destruct (JsString.includes "could not find ios app content" _);
    destruct (JsString.includes "timeout" _); intuition congruence.
Qed.

(** The flag set on the error is the one the retry predicate reads. *)
Lemma isRetryableError_snapshotFailed (result : CmdResult) :
  isRetryableError (snapshotFailed result) = isRetryableAxError (orEmpty (stderr result)).
Proof.
  unfold snapshotFailed, isRetryableError. simpl.
  destruct (isRetryableAxError (orEmpty (stderr result))); reflexivity.
Qed.

Lemma isRetryableError_invalidJson (text : string) :
  isRetryableError (invalidJson text) = false.
Proof. reflexivity. Qed.

(** An attempt spawns the helper once, and fails with [snapshotFailed]
    exactly when the helper exits with a non-zero code. *)
Lemma attemptOnce_outcome (binary : string) (options : SnapshotOptions) (st : AxState W) :
  spawned (attemptOnce host binary options st).1 = spawned st ++ [(binary, [])] /\
  match runCmd host binary [] {| cwd := None; allowFailure := true |} (world st) with
  | (_, inl e) => (attemptOnce host binary options st).2 = inl e
  | (_, inr result) =>
      (attemptOnce host binary options st).2 =
      if negb (exitCode result =? 0) then inl (snapshotFailed result) else inr result
  end.
Proof.
  unfold attemptOnce, await, spawn.
  destruct (runCmd host binary [] _ (world st)) as [w [e|result]]; simpl.
  - split; reflexivity.
  - destruct (traceLogPath options) as [path|]; [destruct (JsString.isEmpty path)|];
      destruct (negb (exitCode result =? 0)); simpl; split; reflexivity.
Qed.

End CaptureFacts.

Section RetryPolicy.
Import Ax.
Context {W : Type}.
Variable host : Host W.

Lemma vetoed_ax (e : Thrown) (j : Z) :
  Retry.vetoed axRetryOptions e j = negb (isRetryableError e).
Proof. reflexivity. Qed.

(** C9: the error of a failed attempt is [COMMAND_FAILED] with a
    [retryable] flag that is set exactly when the helper's stderr contains
    "could not find ios app content" or "timeout" (case-insensitively), and
    the retry predicate returns that flag; within the three attempts, a
    failed attempt is followed by a delay and another attempt exactly when
    the predicate holds for its error, so a permission failure is not
    retried; an output that does not decode makes the capture throw
    [COMMAND_FAILED] "Invalid AX snapshot JSON", which the predicate rejects,
    in the state the retry loop ended in. *)
Theorem ax_retry_policy (binary : string) (options : SnapshotOptions)
    (st st' : AxState W) (events : list Retry.RetryEvent) (out : Thrown + CmdResult) :
  Retry.withRetryTraced (axRuntime host) (attemptOnce host binary options)
    axRetryOptions st = (st', events, out) ->
  (forall stderrText,
     isRetryableAxError stderrText = true <->
     JsString.includes "could not find ios app content"
       (JsString.toLowerCase stderrText) = true
     \/ JsString.includes "timeout" (JsString.toLowerCase stderrText) = true) /\
  (forall result,
     exists details,
       snapshotFailed result = AppError "COMMAND_FAILED" "AX snapshot failed" (Some details) /\
       d_retryable details = Some (isRetryableAxError (orEmpty (stderr result))) /\
       isRetryableError (snapshotFailed result) =
         isRetryableAxError (orEmpty (stderr result))) /\
  (forall (i : nat) j e,
     events !! i = Some (Retry.Invoked j (Some e)) ->
     (is_Some (events !! Datatypes.S i) <-> j < 3 /\ isRetryableError e = true) /\
     (isRetryableError e = false -> events !! Datatypes.S i = None /\ out = inl e)) /\
  isRetryableAxError Examples.permissionDenied = false /\
  isRetryableAxError Examples.contentMissing = true /\
  (forall result name message,
     out = inr result ->
     JSON_parse host (default "undefined" (stdout result)) = inl (name, message) ->
     let e := AppError "COMMAND_FAILED" "Invalid AX snapshot JSON"
                (Some {| d_stderr := None; d_stdout := None; d_retryable := None;
                         d_error := Some (errorToString name message) |}) in
     isRetryableError e = false /\
     forall st0,
       ensureAxSnapshotBinary host st0 = (st, inr binary) ->
       capture host options st0 = (st', inl e)).
Proof.
  intros Hrun.
  split; [exact isRetryableAxError_iff|].
  split; [|split; [|split; [reflexivity|split; [reflexivity|]]]].
  - intros result. eexists. split; [reflexivity|]. split; [reflexivity|].
    apply isRetryableError_snapshotFailed.
  - intros i j e Hi.
    pose proof (retryLoop_stops _ _ _ _ _ _ _ _ _ _ Hrun i j e Hi) as Hstop.
    rewrite vetoed_ax in Hstop. change (Retry.attemptsOf axRetryOptions) with 3 in Hstop.
    split; [split|].
    + intros Hnext. destruct (Z.lt_ge_cases j 3) as [Hj|Hj].
      * split; [exact Hj|]. destruct (isRetryableError e) eqn:E; [reflexivity|].
        destruct Hstop as [Hnone _]; [now right|]. rewrite Hnone in Hnext.
        now destruct Hnext.
      * destruct Hstop as [Hnone _]; [now left|]. rewrite Hnone in Hnext.
        now destruct Hnext.
    + intros [Hj Hre].
      destruct (retryLoop_continues (axRuntime host) (attemptOnce host binary options)
                  axRetryOptions 3%nat 1 None st st' events out (Nat.le_refl 3) Hrun
                  i j e Hi)
        as (ms & failure & Hs & _); [exact Hj | now rewrite vetoed_ax, Hre |].
      rewrite Hs. now eexists.
    + intros Hre. apply Hstop. right. now rewrite Hre.
  - intros result name message -> Hparse e. split; [reflexivity|].
    intros st0 Hensure. unfold capture, await. rewrite Hensure.
    unfold Retry.withRetry. rewrite Hrun. unfold decodePayload. rewrite Hparse.
    reflexivity.
Qed.

End RetryPolicy.

(** ** Refs *)

Section RefFacts.
Import Snapshot.

Lemma refOfIndex_inj (a b : nat) : refOfIndex a = refOfIndex b -> a = b.
Proof.
  unfold refOfIndex. rewrite !app_cons, !app_nil_l. intros [= H].
  exact (pretty_nat_inj _ _ H).
Qed.

Lemma withRef_ref (node : SnapshotNode) (r : string) : ref (withRef node r) = Some r.
Proof. reflexivity. Qed.

Lemma withRef_twice (node : SnapshotNode) (r r' : string) :
  withRef (withRef node r) r' = withRef node r'.
Proof. reflexivity. Qed.

Lemma attachRefsFrom_length (k : nat) (nodes : list SnapshotNode) :
  length (attachRefsFrom k nodes) = length nodes.
Proof.
  revert k. induction nodes as [|n rest IH]; intros k; simpl; [reflexivity|].
  now rewrite IH.
Qed.

Lemma attachRefsFrom_lookup (nodes : list SnapshotNode) :
  forall (k i : nat),
    attachRefsFrom k nodes !! i =
    (fun node => withRef node (refOfIndex (k + i))) <$> nodes !! i.
Proof.
  induction nodes as [|n rest IH]; intros k i; [now destruct i|].
  destruct i as [|i]; simpl.
  - now rewrite Nat.add_0_r.
  - rewrite IH. now replace (Datatypes.S k + i)%nat with (k + Datatypes.S i)%nat by lia.
Qed.

Lemma attachRefsFrom_idempotent (nodes : list SnapshotNode) :
  forall k, attachRefsFrom k (attachRefsFrom k nodes) = attachRefsFrom k nodes.
Proof.
  induction nodes as [|n rest IH]; intros k; simpl; [reflexivity|].
  now rewrite IH, withRef_twice.
Qed.

Lemma findNodeByRef_cons (node : SnapshotNode) (r q : string) (rest : list SnapshotNode) :
  findNodeByRef (withRef node r :: rest) q =
  if String.eqb r q then Some (withRef node r) else findNodeByRef rest q.
Proof. reflexivity. Qed.

Lemma findNodeByRef_attached (nodes : list SnapshotNode) :
  forall (k i : nat) node,
    attachRefsFrom k nodes !! i = Some node ->
    findNodeByRef (attachRefsFrom k nodes) (refOfIndex (k + i)) = Some node.
Proof.
  induction nodes as [|n rest IH]; intros k i node Hi; [now destruct i|].
  cbn [attachRefsFrom] in *. rewrite findNodeByRef_cons.
  destruct i as [|i].
  - injection Hi as <-. now rewrite Nat.add_0_r, String.eqb_refl.
  - destruct (String.eqb_spec (refOfIndex k) (refOfIndex (k + Datatypes.S i))) as [E|_].
    + apply refOfIndex_inj in E. lia.
    + replace (k + Datatypes.S i)%nat with (Datatypes.S k + i)%nat by lia.
      apply IH. exact Hi.
Qed.

(** C7: [attachRefs] keeps the nodes in order and gives the node at
    position [i] the ref ["e" + i], leaving its other fields alone; applying
    it again changes nothing; [findNodeByRef] with the ref of a node of
    [attachRefs nodes] returns that node; [normalizeRef "@e3"] and
    [normalizeRef "e3"] are both ["e3"] and [normalizeRef ""] is null. *)
Theorem refs_round_trip (nodes : list SnapshotNode) :
  length (attachRefs nodes) = length nodes /\
  (forall (i : nat),
     attachRefs nodes !! i =
     (fun node => withRef node ("e" +:+ pretty i)) <$> nodes !! i) /\
  attachRefs (attachRefs nodes) = attachRefs nodes /\
  (forall (i : nat) node,
     attachRefs nodes !! i = Some node ->
     ref node = Some ("e" +:+ pretty i) /\
     findNodeByRef (attachRefs nodes) ("e" +:+ pretty i) = Some node) /\
  normalizeRef "@e3" = Some "e3" /\
  normalizeRef "e3" = Some "e3" /\
  normalizeRef "" = None.
Proof.
  unfold attachRefs.
  split; [apply attachRefsFrom_length|].
  split; [intros i; apply (attachRefsFrom_lookup nodes O i)|].
  split; [apply attachRefsFrom_idempotent|].
  split; [|repeat split; reflexivity].
  intros i node Hi. split.
  - rewrite (attachRefsFrom_lookup nodes O i) in Hi.
    destruct (nodes !! i); [|discriminate]. simpl in Hi. now injection Hi as <-.
  - exact (findNodeByRef_attached nodes O i node Hi).
Qed.

(** The round trip on three concrete nodes. *)
Lemma refs_round_trip_witness :
  findNodeByRef (attachRefs Examples.settingsNodes) "e2" =
  Some (withRef (Examples.plainNode "XCUIElementTypeButton" "Camera"
           (Some {| rect_x := 0; rect_y := 40; rect_width := 100; rect_height := 20 |}))
          "e2").
Proof.
  destruct (refs_round_trip Examples.settingsNodes) as (_ & _ & _ & H & _).
  apply (H 2%nat). reflexivity.
Defined.

End RefFacts.

(** ** Session daemon *)

Section DaemonFacts.
Import Daemon.
Context {W : Type}.
Variable platformOps : Platform W.
Variable daemonToken : string.
Variable logPath : string.

Local Abbreviation handle := (handleRequest platformOps daemonToken logPath).

Lemma authorised (req : DaemonRequest) :
  token req = daemonToken -> negb (String.eqb (token req) daemonToken) = false.
Proof. intros ->. now rewrite String.eqb_refl. Qed.

Lemma handle_close (req : DaemonRequest) :
  token req = daemonToken -> command req = "close" ->
  handle req = handleClose platformOps logPath req (sessionNameOf req).
Proof.
  intros Ht Hc. unfold handleRequest. rewrite (authorised req Ht), Hc. reflexivity.
Qed.

Lemma handle_snapshot (req : DaemonRequest) :
  token req = daemonToken -> command req = "snapshot" ->
  handle req = handleSnapshot platformOps logPath req (sessionNameOf req).
Proof.
  intros Ht Hc. unfold handleRequest. rewrite (authorised req Ht), Hc. reflexivity.
Qed.

(** The app-close step leaves the session map alone and enters at most the
    dispatched command in the journal. *)
Lemma closeApp_effect (req : DaemonRequest) (sess : SessionState) (st st1 : DaemonState W)
    (r1 : Thrown + unit) :
  closeApp platformOps logPath req sess st = (st1, r1) ->
  sessions st1 = sessions st /\
  journal st1 = journal st ++
    match positionals req with
    | Some (p :: ps) => [Dispatch (device sess) "close" (p :: ps)]
    | _ => []
    end /\
  (forall e, r1 = inl e ->
     exists p ps w,
       positionals req = Some (p :: ps) /\
       dispatchCommand platformOps (device sess) "close" (p :: ps) (flags req ≫= out)
         (contextFromFlags logPath (flags req) (appBundleId sess)) (world st) = (w, inl e)).
Proof.
  unfold closeApp. destruct (positionals req) as [[|p ps]|].
  - intros [= <- <-]. rewrite app_nil_r. repeat split. discriminate.
  - unfold await, dispatch, call.
    destruct (dispatchCommand platformOps _ _ _ _ _ (world st)) as [w [e|d]] eqn:E.
    + intros [= <- <-]. simpl. repeat split. intros e' [= <-]. now exists p, ps, w.
    + intros [= <- <-]. simpl. repeat split. discriminate.
  - intros [= <- <-]. rewrite app_nil_r. repeat split. discriminate.
Qed.

(** Stopping the runner leaves the session map alone too. *)
Lemma stopRunner_effect (sess : SessionState) (st1 st2 : DaemonState W)
    (r2 : Thrown + unit) :
  stopRunner platformOps sess st1 = (st2, r2) ->
  sessions st2 = sessions st1 /\
  journal st2 = journal st1 ++
    (if isIosSimulator (device sess)
     then [RunnerStopped (Device.id (device sess))] else []).
Proof.
  unfold stopRunner. destruct (isIosSimulator (device sess)).
  - unfold call. destruct (stopIosRunnerSession platformOps _ (world st1)) as [w r].
    intros [= <- <-]. split; reflexivity.
  - intros [= <- <-]. rewrite app_nil_r. split; reflexivity.
Qed.

(** C2, as the code has it: on [close] for an existing session the app
    named in the request, if any, is closed first; when that step throws,
    the error is thrown on, nothing else is done and the session entry
    stays; otherwise the runner of an iOS simulator is stopped, and when
    that throws the entry stays as well; when both steps succeed the entry
    is removed after them and the response is ok. *)
Theorem close_removes_entry (req : DaemonRequest) (st : DaemonState W)
    (sess : SessionState) (st1 st2 : DaemonState W) (r1 r2 : Thrown + unit) :
  token req = daemonToken -> command req = "close" ->
  sessions st !! sessionNameOf req = Some sess ->
  closeApp platformOps logPath req sess st = (st1, r1) ->
  stopRunner platformOps sess st1 = (st2, r2) ->
  let key := sessionNameOf req in
  let appClosed :=
    match positionals req with
    | Some (p :: ps) => [Dispatch (device sess) "close" (p :: ps)]
    | _ => []
    end in
  let stopped :=
    if isIosSimulator (device sess) then [RunnerStopped (Device.id (device sess))] else [] in
  (forall e, r1 = inl e ->
     handle req st = (st1, inl e) /\
     sessions st1 !! key = Some sess /\
     journal st1 = journal st ++ appClosed /\ appClosed <> []) /\
  (forall e, r1 = inr tt -> r2 = inl e ->
     handle req st = (st2, inl e) /\
     sessions st2 !! key = Some sess /\
     journal st2 = journal st ++ appClosed ++ stopped) /\
  (r1 = inr tt -> r2 = inr tt ->
   exists st',
     handle req st = (st', inr (Ok (SessionName key))) /\
     sessions st' = delete key (sessions st) /\
     sessions st' !! key = None /\
     journal st' = journal st ++ appClosed ++ stopped ++ [SessionDeleted key]).
Proof.
  intros Ht Hc Hsess Happ Hstop key appClosed stopped. subst key.
  destruct (closeApp_effect _ _ _ _ _ Happ) as (Hs1 & Hj1 & Herr).
  destruct (stopRunner_effect _ _ _ _ Hstop) as (Hs2 & Hj2).
  assert (Hgo : handle req st =
                (let* _ := closeApp platformOps logPath req sess in
                 let* _ := stopRunner platformOps sess in
                 let* _ := sessionsDelete (sessionNameOf req) in
                 resolve (Ok (SessionName (sessionNameOf req)))) st).
  { rewrite handle_close by assumption. unfold handleClose, await at 1, sessionsGet.
    now rewrite Hsess. }
  split; [|split].
  - intros e ->. rewrite Hgo. unfold await at 1. rewrite Happ.
    split; [reflexivity|]. split; [now rewrite Hs1|]. split; [exact Hj1|].
    destruct (Herr e eq_refl) as (p & ps & w & Hp & _). subst appClosed.
    rewrite Hp. discriminate.
  - intros e -> ->. rewrite Hgo. unfold await at 1. rewrite Happ.
    unfold await at 1. rewrite Hstop.
    split; [reflexivity|]. split; [now rewrite Hs2, Hs1|].
    now rewrite Hj2, Hj1, <- app_assoc.
  - intros -> ->. rewrite Hgo. unfold await at 1. rewrite Happ.
    unfold await at 1. rewrite Hstop. unfold await, sessionsDelete, resolve.
    eexists. split; [reflexivity|]. simpl.
    split; [now rewrite Hs2, Hs1|]. split; [apply lookup_delete_eq|].
    now rewrite Hj2, Hj1, <- !app_assoc.
Qed.

Lemma fail_unchanged (code message : string) (st : DaemonState W) :
  fail code message st = (st, inr (Fail code message)).
Proof. reflexivity. Qed.

(** C3, as the code has it: with no session under the requested name,
    every command other than [session_list], [open] and [snapshot] fails
    with an error response and leaves the daemon's state as it was (no
    session entry is created or changed and no collaborator is called):
    [click], [get] and the ref form of [fill] answer [INVALID_ARGS], [close]
    and every forwarded command answer [SESSION_NOT_FOUND] with a "No active
    session" message; [snapshot] resolves the target device itself and,
    once the platform snapshot has succeeded, stores a new session entry
    under the name. *)
Theorem missing_session (req : DaemonRequest) (st : DaemonState W) :
  token req = daemonToken ->
  sessions st !! sessionNameOf req = None ->
  (command req <> "session_list" -> command req <> "open" ->
   command req <> "snapshot" ->
   exists code message,
     handle req st = (st, inr (Fail code message)) /\
     (command req = "click" \/ command req = "get"
      \/ (command req = "fill" /\ refForm req <> None) ->
      code = "INVALID_ARGS") /\
     (command req = "close" ->
      code = "SESSION_NOT_FOUND" /\ message = "No active session") /\
     (command req <> "click" -> command req <> "get" -> command req <> "close" ->
      (command req = "fill" -> refForm req = None) ->
      code = "SESSION_NOT_FOUND" /\ message = "No active session. Run open first.")) /\
  (command req = "snapshot" ->
   forall w1 dev w2 data,
     resolveTargetDevice platformOps (default noFlags (flags req)) (world st)
       = (w1, inr dev) ->
     dispatchCommand platformOps dev "snapshot" [] (flags req ≫= out)
       (contextFromFlags logPath (flags req) None) w1 = (w2, inr data) ->
     let attached := Snapshot.attachRefs (default [] (data ≫= data_nodes)) in
     let entry :=
       {| name := sessionNameOf req; device := dev;
          createdAt := Date_now platformOps w2; appBundleId := None;
          snapshot := Some {| nodes := attached; truncated := data ≫= data_truncated;
                              s_createdAt := Date_now platformOps w2 |} |} in
     handle req st =
       ({| sessions := <[sessionNameOf req := entry]> (sessions st); world := w2;
           journal := journal st ++
             [TargetResolved; Dispatch dev "snapshot" []; SessionSet (sessionNameOf req)] |},
        inr (Ok (SnapshotNodes attached (default false (data ≫= data_truncated))))) /\
     (<[sessionNameOf req := entry]> (sessions st)) !! sessionNameOf req = Some entry).
Proof.
  intros Ht Hnone. split.
  - intros H1 H2 H3. unfold handleRequest. rewrite (authorised req Ht).
    destruct (String.eqb_spec (command req) "session_list") as [E|_]; [contradiction|].
    destruct (String.eqb_spec (command req) "open") as [E|_]; [contradiction|].
    destruct (String.eqb_spec (command req) "close") as [Eclose|Nclose].
    { exists "SESSION_NOT_FOUND", "No active session".
      unfold handleClose, await, sessionsGet. rewrite Hnone, fail_unchanged.
      rewrite Eclose. split; [reflexivity|]. split; [|split].
      - intros [H|[H|[H _]]]; discriminate H.
      - intros _. split; reflexivity.
      - intros _ _ Hn. now contradiction Hn. }
    destruct (String.eqb_spec (command req) "snapshot") as [E|_]; [contradiction|].
    destruct (String.eqb_spec (command req) "click") as [Eclick|Nclick].
    { exists "INVALID_ARGS", "No snapshot in session. Run snapshot first.".
      unfold handleClick, await, sessionsGet. rewrite Hnone. simpl.
      split; [reflexivity|]. split; [reflexivity|].
      split; [contradiction | intros Hn; now contradiction Hn]. }
    destruct (String.eqb_spec (command req) "fill") as [Efill|Nfill].
    { destruct (refForm req) as [[first ps]|] eqn:Eref.
      - exists "INVALID_ARGS", "No snapshot in session. Run snapshot first.".
        unfold handleFillRef, await, sessionsGet. rewrite Hnone. simpl.
        split; [reflexivity|]. split; [reflexivity|].
        split; [contradiction|]. intros _ _ _ Hf. discriminate (Hf Efill).
      - destruct (String.eqb_spec (command req) "get") as [E|_]; [congruence|].
        exists "SESSION_NOT_FOUND", "No active session. Run open first.".
        unfold handleOther, await, sessionsGet. rewrite Hnone, fail_unchanged.
        split; [reflexivity|]. split.
        + intros [H|[H|[_ H]]]; congruence.
        + split; [contradiction | intros; split; reflexivity]. }
    destruct (String.eqb_spec (command req) "get") as [Eget|Nget].
    { unfold handleGet.
      destruct (negb (bool_decide (positional req 0 = Some "text"))
                && negb (bool_decide (positional req 0 = Some "attrs"))).
      - exists "INVALID_ARGS", "get only supports text or attrs".
        rewrite fail_unchanged. split; [reflexivity|]. split; [reflexivity|].
        split; [contradiction | intros _ Hn; now contradiction Hn].
      - exists "INVALID_ARGS", "No snapshot in session. Run snapshot first.".
        unfold await, sessionsGet. rewrite Hnone. simpl.
        split; [reflexivity|]. split; [reflexivity|].
        split; [contradiction | intros _ Hn; now contradiction Hn]. }
    exists "SESSION_NOT_FOUND", "No active session. Run open first.".
    unfold handleOther, await, sessionsGet. rewrite Hnone, fail_unchanged.
    split; [reflexivity|]. split.
    + intros [H|[H|[H _]]]; contradiction.
    + split; [contradiction | intros; split; reflexivity].
  - intros Hc w1 dev w2 data Hres Hdisp attached entry.
    split; [|apply lookup_insert_eq].
    rewrite handle_snapshot by assumption.
    unfold handleSnapshot, await at 1, sessionsGet. rewrite Hnone.
    unfold await at 1, resolveTarget, call at 1. rewrite Hres.
    unfold await at 1, dispatch, call. simpl. rewrite Hdisp.
    unfold await, now, sessionsSet, resolve. simpl.
    now rewrite <- !app_assoc.
Qed.

End DaemonFacts.

Section DaemonExamples.
Import Daemon.

(** C2 as stated fails: closing the app "Settings" of the session
    "default" on a platform whose [close] command throws leaves the entry
    in the session map; the runner is not stopped and nothing is deleted. *)
Lemma close_keeps_entry_when_app_close_fails :
  let run := handleRequest Examples.closeFails "secret" "/tmp/daemon.log"
               (Examples.request "close" ["Settings"]) Examples.oneSession in
  sessions Examples.oneSession !! "default" = Some Examples.settingsSession /\
  run.2 = inl (AppError "COMMAND_FAILED" "app did not terminate" None) /\
  sessions run.1 !! "default" = Some Examples.settingsSession /\
  journal run.1 = [Dispatch Examples.simulator "close" ["Settings"]].
Proof. vm_compute. repeat split. Qed.

(** C3 as stated fails: [snapshot] for a name without a session answers ok
    and creates the entry; [click] for such a name answers [INVALID_ARGS]
    about a missing snapshot; and the [SESSION_NOT_FOUND] answer to a
    forwarded command for the missing session "work" does not contain that
    name. *)
Lemma snapshot_creates_missing_session :
  let run := handleRequest Examples.closeFails "secret" "/tmp/daemon.log"
               (Examples.request "snapshot" []) Examples.noSessions in
  let click := handleRequest Examples.closeFails "secret" "/tmp/daemon.log"
                 (Examples.request "click" ["@e0"]) Examples.noSessions in
  let back := handleRequest Examples.closeFails "secret" "/tmp/daemon.log"
                (Examples.requestIn "work" "back" []) Examples.noSessions in
  (sessions Examples.noSessions !! "default" = None /\
   run.2 = inr (Ok (SnapshotNodes [] false)) /\
   sessions run.1 !! "default" =
     Some {| name := "default"; device := Examples.simulator; createdAt := 0;
             appBundleId := None;
             snapshot := Some {| nodes := []; truncated := None; s_createdAt := 0 |} |} /\
   journal run.1 =
     [TargetResolved; Dispatch Examples.simulator "snapshot" []; SessionSet "default"]) /\
  click.2 = inr (Fail "INVALID_ARGS" "No snapshot in session. Run snapshot first.") /\
  (sessions Examples.noSessions !! "work" = None /\
   back.2 = inr (Fail "SESSION_NOT_FOUND" "No active session. Run open first.") /\
   JsString.includes "work" "No active session. Run open first." = false).
Proof. vm_compute. repeat split. Qed.

End DaemonExamples.

(** ** The theorems at concrete inputs *)

Section Instances.

(** [close] without an app on the session "default": the entry is gone. *)
Lemma close_removes_entry_witness :
  Daemon.sessions
    (Daemon.handleRequest Examples.closeFails "secret" "/tmp/daemon.log"
       (Examples.request "close" []) Examples.oneSession).1 !! "default" = None.
Proof.
  pose (appStep := Daemon.closeApp Examples.closeFails "/tmp/daemon.log"
                     (Examples.request "close" []) Examples.settingsSession
                     Examples.oneSession).
  pose (stopStep := Daemon.stopRunner Examples.closeFails Examples.settingsSession
                      appStep.1).
  destruct (close_removes_entry Examples.closeFails "secret" "/tmp/daemon.log"
              (Examples.request "close" []) Examples.oneSession
              Examples.settingsSession appStep.1 stopStep.1 appStep.2 stopStep.2
              eq_refl eq_refl eq_refl eq_refl eq_refl) as (_ & _ & H).
  destruct (H eq_refl eq_refl) as (st' & Hrun & _ & Hgone & _).
  rewrite Hrun. exact Hgone.
Defined.

(** [back] for a name without a session. *)
Lemma missing_session_witness :
  Daemon.handleRequest Examples.closeFails "secret" "/tmp/daemon.log"
    (Examples.request "back" []) Examples.noSessions =
  (Examples.noSessions,
   inr (Daemon.Fail "SESSION_NOT_FOUND" "No active session. Run open first.")).
Proof.
  destruct (missing_session Examples.closeFails "secret" "/tmp/daemon.log"
              (Examples.request "back" []) Examples.noSessions eq_refl eq_refl)
    as [H _].
  destruct H as (code & message & Hrun & _ & _ & Hc); try discriminate.
  destruct Hc as [-> ->]; try discriminate. exact Hrun.
Defined.

(** Two failures, then success, under three attempts: three invocations;
    under two attempts: two invocations and the second error thrown; under
    no attempt: nothing invoked and the generic error. *)
Lemma withRetry_attempts_witness :
  let run options :=
    Retry.withRetryTraced (Retry.scriptedRuntime (Number.fraction 1 2)) (Retry.scripted 0)
      options Examples.flaky in
  (let three := run Examples.threeAttempts in
   three.2 = inr 7 /\ Z.of_nat (Retry.invocations three.1.2) <= 3) /\
  (let two := run Cases.twoAttempts in
   Z.of_nat (Retry.invocations two.1.2) <= 2 /\ two.2 = inl Examples.timedOut) /\
  (let none := run Cases.noAttempts in
   none.1.2 = [] /\ none.2 = inl (AppError "COMMAND_FAILED" "retry failed" None)).
Proof.
  intros run. split; [|split].
  - intros three. split; [reflexivity|].
    destruct (withRetry_attempts (Retry.scriptedRuntime (Number.fraction 1 2))
                (Retry.scripted 0) Examples.threeAttempts Examples.flaky
                three.1.1 three.1.2 three.2 eq_refl) as [H _].
    exact H.
  - intros two.
    destruct (withRetry_attempts (Retry.scriptedRuntime (Number.fraction 1 2))
                (Retry.scripted 0) Cases.twoAttempts Examples.flaky
                two.1.1 two.1.2 two.2 eq_refl) as (H1 & H2 & _).
    split; [exact H1|].
    assert (Hlast : default 3 (Retry.attempts Cases.twoAttempts) <= 2) by (simpl; lia).
    exact (proj2 (H2 2%nat 2 Examples.timedOut eq_refl (or_introl Hlast))).
  - intros none.
    destruct (withRetry_attempts (Retry.scriptedRuntime (Number.fraction 1 2))
                (Retry.scripted 0) Cases.noAttempts Examples.flaky
                none.1.1 none.1.2 none.2 eq_refl) as (_ & _ & _ & H4 & _).
    assert (Hzero : default 3 (Retry.attempts Cases.noAttempts) <= 0) by (simpl; lia).
    destruct (H4 Hzero) as (Hevents & _ & Hout). split; assumption.
Defined.

(** A base of 100 ms, a cap of 500 ms and a jitter of one half: the delay
    slept after the second failed attempt lies between 100 and 300 ms. *)
Lemma backoff_delay_bounds_witness :
  let run := Retry.withRetryTraced (Retry.scriptedRuntime (Number.fraction 1 2))
               (Retry.scripted 0) Cases.halfJitter Examples.flaky in
  exists ms,
    run.1.2 !! 3%nat = Some (Retry.Slept ms) /\
    Number.leq (Number.ofZ 100) ms = true /\ Number.leq ms (Number.ofZ 300) = true.
Proof.
  intros run.
  destruct (backoff_delay_bounds (Retry.scriptedRuntime (Number.fraction 1 2))
              (Retry.scripted 0) Cases.halfJitter Examples.flaky
              run.1.1 run.1.2 run.2 eq_refl eq_refl eq_refl eq_refl eq_refl
              (fun _ => eq_refl) 3%nat _ eq_refl)
    as (n & e & st & H1 & H2 & Hprev & Hrest).
  cbv zeta in Hrest. destruct Hrest as (_ & _ & Hnum).
  assert (En : n = 2) by (vm_compute in Hprev; congruence). subst n.
  destruct Hnum as (_ & _ & _ & _ & _ & Hlow & Hhigh); [intros [_ H]; lia|].
  eexists. split; [reflexivity|]. split; [exact Hlow|exact Hhigh].
Defined.

(** An exact match behind a substring match and a node without a rect. *)
Lemma findNodeByLocator_selects_witness :
  Finders.findNodeByLocator Examples.settingsNodes Finders.LLabel " camera"
    {| Finders.requireRect := Some true |} =
  Examples.settingsNodes !! 2%nat.
Proof.
  destruct (findNodeByLocator_selects Examples.settingsNodes Finders.LLabel " camera"
              {| Finders.requireRect := Some true |}) as (_ & H & _).
  - discriminate.
  - rewrite H. reflexivity.
Defined.

(** A query of three spaces. *)
Lemma findNodeByLocator_blank_query_witness :
  Finders.findNodeByLocator Examples.settingsNodes Finders.LAny "   "
    {| Finders.requireRect := None |} = None.
Proof.
  destruct (findNodeByLocator_blank_query "   " eq_refl) as [_ H]. apply H.
Defined.

(** An Android phone is refused before anything is spawned. *)
Lemma snapshotAx_guard_witness :
  Ax.snapshotAx Examples.scriptedHost Examples.androidPhone Examples.noTrace
    (Examples.startOf [Examples.denied]) =
  (Examples.startOf [Examples.denied],
   inl (AppError "UNSUPPORTED_OPERATION"
          "AX snapshot is only supported on iOS simulators" None)).
Proof.
  destruct (snapshotAx_guard Examples.scriptedHost Examples.androidPhone Examples.noTrace
              (Examples.startOf [Examples.denied])) as [H _].
  destruct H as [H _]; [left; discriminate | exact H].
Defined.

(** A permission failure is not retried: one invocation, then the error. *)
Lemma ax_retry_policy_witness :
  let run := Retry.withRetryTraced (Ax.axRuntime Examples.scriptedHost)
               (Ax.attemptOnce Examples.scriptedHost "/opt/axsnapshot" Examples.noTrace)
               Ax.axRetryOptions (Examples.startOf [Examples.denied; Examples.denied]) in
  run.1.2 !! 1%nat = None /\ run.2 = inl (Ax.snapshotFailed Examples.denied).
Proof.
  intros run.
  destruct (ax_retry_policy Examples.scriptedHost "/opt/axsnapshot" Examples.noTrace
              (Examples.startOf [Examples.denied; Examples.denied])
              run.1.1 run.1.2 run.2 eq_refl) as (_ & _ & H & _).
  destruct (H O 1 (Ax.snapshotFailed Examples.denied) eq_refl) as [_ Hstop].
  apply Hstop. reflexivity.
Defined.

End Instances.

(* ===================================================================== *)
(** * Further properties of the code *)
(* ===================================================================== *)

(** ** Normalisation of text and roles *)

Section NormalisationFacts.
Import JsString.

Lemma lowerChar_idem (c : ascii) : lowerChar (lowerChar c) = lowerChar c.
Proof. destruct c as [[] [] [] [] [] [] [] []]; reflexivity. Qed.

Lemma is_space_lowerChar (c : ascii) : Ascii.is_space (lowerChar c) = Ascii.is_space c.
Proof. destruct c as [[] [] [] [] [] [] [] []]; reflexivity. Qed.

Lemma dot_lowerChar (c : ascii) : Ascii.eqb (lowerChar c) "." = Ascii.eqb c ".".
Proof. destruct c as [[] [] [] [] [] [] [] []]; reflexivity. Qed.

Lemma toLowerCase_idem (s : string) : toLowerCase (toLowerCase s) = toLowerCase s.
Proof. induction s as [|c s IH]; simpl; [reflexivity | now rewrite lowerChar_idem, IH]. Qed.

Lemma toLowerCase_app (a b : string) :
  toLowerCase (a +:+ b) = toLowerCase a +:+ toLowerCase b.
Proof.
  induction a as [|c a IH]; [reflexivity|].
  rewrite app_cons. simpl. now rewrite IH, app_cons.
Qed.

Lemma trimStart_lower (s : string) : trimStart (toLowerCase s) = toLowerCase (trimStart s).
Proof.
  induction s as [|c s IH]; simpl; [reflexivity|].
  rewrite is_space_lowerChar. destruct (Ascii.is_space c); [exact IH | reflexivity].
Qed.

Lemma trimEnd_lower (s : string) : trimEnd (toLowerCase s) = toLowerCase (trimEnd s).
Proof.
  induction s as [|c s IH]; simpl; [reflexivity|].
  rewrite IH, is_space_lowerChar.
  destruct (trimEnd s); simpl; [destruct (Ascii.is_space c)|]; reflexivity.
Qed.

Lemma trim_lower (s : string) : trim (toLowerCase s) = toLowerCase (trim s).
Proof. unfold trim. now rewrite trimStart_lower, trimEnd_lower. Qed.

Lemma collapseFrom_lower (s : string) :
  forall b, collapseFrom b (toLowerCase s) = toLowerCase (collapseFrom b s).
Proof.
  induction s as [|c s IH]; intros b; simpl; [reflexivity|].
  rewrite is_space_lowerChar.
  destruct (Ascii.is_space c); [destruct b|]; simpl; now rewrite IH.
Qed.

Lemma collapseFrom_idem (s : string) :
  forall b, collapseFrom b (collapseFrom b s) = collapseFrom b s.
Proof.
  induction s as [|c s IH]; intros b; simpl; [reflexivity|].
  destruct (Ascii.is_space c) eqn:E.
  - destruct b; [apply IH|]. simpl. now rewrite IH.
  - simpl. rewrite E. now rewrite IH.
Qed.

Lemma trimEnd_allSpaces (s : string) : Stated.allSpaces s = true -> trimEnd s = "".
Proof. apply trimEnd_empty. Qed.

Lemma collapseFrom_empty (s : string) (b : bool) :
  collapseFrom b s = "" -> Stated.allSpaces s = true.
Proof.
  revert b. induction s as [|c s IH]; intros b; simpl; [reflexivity|].
  destruct (Ascii.is_space c); [|discriminate].
  destruct b; [|discriminate]. apply IH.
Qed.

(** No trailing white space before, none after the collapse. *)
Lemma trimEnd_collapseFrom (s : string) :
  forall b, trimEnd s = s -> trimEnd (collapseFrom b s) = collapseFrom b s.
Proof.
  induction s as [|c s IH]; intros b H; [reflexivity|].
  assert (Hs : trimEnd s = s /\ (Ascii.is_space c = true -> s <> "")).
  { simpl in H. destruct (trimEnd s) as [|d t] eqn:E.
    - destruct (Ascii.is_space c); [discriminate|]. injection H as <-. split; [reflexivity|discriminate].
    - injection H as <-. split; [reflexivity|discriminate]. }
  destruct Hs as [Hs Hne]. specialize (IH true Hs) as IHt. specialize (IH false Hs) as IHf.
  simpl. destruct (Ascii.is_space c) eqn:E.
  - assert (Hx : collapseFrom true s <> "").
    { intros Hx. apply collapseFrom_empty in Hx. apply trimEnd_allSpaces in Hx.
      rewrite Hs in Hx. now apply Hne. }
    destruct b; [exact IHt|]. simpl. rewrite IHt.
    destruct (collapseFrom true s); [contradiction | reflexivity].
  - simpl. rewrite IHf, E. destruct (collapseFrom false s); reflexivity.
Qed.

Lemma trimStart_fixed (s : string) :
  trimStart s = s <-> match s with String c _ => Ascii.is_space c = false | _ => True end.
Proof.
  destruct s as [|c s]; simpl; [tauto|].
  destruct (Ascii.is_space c) eqn:E; split; try congruence.
  intros H. exfalso.
  assert (L : forall t, (String.length (trimStart t) <= String.length t)%nat).
  { induction t as [|d t IHt]; simpl; [lia|]. destruct (Ascii.is_space d); simpl; lia. }
  pose proof (L s) as Hl. rewrite H in Hl. simpl in Hl. lia.
Qed.

Lemma trimStart_idem (s : string) : trimStart (trimStart s) = trimStart s.
Proof.
  induction s as [|c s IH]; simpl; [reflexivity|].
  destruct (Ascii.is_space c) eqn:E; [exact IH|]. simpl. now rewrite E.
Qed.

Lemma trimEnd_idem (s : string) : trimEnd (trimEnd s) = trimEnd s.
Proof.
  induction s as [|c s IH]; simpl; [reflexivity|].
  destruct (trimEnd s) as [|d t] eqn:E.
  - destruct (Ascii.is_space c) eqn:Ec; simpl; [reflexivity | now rewrite Ec].
  - change (trimEnd (String c (String d t))) with
      (match trimEnd (String d t) with
       | "" => if Ascii.is_space c then "" else String c ""
       | u => String c u
       end).
    now rewrite IH.
Qed.

(** [trimEnd] keeps the start of a string that has no leading white space. *)
Lemma trimStart_trimEnd (s : string) :
  trimStart s = s -> trimStart (trimEnd s) = trimEnd s.
Proof.
  intros H. apply trimStart_fixed in H. apply trimStart_fixed.
  destruct s as [|c s]; simpl; [exact I|].
  destruct (trimEnd s); [rewrite H|]; exact H.
Qed.

Lemma trim_idem (s : string) : trim (trim s) = trim s.
Proof.
  unfold trim. rewrite (trimStart_trimEnd (trimStart s) (trimStart_idem s)).
  apply trimEnd_idem.
Qed.

Lemma trimStart_collapse (s : string) :
  trimStart s = s -> trimStart (collapseFrom false s) = collapseFrom false s.
Proof.
  intros H. apply trimStart_fixed in H. apply trimStart_fixed.
  destruct s as [|c s]; simpl; [exact I|]. now rewrite H.
Qed.

Lemma trim_parts (s : string) : trimStart (trim s) = trim s /\ trimEnd (trim s) = trim s.
Proof.
  unfold trim. split.
  - apply trimStart_trimEnd, trimStart_idem.
  - apply trimEnd_idem.
Qed.

End NormalisationFacts.

Section MatchingFacts.
Import JsString Finders.

Lemma normalizeText_lower (s : string) : normalizeText (toLowerCase s) = normalizeText s.
Proof. unfold normalizeText. now rewrite trim_lower, toLowerCase_idem. Qed.

Lemma isEmpty_lower (s : string) : isEmpty (toLowerCase s) = isEmpty s.
Proof. destruct s; reflexivity. Qed.

Lemma lastSegmentFrom_lower (s : string) :
  forall acc,
    lastSegmentFrom (toLowerCase acc) (toLowerCase s) = toLowerCase (lastSegmentFrom acc s).
Proof.
  induction s as [|c s IH]; intros acc; simpl; [reflexivity|].
  rewrite dot_lowerChar. destruct (Ascii.eqb c ".").
  - exact (IH "").
  - rewrite <- IH, toLowerCase_app. reflexivity.
Qed.

Lemma removeAllFrom_lower (pat : string) (s : string) :
  forall skip,
    toLowerCase (removeAllFrom pat skip (toLowerCase s)) =
    toLowerCase (removeAllFrom pat skip s).
Proof.
  induction s as [|c s IH]; intros skip; [reflexivity|].
  cbn [toLowerCase removeAllFrom]. destruct skip as [|k]; [|apply IH].
  rewrite lowerChar_idem, toLowerCase_idem.
  destruct (startsWith pat (String (lowerChar c) (toLowerCase s))); [apply IH|].
  cbn [toLowerCase]. now rewrite lowerChar_idem, IH.
Qed.

Lemma normalizeRole_lower (s : string) : normalizeRole (toLowerCase s) = normalizeRole s.
Proof.
  unfold normalizeRole. rewrite trim_lower, isEmpty_lower.
  destruct (isEmpty (trim s)); [reflexivity|].
  unfold lastSegment, removeAllCI.
  pose proof (lastSegmentFrom_lower (trim s) "") as E.
  change (toLowerCase "") with "" in E.
  rewrite E, removeAllFrom_lower. reflexivity.
Qed.

(** The text normalisation is idempotent: a normalised string is its own
    normal form. *)
Theorem normalizeText_idempotent (s : string) :
  normalizeText (normalizeText s) = normalizeText s.
Proof.
  unfold normalizeText, collapseWhitespace.
  destruct (trim_parts s) as [Hstart Hend].
  set (u := toLowerCase (trim s)).
  assert (Hu1 : trimStart u = u) by (unfold u; now rewrite trimStart_lower, Hstart).
  assert (Hu2 : trimEnd u = u) by (unfold u; now rewrite trimEnd_lower, Hend).
  assert (Htrim : trim (collapseFrom false u) = collapseFrom false u).
  { unfold trim. rewrite (trimStart_collapse u Hu1). now apply trimEnd_collapseFrom. }
  rewrite Htrim, <- collapseFrom_lower. unfold u. rewrite toLowerCase_idem.
  apply collapseFrom_idem.
Qed.

(** Letter case never matters to the locator: queries, or fields, that
    differ only in the case of letters are treated alike. *)
Theorem matching_ignores_case (q1 q2 : string) :
  toLowerCase q1 = toLowerCase q2 ->
  (forall nodes locator options,
     findNodeByLocator nodes locator q1 options =
     findNodeByLocator nodes locator q2 options) /\
  (forall query, matchText (Some q1) query = matchText (Some q2) query) /\
  (forall query, matchRole (Some q1) query = matchRole (Some q2) query).
Proof.
  intros H.
  assert (Ht : normalizeText q1 = normalizeText q2)
    by (rewrite <- (normalizeText_lower q1), <- (normalizeText_lower q2); now rewrite H).
  assert (Hr : normalizeRole q1 = normalizeRole q2)
    by (rewrite <- (normalizeRole_lower q1), <- (normalizeRole_lower q2); now rewrite H).
  split; [|split].
  - intros nodes locator options. unfold findNodeByLocator. now rewrite Ht.
  - intros query. unfold matchText. simpl. now rewrite Ht.
  - intros query. unfold matchRole. simpl. now rewrite Hr.
Qed.

Lemma matching_ignores_case_witness :
  findNodeByLocator Examples.settingsNodes LLabel "CAMERA" {| requireRect := None |} =
  findNodeByLocator Examples.settingsNodes LLabel "camera" {| requireRect := None |}.
Proof.
  destruct (matching_ignores_case "CAMERA" "camera" eq_refl) as [H _]. apply H.
Defined.

(** What the loop holds is what it held before or a node of the list that
    is not skipped and has exactly the recorded, positive score. *)
Lemma scan_sound (locator : FindLocator) (q : string) (options : FindMatchOptions)
    (nodes : list SnapshotNode) :
  forall best node score,
    scan locator q options nodes best = Some (node, score) ->
    best = Some (node, score) \/
    (In node nodes /\ skipped options node = false /\
     matchNode node locator q = score /\ 0 < score).
Proof.
  induction nodes as [|n rest IH]; intros best node score; simpl; [now left|].
  destruct (skipped options n) eqn:Hskip.
  { intros H. destruct (IH _ _ _ H) as [Hb | (Hin & Hrest)]; [now left | right; tauto]. }
  destruct (Z.leb_spec (matchNode n locator q) 0) as [Hle|Hpos].
  { intros H. destruct (IH _ _ _ H) as [Hb | (Hin & Hrest)]; [now left | right; tauto]. }
  assert (Hn : In n (n :: rest) /\ skipped options n = false /\
               matchNode n locator q = matchNode n locator q /\ 0 < matchNode n locator q)
    by (repeat split; [now left | assumption | assumption]).
  destruct (match best with Some (_, bestScore) => bestScore <? matchNode n locator q
                       | None => true end).
  - destruct (2 <=? matchNode n locator q).
    + intros [= <- <-]. now right.
    + intros H. destruct (IH _ _ _ H) as [[= <- <-] | (Hin & Hrest)];
        [now right | right; tauto].
  - intros H. destruct (IH _ _ _ H) as [Hb | (Hin & Hrest)]; [now left | right; tauto].
Qed.

(** Whatever [findNodeByLocator] returns is one of the given nodes, matches
    the query with a positive score, and has a rect when [requireRect] is
    set; with a blank query nothing is returned. *)
Theorem findNodeByLocator_sound (nodes : list SnapshotNode) (locator : FindLocator)
    (query : string) (options : FindMatchOptions) (node : SnapshotNode) :
  findNodeByLocator nodes locator query options = Some node ->
  In node nodes /\
  1 <= matchNode node locator (normalizeText query) /\
  (requireRect options = Some true -> rect node <> None) /\
  normalizeText query <> "".
Proof.
  unfold findNodeByLocator.
  destruct (isEmpty (normalizeText query)) eqn:E; [discriminate|].
  destruct (scan locator (normalizeText query) options nodes None) as [[n sc]|] eqn:Hs;
    [|discriminate].
  intros [= <-]. apply scan_sound in Hs as [Hs | (Hin & Hskip & Hm & Hpos)]; [discriminate|].
  split; [exact Hin|]. split; [lia|]. split; [|now apply isEmpty_false].
  intros Hreq. unfold skipped in Hskip. rewrite Hreq in Hskip.
  destruct (rect n); [discriminate | discriminate].
Qed.

Lemma findNodeByLocator_sound_witness :
  In (Examples.plainNode "XCUIElementTypeButton" "Camera"
        (Some {| rect_x := 0; rect_y := 40; rect_width := 100; rect_height := 20 |}))
     Examples.settingsNodes.
Proof.
  apply (findNodeByLocator_sound Examples.settingsNodes LLabel "camera"
           {| requireRect := Some true |}). reflexivity.
Defined.

End MatchingFacts.

Section LocatorFacts.
Import JsString Finders.

Lemma scan_text_any (q : string) (options : FindMatchOptions) (nodes : list SnapshotNode) :
  forall best, scan LText q options nodes best = scan LAny q options nodes best.
Proof.
  induction nodes as [|n rest IH]; intros best; [reflexivity|].
  cbn [scan]. change (matchNode n LText q) with (matchNode n LAny q).
  rewrite !IH. reflexivity.
Qed.

Lemma matchNode_any_ge (node : SnapshotNode) (locator : FindLocator) (q : string) :
  locator <> LRole -> matchNode node locator q <= matchNode node LAny q.
Proof. intros H. destruct locator; simpl; try lia. contradiction. Qed.

(** The loop ends empty-handed exactly when it started so and no node that
    is not skipped has a positive score. *)
Lemma scan_none (locator : FindLocator) (q : string) (options : FindMatchOptions)
    (nodes : list SnapshotNode) :
  forall best,
    scan locator q options nodes best = None <->
    best = None /\
    forall node, In node nodes -> skipped options node = false ->
                 matchNode node locator q <= 0.
Proof.
  induction nodes as [|n rest IH]; intros best; simpl.
  - split; [intros ->; split; [reflexivity | contradiction] | tauto].
  - destruct (skipped options n) eqn:Hskip.
    { rewrite IH. split; intros [Hb H]; (split; [exact Hb|]).
      - intros node [<-|Hin] Hs; [congruence | now apply H].
      - intros node Hin. apply H. now right. }
    destruct (Z.leb_spec (matchNode n locator q) 0) as [Hle|Hpos].
    { rewrite IH. split; intros [Hb H]; (split; [exact Hb|]).
      - intros node [<-|Hin] Hs; [exact Hle | now apply H].
      - intros node Hin. apply H. now right. }
    assert (Hno : ~ (best = None /\
                     forall node, n = node \/ In node rest -> skipped options node = false ->
                                  matchNode node locator q <= 0)).
    { intros [_ H]. specialize (H n (or_introl eq_refl) Hskip). lia. }
    destruct best as [[b bs]|].
    + destruct (bs <? matchNode n locator q).
      * destruct (2 <=? matchNode n locator q).
        -- split; [discriminate | intros [H _]; discriminate].
        -- rewrite IH. split; intros [H _]; discriminate.
      * rewrite IH. split; intros [H _]; discriminate.
    + destruct (2 <=? matchNode n locator q).
      * split; [discriminate | intros H; now destruct Hno].
      * rewrite IH. split; [intros [H _]; discriminate | intros H; now destruct Hno].
Qed.

(** The locators [text] and [any] are the same search, and they cover the
    searches by [label], [value] and [id]: a node never scores less under
    [any] than under one of these, so whenever one of them finds a node,
    [any] finds one too. *)
Theorem any_covers_fields (nodes : list SnapshotNode) (locator : FindLocator)
    (query : string) (options : FindMatchOptions) :
  locator <> LRole ->
  findNodeByLocator nodes LText query options =
    findNodeByLocator nodes LAny query options /\
  (forall node q, matchNode node locator q <= matchNode node LAny q) /\
  (findNodeByLocator nodes locator query options <> None ->
   findNodeByLocator nodes LAny query options <> None).
Proof.
  intros Hloc. split; [|split].
  - unfold findNodeByLocator. now rewrite scan_text_any.
  - intros node q. now apply matchNode_any_ge.
  - unfold findNodeByLocator.
    destruct (isEmpty (normalizeText query)); [tauto|].
    intros Hfound Hany. apply Hfound.
    destruct (scan LAny _ _ _ None) as [[? ?]|] eqn:Ea; [discriminate|].
    apply scan_none in Ea as [_ Ha].
    assert (Es : scan locator (normalizeText query) options nodes None = None).
    { apply scan_none. split; [reflexivity|]. intros node Hin Hs.
      pose proof (matchNode_any_ge node locator (normalizeText query) Hloc).
      specialize (Ha node Hin Hs). lia. }
    now rewrite Es.
Qed.

Lemma any_covers_fields_witness :
  findNodeByLocator Examples.settingsNodes LAny "camera" {| requireRect := None |} <> None.
Proof.
  destruct (any_covers_fields Examples.settingsNodes LLabel "camera"
              {| requireRect := None |}) as (_ & _ & H); [discriminate|].
  apply H. discriminate.
Defined.

End LocatorFacts.

(** ** More on the retry executor *)

Section RetryShape.
Import Retry Recorded.
Context {S T : Type}.
Variable rt : Runtime S.
Variable fn : Async S T.
Variable options : RetryOptions.

Local Abbreviation attemptsN := (attemptsOf options).
Local Abbreviation loop := (retryLoop rt fn options).

Lemma last_cons_cons {A : Type} (a b : A) (l : list A) :
  last (a :: b :: l) = last (b :: l).
Proof. reflexivity. Qed.

Lemma shaped_nil (attempt : Z) (lastError : option Thrown) :
  shaped (T := T) attempt lastError [] (inl (afterLoop lastError)).
Proof.
  unfold shaped. split; [|split; [|split]].
  - intros m e H. now destruct m.
  - intros m e H. now destruct m.
  - left. split; reflexivity.
  - contradiction.
Qed.

Lemma shaped_single (attempt : Z) (lastError : option Thrown) (r : option Thrown)
    (out : Thrown + T) :
  endsWith [Invoked attempt r] lastError out ->
  shaped attempt lastError [Invoked attempt r] out.
Proof.
  intros Hend. unfold shaped. split; [|split; [|split]].
  - intros [|m] e H.
    + injection H as <-. exists r. f_equal. lia.
    + replace (2 * Datatypes.S m)%nat with (Datatypes.S (Datatypes.S (2 * m))) in H by lia.
      discriminate.
  - intros m e H. replace (2 * m + 1)%nat with (Datatypes.S (2 * m)) in H by lia.
    discriminate.
  - exact Hend.
  - reflexivity.
Qed.

Lemma retryLoop_shape (fuel : nat) :
  forall attempt lastError s s' events out,
    (Z.to_nat (attemptsN - attempt + 1) <= fuel)%nat ->
    loop fuel attempt lastError [] s = (s', events, out) ->
    shaped attempt lastError events out /\ (events = [] <-> attemptsN < attempt).
Proof.
  induction fuel as [|fuel IH]; intros attempt lastError s s' events out Hfuel.
  - simpl. intros [= _ <- <-]. split; [apply shaped_nil|]. split; [lia | reflexivity].
  - simpl. destruct (Z.leb_spec attempt attemptsN) as [Hle|Hgt].
    2:{ intros [= _ <- <-]. split; [apply shaped_nil|]. split; [lia | reflexivity]. }
    destruct (fn s) as [s1 [err|v]].
    2:{ intros [= _ <- <-]. split; [|split; [discriminate | lia]].
        apply shaped_single. now exists attempt. }
    assert (Hdone : endsWith (T := T) [Invoked attempt (Some err)] lastError
                      (inl (afterLoop (Some err)))).
    { right. now exists attempt. }
    destruct (Z.leb_spec attemptsN attempt) as [Hfinal|Hmore].
    { intros [= _ <- <-]. split; [|split; [discriminate | lia]].
      now apply shaped_single. }
    destruct (vetoed options err attempt).
    { intros [= _ <- <-]. split; [|split; [discriminate | lia]].
      now apply shaped_single. }
    destruct (Math_random rt s1) as [s2 rnd].
    rewrite retryLoop_prefix.
    destruct (loop fuel _ _ [] _) as [[s3 events3] out3] eqn:E.
    intros [= _ <- <-].
    assert (Hfuel' : (Z.to_nat (attemptsN - (attempt + 1) + 1) <= fuel)%nat) by lia.
    destruct (IH _ _ _ _ _ _ Hfuel' E) as ((He & Ho & Hend & Hlen) & Hnil).
    assert (Hne : events3 <> []) by (intros H3; apply Hnil in H3; lia).
    cbn [app].
    split; [|split; [discriminate | lia]].
    unfold shaped. split; [|split; [|split]].
    + intros [|m] e H.
      * injection H as <-. eexists. f_equal. lia.
      * replace (2 * Datatypes.S m)%nat with (Datatypes.S (Datatypes.S (2 * m))) in H by lia.
        cbn in H. destruct (He m e H) as [f ->]. exists f. f_equal. lia.
    + intros [|m] e H.
      * injection H as <-. split; [now eexists|]. cbn.
        destruct events3; [contradiction | now eexists].
      * replace (2 * Datatypes.S m + 1)%nat
          with (Datatypes.S (Datatypes.S (2 * m + 1))) in H by lia.
        cbn in H. destruct (Ho m e H) as [Hs Hn]. split; [exact Hs|].
        replace (2 * Datatypes.S m + 2)%nat
          with (Datatypes.S (Datatypes.S (2 * m + 2))) by lia.
        exact Hn.
    + unfold endsWith in *. destruct events3 as [|e3 rest3]; [contradiction|].
      rewrite !last_cons_cons. destruct out3 as [e|v]; [|exact Hend].
      destruct Hend as [[H3 _] | H3]; [discriminate | now right].
    + intros _. rewrite invocations_invoked, invocations_slept. cbn [length].
      specialize (Hlen Hne).
      assert (0 < length events3)%nat by (destruct events3; [contradiction | simpl; lia]).
      lia.
Qed.

End RetryShape.

Section RetryBehaviour.
Import Retry.

(** The record of a run of [withRetry]: the attempts sit at the even
    positions and are numbered 1, 2, 3, ...; every odd position holds a
    delay and is followed by another attempt, so the executor never sleeps
    after its last attempt and sleeps once less than it invokes; a resolved
    run ends on a successful attempt, and a rejected run throws the error of
    its last attempt (the generic error only when nothing was invoked). *)
Theorem withRetry_record {S T : Type} (rt : Runtime S) (fn : Async S T)
    (options : RetryOptions) (s s' : S) (events : list RetryEvent) (out : Thrown + T) :
  withRetryTraced rt fn options s = (s', events, out) ->
  (forall (m : nat) e,
     events !! (2 * m)%nat = Some e -> exists f, e = Invoked (1 + Z.of_nat m) f) /\
  (forall (m : nat) e,
     events !! (2 * m + 1)%nat = Some e ->
     (exists ms, e = Slept ms) /\ is_Some (events !! (2 * m + 2)%nat)) /\
  (events <> [] -> length events = (2 * invocations events - 1)%nat) /\
  (forall v, out = inr v -> exists j, last events = Some (Invoked j None)) /\
  (forall e, out = inl e ->
     (events = [] /\ attemptsOf options <= 0 /\
      e = AppError "COMMAND_FAILED" "retry failed" None) \/
     exists j, last events = Some (Invoked j (Some e))).
Proof.
  intros Hrun. unfold withRetryTraced in Hrun.
  destruct (retryLoop_shape rt fn options (Z.to_nat (attemptsOf options))
              1 None s s' events out) as
    ((He & Ho & Hend & Hlen) & Hnil); [lia | exact Hrun |].
  split; [exact He|]. split; [exact Ho|]. split; [exact Hlen|]. split.
  - intros v ->. exact Hend.
  - intros e ->. destruct Hend as [[H1 H2] | H]; [left | now right].
    split; [exact H1|]. split; [apply Hnil in H1; lia | exact H2].
Qed.

Lemma withRetry_record_witness :
  let run := withRetryTraced (scriptedRuntime (Number.fraction 1 2)) (scripted 0)
               Examples.threeAttempts Examples.flaky in
  length run.1.2 = (2 * invocations run.1.2 - 1)%nat.
Proof.
  intros run.
  destruct (withRetry_record (scriptedRuntime (Number.fraction 1 2)) (scripted 0)
              Examples.threeAttempts Examples.flaky run.1.1 run.1.2 run.2 eq_refl)
    as (_ & _ & H & _).
  apply H. discriminate.
Defined.

Lemma retryLoop_exhausts {S T : Type} (rt : Runtime S) (fn : Async S T)
    (options : RetryOptions) :
  (forall s, exists s1 e, fn s = (s1, inl e)) ->
  (forall e k, vetoed options e k = false) ->
  forall fuel attempt lastError s s' events out,
    (Z.to_nat (attemptsOf options - attempt + 1) <= fuel)%nat ->
    retryLoop rt fn options fuel attempt lastError [] s = (s', events, out) ->
    invocations events = Z.to_nat (attemptsOf options - attempt + 1) /\
    exists e, out = inl e.
Proof.
  intros Hfail Hveto. induction fuel as [|fuel IH];
    intros attempt lastError s s' events out Hfuel; simpl.
  - intros [= _ <- <-]. split; [unfold invocations; simpl; lia | now eexists].
  - destruct (Z.leb_spec attempt (attemptsOf options)) as [Hle|Hgt].
    2:{ intros [= _ <- <-]. split; [unfold invocations; simpl; lia | now eexists]. }
    destruct (Hfail s) as (s1 & err & ->).
    destruct (Z.leb_spec (attemptsOf options) attempt) as [Hfinal|Hmore].
    { intros [= _ <- <-]. split; [|now eexists].
      rewrite invocations_invoked. unfold invocations. simpl. lia. }
    rewrite Hveto. destruct (Math_random rt s1) as [s2 rnd].
    rewrite retryLoop_prefix.
    destruct (retryLoop rt fn options fuel _ _ [] _) as [[s3 events3] out3] eqn:E.
    intros [= _ <- <-].
    assert (Hfuel' : (Z.to_nat (attemptsOf options - (attempt + 1) + 1) <= fuel)%nat)
      by lia.
    destruct (IH _ _ _ _ _ _ Hfuel' E) as [Hn Hout].
    split; [|exact Hout]. cbn [app].
    rewrite invocations_invoked, invocations_slept, Hn. lia.
Qed.

(** An operation that always fails, under a predicate that never refuses
    (or none), is invoked exactly [attempts] times, the configured number
    or 3 when none is configured; the run then throws. *)
Theorem withRetry_exhausts {S T : Type} (rt : Runtime S) (fn : Async S T)
    (options : RetryOptions) (s s' : S) (events : list RetryEvent) (out : Thrown + T) :
  (forall s, exists s1 e, fn s = (s1, inl e)) ->
  (forall p e k, shouldRetry options = Some p -> p e k = true) ->
  withRetryTraced rt fn options s = (s', events, out) ->
  Z.of_nat (invocations events) = Z.max 0 (default 3 (attempts options)) /\
  exists e, out = inl e.
Proof.
  intros Hfail Hp Hrun.
  change (default 3 (attempts options)) with (attemptsOf options).
  assert (Hveto : forall e k, vetoed options e k = false).
  { intros e k. unfold vetoed. destruct (shouldRetry options) as [p|] eqn:E; [|reflexivity].
    now rewrite (Hp p e k eq_refl). }
  assert (Hfuel : (Z.to_nat (attemptsOf options - 1 + 1)
                   <= Z.to_nat (attemptsOf options))%nat) by lia.
  destruct (retryLoop_exhausts rt fn options Hfail Hveto _ 1 None s s' events out
              Hfuel Hrun) as [Hn Hout].
  split; [rewrite Hn; lia | exact Hout].
Qed.

(** Five attempts at an operation that always times out. *)
Lemma withRetry_exhausts_witness :
  let run := withRetryTraced (scriptedRuntime (Number.fraction 1 2)) Cases.alwaysTimesOut
               Cases.steadyBackoff [] in
  Z.of_nat (invocations run.1.2) = 5.
Proof.
  intros run.
  destruct (withRetry_exhausts (scriptedRuntime (Number.fraction 1 2)) Cases.alwaysTimesOut
              Cases.steadyBackoff [] run.1.1 run.1.2 run.2) as [H _].
  - intros s. now exists s, Examples.timedOut.
  - intros p e k [= <-]. reflexivity.
  - reflexivity.
  - exact H.
Defined.

(** For a base delay, a cap and a jitter that are finite and not negative,
    with [maxDelayMs * jitter] finite, and [Math.random()] in [0, 1): a
    delay is [NaN] exactly when the base delay is zero and it follows an
    attempt [n >= 1025]; any other delay is not negative and does not
    exceed [maxDelayMs + maxDelayMs * jitter] as the program computes it;
    and with [jitter] 0 the delay after attempt [n] is
    [Math.min(maxDelayMs, baseDelayMs * 2 ** (n - 1))] whatever
    [Math.random()] returns. *)
Theorem backoff_capped {S T : Type} (rt : Runtime S) (fn : Async S T)
    (options : RetryOptions) (s s' : S) (events : list RetryEvent) (out : Thrown + T) :
  withRetryTraced rt fn options s = (s', events, out) ->
  Number.isAmount (default (Number.ofZ 200) (baseDelayMs options)) = true ->
  Number.isAmount (default (Number.ofZ 2000) (maxDelayMs options)) = true ->
  Number.isAmount (default (Number.fraction 2 10) (jitter options)) = true ->
  Number.isFinite
    (Number.mul (default (Number.ofZ 2000) (maxDelayMs options))
       (default (Number.fraction 2 10) (jitter options))) = true ->
  (forall st, Number.isUnit (Math_random rt st).2 = true) ->
  forall (i : nat) ms,
    events !! i = Some (Slept ms) ->
    exists n e,
      events !! pred i = Some (Invoked n (Some e)) /\
      let base := default (Number.ofZ 200) (baseDelayMs options) in
      let cap := default (Number.ofZ 2000) (maxDelayMs options) in
      let jitter := default (Number.fraction 2 10) (jitter options) in
      (ms = Number.NaN <-> Number.equal base Number.zero = true /\ 1025 <= n) /\
      (ms <> Number.NaN ->
       Number.leq Number.zero ms = true /\
       Number.leq ms (Number.add cap (Number.mul cap jitter)) = true /\
       (Number.equal jitter Number.zero = true ->
        Number.equal ms
          (Number.Math_min cap (Number.mul base (Number.pow2 (n - 1)))) = true)).
Proof.
  intros Hrun Hb Hm Hj Hfin Hrnd i ms Hi.
  destruct (retryLoop_slept rt fn options _ _ _ _ _ _ _ Hrun i ms Hi)
    as (n & e & s1 & Hn1 & _ & Hprev & _ & Hms).
  change (baseDelayOf options) with (default (Number.ofZ 200) (baseDelayMs options)) in Hms.
  change (maxDelayOf options) with (default (Number.ofZ 2000) (maxDelayMs options)) in Hms.
  change (jitterOf options) with (default (Number.fraction 2 10) (jitter options)) in Hms.
  exists n, e. split; [exact Hprev|].
  destruct (computeDelay_range _ _ _ _ n Hb Hm Hj Hfin (Hrnd s1) Hn1)
    as (_ & Hnan & Hnum).
  cbv zeta. rewrite <- Hms in Hnan, Hnum.
  assert (Hdec : (Number.equal (default (Number.ofZ 200) (baseDelayMs options))
                    Number.zero = true /\ 1025 <= n) \/
                 ~ (Number.equal (default (Number.ofZ 200) (baseDelayMs options))
                      Number.zero = true /\ 1025 <= n)).
  { destruct (Number.equal (default (Number.ofZ 200) (baseDelayMs options)) Number.zero);
      [|right; intros [H _]; discriminate].
    destruct (Z_le_dec 1025 n); [now left|right; intros [_ H]; contradiction]. }
  split.
  - split; [|exact Hnan].
    intros Hms'. destruct Hdec as [H|H]; [exact H|].
    destruct (Hnum H) as (_ & _ & _ & _ & _ & _ & Hno & _).
    rewrite Hms' in Hno. discriminate.
  - intros Hne. destruct Hdec as [H|H]; [elim Hne; exact (Hnan H)|].
    destruct (Hnum H) as (_ & _ & _ & _ & _ & _ & _ & Hpos & Hcap & Hzero).
    split; [exact Hpos|]. split; [exact Hcap|exact Hzero].
Qed.

(** A base of 100 ms and no jitter: 200 ms after the second attempt. *)
Lemma backoff_capped_witness :
  let run := withRetryTraced (scriptedRuntime (Number.fraction 1 2)) (scripted 0)
               Cases.steadyBackoff Examples.flaky in
  exists ms,
    run.1.2 !! 3%nat = Some (Slept ms) /\ Number.equal ms (Number.ofZ 200) = true.
Proof.
  intros run.
  destruct (backoff_capped (scriptedRuntime (Number.fraction 1 2)) (scripted 0)
              Cases.steadyBackoff Examples.flaky
              run.1.1 run.1.2 run.2 eq_refl eq_refl eq_refl eq_refl eq_refl
              (fun _ => eq_refl) 3%nat _ eq_refl)
    as (n & e & Hprev & Hrest).
  cbv zeta in Hrest. destruct Hrest as (_ & Hnum).
  assert (En : n = 2) by (vm_compute in Hprev; congruence). subst n.
  destruct Hnum as (_ & _ & Hexact); [discriminate|].
  eexists. split; [reflexivity|]. exact (Hexact eq_refl).
Defined.

End RetryBehaviour.

(** ** More on the flattening of the tree *)

Section FlatteningFacts.
Import Ax.

Lemma normalizedNodes_cases (tree : AXNode) (originFrame : option AXFrame) :
  let rootFrame := rootFrameOf tree originFrame in
  let flat := map (Stated.flatAt rootFrame) (Stated.preorder tree 0) in
  normalizedNodes tree originFrame =
  normalizeFrames flat rootFrame (Stated.sampledFrames tree).
Proof.
  unfold normalizedNodes. rewrite walk_preorder. reflexivity.
Qed.

Lemma normalizeFrames_either (nodes : list FlatNode) (origin : option AXFrame)
    (frames : list AXFrame) :
  normalizeFrames nodes origin frames = nodes \/
  exists o, normalizeFrames nodes origin frames = map (addOrigin o) nodes.
Proof.
  unfold normalizeFrames. destruct origin as [o|]; [|now left].
  destruct frames; [now left|]. destruct (nearZero _); [right; now exists o | now left].
Qed.

(** What [toRaw] keeps of a flattened node, moved or not. *)
Lemma toRaw_flatAt (i : nat) (rootFrame : option AXFrame) (nd : AXNode * Z)
    (flat : FlatNode) :
  flat = Stated.flatAt rootFrame nd \/
  (exists o, flat = addOrigin o (Stated.flatAt rootFrame nd)) ->
  r_index (toRaw i flat) = Z.of_nat i /\ r_depth (toRaw i flat) = nd.2 /\
  r_type (toRaw i flat) = Tree.typeOf nd.1 /\
  r_label (toRaw i flat) = Tree.labelOf nd.1 /\
  r_value (toRaw i flat) = Tree.valueOf nd.1 /\
  r_identifier (toRaw i flat) = Tree.identifierOf nd.1 /\
  (r_rect (toRaw i flat) = None <-> frameOf nd.1 = None) /\
  (forall f r, frameOf nd.1 = Some f -> r_rect (toRaw i flat) = Some r ->
               width r = width f /\ height r = height f).
Proof.
  destruct nd as [[r sr l v j f cs] d].
  intros [-> | [o ->]]; unfold Stated.flatAt, toRaw, addOrigin, Tree.typeOf; simpl;
    (split; [reflexivity|]); (split; [reflexivity|]); (split; [reflexivity|]);
    (split; [reflexivity|]); (split; [reflexivity|]); (split; [reflexivity|]);
    destruct f as [f|], rootFrame as [rf|]; simpl;
    (split; [split; congruence|]); intros ? ? [= <-] [= <-]; split; reflexivity.
Qed.

Lemma mappedNodes_length (tree : AXNode) (originFrame : option AXFrame) :
  length (mappedNodes tree originFrame) = length (Stated.preorder tree 0).
Proof.
  unfold mappedNodes. rewrite normalizedNodes_cases, length_imap.
  destruct (normalizeFrames_either
              (map (Stated.flatAt (rootFrameOf tree originFrame)) (Stated.preorder tree 0))
              (rootFrameOf tree originFrame) (Stated.sampledFrames tree))
    as [-> | [o ->]]; now rewrite ?length_map.
Qed.

Lemma mappedNodes_lookup (tree : AXNode) (originFrame : option AXFrame) (i : nat)
    (nd : AXNode * Z) :
  Stated.preorder tree 0 !! i = Some nd ->
  exists raw,
    mappedNodes tree originFrame !! i = Some raw /\
    r_index raw = Z.of_nat i /\ r_depth raw = nd.2 /\
    r_type raw = Tree.typeOf nd.1 /\ r_label raw = Tree.labelOf nd.1 /\
    r_value raw = Tree.valueOf nd.1 /\ r_identifier raw = Tree.identifierOf nd.1 /\
    (r_rect raw = None <-> frameOf nd.1 = None) /\
    (forall f r, frameOf nd.1 = Some f -> r_rect raw = Some r ->
                 width r = width f /\ height r = height f).
Proof.
  unfold mappedNodes. rewrite normalizedNodes_cases.
  set (rootFrame := rootFrameOf tree originFrame).
  set (flat := map (Stated.flatAt rootFrame) (Stated.preorder tree 0)).
  intros Hi. rewrite list_lookup_imap.
  destruct (normalizeFrames_either flat rootFrame (Stated.sampledFrames tree))
    as [-> | [o ->]]; subst flat.
  - change (map ?f ?l) with (f <$> l). rewrite list_lookup_fmap, Hi. simpl.
    eexists. split; [reflexivity|]. apply (toRaw_flatAt i rootFrame nd). now left.
  - rewrite map_map. change (map ?f ?l) with (f <$> l).
    rewrite list_lookup_fmap, Hi. simpl.
    eexists. split; [reflexivity|]. apply (toRaw_flatAt i rootFrame nd). right. now exists o.
Qed.

(** The nodes [snapshotAx] returns for a decoded tree are the nodes of the
    tree in pre-order: the root first at depth 0, each node with its
    position as index, its depth, [subrole ?? role] as type and its label,
    value and identifier untouched; a node has a rect exactly when it has a
    frame, and the rect has the frame's width and height. The normalisation
    only ever moves x and y. *)
Theorem mappedNodes_preorder (tree : AXNode) (originFrame : option AXFrame) :
  length (mappedNodes tree originFrame) = length (Stated.preorder tree 0) /\
  Stated.preorder tree 0 !! O = Some (tree, 0) /\
  forall (i : nat) nd,
    Stated.preorder tree 0 !! i = Some nd ->
    exists raw,
      mappedNodes tree originFrame !! i = Some raw /\
      r_index raw = Z.of_nat i /\ r_depth raw = nd.2 /\
      r_type raw = Tree.typeOf nd.1 /\ r_label raw = Tree.labelOf nd.1 /\
      r_value raw = Tree.valueOf nd.1 /\ r_identifier raw = Tree.identifierOf nd.1 /\
      (r_rect raw = None <-> frameOf nd.1 = None) /\
      (forall f r, frameOf nd.1 = Some f -> r_rect raw = Some r ->
                   width r = width f /\ height r = height f).
Proof.
  split; [apply mappedNodes_length|]. split; [now rewrite preorder_unfold|].
  intros i nd. apply mappedNodes_lookup.
Qed.

Lemma mappedNodes_preorder_witness :
  exists raw,
    mappedNodes Examples.appRoot (Some Examples.windowFrame) !! 1%nat = Some raw /\
    r_index raw = 1 /\ r_depth raw = 1 /\ r_label raw = Some "OK".
Proof.
  destruct (mappedNodes_preorder Examples.appRoot (Some Examples.windowFrame))
    as (_ & _ & H).
  destruct (H 1%nat (Examples.okButton, 1) eq_refl)
    as (raw & H1 & H2 & H3 & _ & H5 & _).
  exists raw. repeat split; assumption.
Defined.

(** Appending an outline that starts at the top level keeps an outline. *)
Lemma outlined_app (d : Z) (l1 l2 : list (AXNode * Z)) :
  Tree.outlined d l1 -> Tree.outlined d l2 ->
  (forall nd, l2 !! O = Some nd -> nd.2 = d) ->
  Tree.outlined d (l1 ++ l2).
Proof.
  intros [Hall1 Hstep1] [Hall2 Hstep2] Hhead. split; [now apply Forall_app|].
  intros i a b Ha Hb.
  destruct (Nat.lt_ge_cases (Datatypes.S i) (length l1)) as [Hlt|Hge].
  - rewrite lookup_app_l in Ha by lia. rewrite lookup_app_l in Hb by lia.
    now apply (Hstep1 i).
  - rewrite lookup_app_r in Hb by lia.
    destruct (Nat.lt_ge_cases i (length l1)) as [Hi|Hi].
    + rewrite lookup_app_l in Ha by lia.
      replace (Datatypes.S i - length l1)%nat with O in Hb by lia.
      rewrite (Hhead b Hb).
      rewrite Forall_forall in Hall1.
      assert (d <= a.2) by (apply Hall1; eapply list_elem_of_lookup_2; exact Ha).
      lia.
    + rewrite lookup_app_r in Ha by lia.
      replace (Datatypes.S i - length l1)%nat
        with (Datatypes.S (i - length l1)) in Hb by lia.
      now apply (Hstep2 (i - length l1)%nat).
Qed.

Lemma preorder_outlined (node : AXNode) :
  forall d, Tree.outlined d (Stated.preorder node d).
Proof.
  induction node as [r sr l v j f cs IH] using AXNode_induction.
  intros d. rewrite preorder_unfold.
  change (childrenOf (mkAXNode r sr l v j f cs)) with cs.
  set (node := mkAXNode r sr l v j f cs).
  assert (Hkids : Tree.outlined (d + 1)
                    (concat (map (fun child => Stated.preorder child (d + 1)) cs)) /\
                  forall nd,
                    concat (map (fun child => Stated.preorder child (d + 1)) cs) !! O
                      = Some nd -> nd.2 = d + 1).
  { clear node. induction IH as [|c rest Hc _ IHrest]; simpl.
    - split; [split; [constructor | intros i a b H; now destruct i]|].
      intros nd H. discriminate.
    - destruct IHrest as [Hout Hhead]. split.
      + apply outlined_app; [apply Hc | exact Hout | exact Hhead].
      + intros nd. rewrite (preorder_unfold c). simpl. now intros [= <-]. }
  destruct Hkids as [[Hall Hstep] Hhead]. split.
  - constructor; [simpl; lia|]. eapply Forall_impl; [exact Hall|]. simpl. intros; lia.
  - intros [|i] a b Ha Hb; simpl in Ha, Hb.
    + injection Ha as <-. rewrite (Hhead b Hb). simpl. lia.
    + now apply (Hstep i).
Qed.

(** The depths of the returned nodes read as an outline: no depth is
    negative and no node lies more than one level below the node before
    it. *)
Theorem mappedNodes_outline (tree : AXNode) (originFrame : option AXFrame) :
  (forall (i : nat) a,
     mappedNodes tree originFrame !! i = Some a -> 0 <= r_depth a) /\
  (forall (i : nat) a b,
     mappedNodes tree originFrame !! i = Some a ->
     mappedNodes tree originFrame !! Datatypes.S i = Some b ->
     r_depth b <= r_depth a + 1).
Proof.
  destruct (preorder_outlined tree 0) as [Hall Hstep].
  assert (Hback : forall (i : nat) a,
            mappedNodes tree originFrame !! i = Some a ->
            exists nd, Stated.preorder tree 0 !! i = Some nd /\ r_depth a = nd.2).
  { intros i a Ha.
    assert (Hlt : (i < length (Stated.preorder tree 0))%nat).
    { rewrite <- (mappedNodes_length tree originFrame). eapply lookup_lt_Some, Ha. }
    destruct (lookup_lt_is_Some_2 _ _ Hlt) as [nd Hnd].
    destruct (mappedNodes_lookup tree originFrame i nd Hnd) as (raw & Hraw & _ & Hd & _).
    exists nd. split; [exact Hnd|]. congruence. }
  split.
  - intros i a Ha. destruct (Hback i a Ha) as (nd & Hnd & ->).
    rewrite Forall_forall in Hall. apply Hall. eapply list_elem_of_lookup_2, Hnd.
  - intros i a b Ha Hb.
    destruct (Hback i a Ha) as (na & Hna & ->).
    destruct (Hback _ b Hb) as (nb & Hnb & ->).
    now apply (Hstep i).
Qed.

Lemma mappedNodes_outline_witness :
  exists a,
    mappedNodes Examples.appRoot (Some Examples.windowFrame) !! 1%nat = Some a /\
    0 <= r_depth a.
Proof.
  destruct (mappedNodes_outline Examples.appRoot (Some Examples.windowFrame)) as [H _].
  eexists. split; [reflexivity|]. apply (H 1%nat). reflexivity.
Defined.

End FlatteningFacts.

Section OriginFacts.
Import Ax.

(** The window frame is only a fallback: when the root node has a frame of
    its own the window frame is not looked at; when the root has no frame
    and there is no window frame either, every rect is the frame the helper
    reported; and with the root's own frame as origin and samples that are
    not near zero, the root's rect starts at (0, 0). *)
Theorem origin_fallback (tree : AXNode) :
  (forall f o1 o2,
     frameOf tree = Some f -> mappedNodes tree o1 = mappedNodes tree o2) /\
  (frameOf tree = None ->
   forall (i : nat) nd raw,
     Stated.preorder tree 0 !! i = Some nd ->
     mappedNodes tree None !! i = Some raw ->
     r_rect raw = frameOf nd.1) /\
  (forall f o raw,
     frameOf tree = Some f -> nearZero (Stated.sampledFrames tree) = false ->
     mappedNodes tree o !! O = Some raw ->
     r_rect raw = Some {| x := 0; y := 0; width := width f; height := height f |}).
Proof.
  split; [|split].
  - intros f o1 o2 Hf. unfold mappedNodes, normalizedNodes, rootFrameOf. now rewrite Hf.
  - intros Hf i nd raw Hi. unfold mappedNodes. rewrite normalizedNodes_cases.
    unfold rootFrameOf. rewrite Hf. unfold normalizeFrames.
    rewrite list_lookup_imap. change (map ?g ?l) with (g <$> l).
    rewrite list_lookup_fmap, Hi. simpl. intros [= <-].
    destruct nd as [[r sr l v j f cs] d]. unfold Stated.flatAt, toRaw. simpl.
    destruct f as [[]|]; reflexivity.
  - intros f o raw Hf Hnz. unfold mappedNodes. rewrite normalizedNodes_cases.
    unfold rootFrameOf. rewrite Hf. unfold normalizeFrames. rewrite Hnz.
    match goal with |- context [match Stated.sampledFrames tree with [] => ?a | _ :: _ => ?b end] =>
      replace (match Stated.sampledFrames tree with [] => a | _ :: _ => b end) with a
        by (destruct (Stated.sampledFrames tree); reflexivity)
    end.
    rewrite list_lookup_imap. change (map ?g ?l) with (g <$> l).
    rewrite list_lookup_fmap, preorder_unfold. simpl. intros [= <-].
    destruct tree as [r sr l v j ft cs]. simpl in Hf. subst ft.
    unfold Stated.flatAt, toRaw. simpl. f_equal. f_equal; lia.
Qed.

Lemma origin_fallback_witness :
  mappedNodes Examples.okButton None = mappedNodes Examples.okButton (Some Examples.windowFrame).
Proof.
  destruct (origin_fallback Examples.okButton) as [H _].
  eapply H. reflexivity.
Defined.

End OriginFacts.

(** ** More on the capture *)

Section BinaryFacts.
Import Ax.
Context {W : Type}.
Variable host : Host W.

Lemma findProjectRootFrom_found (rounds : nat) :
  forall current w root,
    findProjectRootFrom host rounds current w = Some root ->
    existsSync host (path_join host [root; "package.json"]) w = true /\
    exists k, (k < rounds)%nat /\ root = Nat.iter k (path_dirname host) current.
Proof.
  induction rounds as [|rounds IH]; intros current w root; simpl; [discriminate|].
  destruct (existsSync host (path_join host [current; "package.json"]) w) eqn:E.
  - intros [= <-]. split; [exact E|]. exists O. split; [lia | reflexivity].
  - intros H. destruct (IH _ _ _ H) as (Hex & k & Hk & ->). split; [exact Hex|].
    exists (Datatypes.S k). split; [lia|]. clear.
    induction k as [|k IHk]; simpl; [reflexivity | now rewrite IHk].
Qed.

(** [findProjectRoot] returns the working directory or one of its first five
    ancestors; when it is not the working directory taken as a fallback, it
    holds a [package.json]. *)
Theorem findProjectRoot_result (w : W) :
  (exists k, (k <= 5)%nat /\
             findProjectRoot host w = Nat.iter k (path_dirname host) (process_cwd host w)) /\
  (existsSync host (path_join host [findProjectRoot host w; "package.json"]) w = true \/
   (findProjectRoot host w = process_cwd host w /\
    forall k, (k <= 5)%nat ->
      existsSync host
        (path_join host [Nat.iter k (path_dirname host) (process_cwd host w); "package.json"])
        w = false)).
Proof.
  unfold findProjectRoot.
  destruct (findProjectRootFrom host 6 (process_cwd host w) w) as [root|] eqn:E; simpl.
  - destruct (findProjectRootFrom_found _ _ _ _ E) as (Hex & k & Hk & ->).
    split; [exists k; split; [lia | reflexivity] | now left].
  - split; [exists O; split; [lia | reflexivity]|]. right. split; [reflexivity|].
    assert (Hnone : forall rounds current,
              findProjectRootFrom host rounds current w = None ->
              forall k, (k < rounds)%nat ->
                existsSync host
                  (path_join host [Nat.iter k (path_dirname host) current; "package.json"])
                  w = false).
    { induction rounds as [|rounds IH]; intros current; simpl; [intros _ k Hk; lia|].
      destruct (existsSync host (path_join host [current; "package.json"]) w) eqn:Ex;
        [discriminate|].
      intros H [|k] Hk; [exact Ex|].
      specialize (IH _ H k ltac:(lia)).
      replace (Nat.iter (Datatypes.S k) (path_dirname host) current)
        with (Nat.iter k (path_dirname host) (path_dirname host current)); [exact IH|].
      clear. induction k as [|k IHk]; simpl; [reflexivity | now rewrite IHk]. }
    intros k Hk. apply (Hnone _ _ E). lia.
Qed.

(** [ensureAxSnapshotBinary] resolves only with a path that exists when it
    returns; it spawns nothing when the override, the packaged or the local
    binary exists, taken in that order, and otherwise spawns exactly one
    process, the release build of the helper; it rejects only after that
    build. *)
Theorem ensureAxSnapshotBinary_result (st st' : AxState W) (out : Thrown + string) :
  ensureAxSnapshotBinary host st = (st', out) ->
  let w := world st in
  let root := findProjectRoot host w in
  let packageDir := path_join host [root; "ios-runner"; "AXSnapshot"] in
  let packaged := path_join host [root; "dist"; "bin"; "axsnapshot"] in
  let localBuild := path_join host [packageDir; ".build"; "release"; "axsnapshot"] in
  let build := ("swift", ["build"; "-c"; "release"]) in
  (forall p, out = inr p -> existsSync host p (world st') = true) /\
  (spawned st' = spawned st \/ spawned st' = spawned st ++ [build]) /\
  (forall e, out = inl e -> spawned st' = spawned st ++ [build]) /\
  (forall envPath,
     env_AGENT_DEVICE_AX_BINARY host w = Some envPath -> envPath <> "" ->
     existsSync host envPath w = true -> st' = st /\ out = inr envPath) /\
  ((env_AGENT_DEVICE_AX_BINARY host w = None \/
    env_AGENT_DEVICE_AX_BINARY host w = Some "" \/
    exists envPath, env_AGENT_DEVICE_AX_BINARY host w = Some envPath /\
                    existsSync host envPath w = false) ->
   (existsSync host packaged w = true -> st' = st /\ out = inr packaged) /\
   (existsSync host packaged w = false -> existsSync host localBuild w = true ->
    st' = st /\ out = inr localBuild) /\
   (existsSync host packaged w = false -> existsSync host localBuild w = false ->
    spawned st' = spawned st ++ [build])).
Proof.
  intros Hrun w root packageDir packaged localBuild build.
  unfold ensureAxSnapshotBinary in Hrun.
  fold w root packageDir packaged localBuild in Hrun.
  set (envHit := match env_AGENT_DEVICE_AX_BINARY host w with
                 | Some envPath =>
                     if negb (JsString.isEmpty envPath) && existsSync host envPath w
                     then Some envPath else None
                 | None => None
                 end) in Hrun.
  assert (Hhit : forall p, envHit = Some p ->
            env_AGENT_DEVICE_AX_BINARY host w = Some p /\ p <> "" /\
            existsSync host p w = true).
  { subst envHit. intros p. destruct (env_AGENT_DEVICE_AX_BINARY host w) as [q|]; [|discriminate].
    destruct (JsString.isEmpty q) eqn:Eq; simpl; [discriminate|].
    destruct (existsSync host q w) eqn:Ex; [|discriminate].
    intros [= <-]. repeat split; [now apply isEmpty_false | exact Ex]. }
  assert (Hmiss : envHit = None ->
            env_AGENT_DEVICE_AX_BINARY host w = None \/
            env_AGENT_DEVICE_AX_BINARY host w = Some "" \/
            exists q, env_AGENT_DEVICE_AX_BINARY host w = Some q /\
                      existsSync host q w = false).
  { subst envHit. destruct (env_AGENT_DEVICE_AX_BINARY host w) as [q|]; [|now left].
    destruct (JsString.isEmpty q) eqn:Eq; simpl.
    - apply isEmpty_true in Eq. subst q. intros _. right. now left.
    - destruct (existsSync host q w) eqn:Ex; [discriminate|].
      intros _. right. right. now exists q. }
  assert (Hnohit : env_AGENT_DEVICE_AX_BINARY host w = None \/
                   env_AGENT_DEVICE_AX_BINARY host w = Some "" \/
                   (exists q, env_AGENT_DEVICE_AX_BINARY host w = Some q /\
                              existsSync host q w = false) -> envHit = None).
  { subst envHit. intros [-> | [-> | (q & -> & Hq)]]; [reflexivity | reflexivity|].
    rewrite Hq, andb_false_r. reflexivity. }
  destruct envHit as [p|] eqn:Ehit.
  { injection Hrun as <- <-. destruct (Hhit p eq_refl) as (Henv & Hne & Hex).
    split; [intros q [= <-]; exact Hex|]. split; [now left|].
    split; [discriminate|]. split.
    - intros q Hq _ _. rewrite Henv in Hq. injection Hq as <-. split; reflexivity.
    - intros H. apply Hnohit in H. discriminate. }
  destruct (existsSync host packaged w) eqn:Epk.
  { injection Hrun as <- <-.
    split; [intros q [= <-]; exact Epk|]. split; [now left|].
    split; [discriminate|]. split.
    - intros q Hq Hne Hex. exfalso.
      destruct (Hmiss eq_refl) as [H | [H | (q' & H & Hq')]]; rewrite H in Hq;
        [discriminate | injection Hq as <-; now apply Hne | injection Hq as <-; congruence].
    - intros _. split; [intros _; split; reflexivity|]. split; discriminate. }
  destruct (existsSync host localBuild w) eqn:Elb.
  { injection Hrun as <- <-.
    split; [intros q [= <-]; exact Elb|]. split; [now left|].
    split; [discriminate|]. split.
    - intros q Hq Hne Hex. exfalso.
      destruct (Hmiss eq_refl) as [H | [H | (q' & H & Hq')]]; rewrite H in Hq;
        [discriminate | injection Hq as <-; now apply Hne | injection Hq as <-; congruence].
    - intros _. split; [discriminate|]. split; [intros _ _; split; reflexivity | discriminate]. }
  unfold await in Hrun.
  pose proof (spawn_recorded host "swift" ["build"; "-c"; "release"]
                {| cwd := Some packageDir; allowFailure := true |} st) as Hsp.
  destruct (spawn host "swift" _ _ st) as [st1 [e|result]]; simpl in Hsp.
  { injection Hrun as <- <-.
    split; [discriminate|]. split; [now right|]. split; [intros _ _; exact Hsp|]. split.
    - intros q Hq Hne Hex. exfalso.
      destruct (Hmiss eq_refl) as [H | [H | (q' & H & Hq')]]; rewrite H in Hq;
        [discriminate | injection Hq as <-; now apply Hne | injection Hq as <-; congruence].
    - intros _. split; [discriminate|]. split; [discriminate | intros _ _; exact Hsp]. }
  destruct (negb (exitCode result =? 0) || negb (existsSync host localBuild (world st1)))
    eqn:Ebad; injection Hrun as <- <-.
  - split; [discriminate|]. split; [now right|]. split; [intros _ _; exact Hsp|]. split.
    + intros q Hq Hne Hex. exfalso.
      destruct (Hmiss eq_refl) as [H | [H | (q' & H & Hq')]]; rewrite H in Hq;
        [discriminate | injection Hq as <-; now apply Hne | injection Hq as <-; congruence].
    + intros _. split; [discriminate|]. split; [discriminate | intros _ _; exact Hsp].
  - apply orb_false_iff in Ebad as [_ Hex1]. apply negb_false_iff in Hex1.
    split; [intros q [= <-]; exact Hex1|]. split; [now right|].
    split; [discriminate|]. split.
    + intros q Hq Hne Hex. exfalso.
      destruct (Hmiss eq_refl) as [H | [H | (q' & H & Hq')]]; rewrite H in Hq;
        [discriminate | injection Hq as <-; now apply Hne | injection Hq as <-; congruence].
    + intros _. split; [discriminate|]. split; [discriminate | intros _ _; exact Hsp].
Qed.

End BinaryFacts.

Section HelperRuns.
Import Ax.
Context {W : Type}.
Variable host : Host W.

Lemma retryLoop_spawns (binary : string) (options : SnapshotOptions) (fuel : nat) :
  forall attempt lastError st st' events out,
    Retry.retryLoop (axRuntime host) (attemptOnce host binary options) axRetryOptions
      fuel attempt lastError [] st = (st', events, out) ->
    spawned st' = spawned st ++ replicate (Retry.invocations events) (binary, []).
Proof.
  induction fuel as [|fuel IH]; intros attempt lastError st st' events out; simpl.
  - intros [= <- <- _]. now rewrite app_nil_r.
  - destruct (attempt <=? Retry.attemptsOf axRetryOptions).
    2:{ intros [= <- <- _]. now rewrite app_nil_r. }
    destruct (attemptOnce_outcome host binary options st) as [Hsp _].
    destruct (attemptOnce host binary options st) as [s1 [err|v]]; simpl in Hsp.
    2:{ intros [= <- <- _]. cbn [app]. rewrite invocations_invoked. exact Hsp. }
    destruct (Retry.attemptsOf axRetryOptions <=? attempt).
    { intros [= <- <- _]. cbn [app]. rewrite invocations_invoked. exact Hsp. }
    destruct (Retry.vetoed axRetryOptions err attempt).
    { intros [= <- <- _]. cbn [app]. rewrite invocations_invoked. exact Hsp. }
    destruct (Retry.Math_random (timer host) (world s1)) as [w2 rnd] eqn:Ernd.
    rewrite retryLoop_prefix.
    match goal with
    | |- context [Retry.retryLoop _ _ _ fuel ?a ?l [] ?s] =>
        destruct (Retry.retryLoop (axRuntime host) (attemptOnce host binary options)
                    axRetryOptions fuel a l [] s) as [[s3 events3] out3] eqn:E
    end.
    intros [= <- <- _]. apply IH in E. rewrite E. unfold onWorld.
    cbn [app spawned]. rewrite invocations_invoked, invocations_slept, Hsp.
    cbn [replicate]. rewrite <- app_assoc. reflexivity.
Qed.

(** On an iOS simulator, once the helper binary is located, [snapshotAx]
    runs that binary at least once and at most three times, without
    arguments, and spawns nothing else, whatever the outcome. *)
Theorem snapshotAx_helper_runs (device : DeviceInfo) (options : SnapshotOptions)
    (st0 st1 st' : AxState W) (binary : string) (out : Thrown + list RawSnapshotNode) :
  Device.platform device = "ios" -> Device.kind device = "simulator" ->
  ensureAxSnapshotBinary host st0 = (st1, inr binary) ->
  snapshotAx host device options st0 = (st', out) ->
  exists k, (1 <= k <= 3)%nat /\
            spawned st' = spawned st1 ++ replicate k (binary, []).
Proof.
  intros Hp Hk Hensure. unfold snapshotAx. rewrite Hp, Hk. simpl.
  unfold capture, await. rewrite Hensure. unfold Retry.withRetry.
  destruct (Retry.withRetryTraced (axRuntime host) (attemptOnce host binary options)
              axRetryOptions st1) as [[st2 events] res] eqn:Erun.
  assert (Hst : st' = st2 -> exists k, (1 <= k <= 3)%nat /\
                  spawned st' = spawned st1 ++ replicate k (binary, [])).
  { intros ->. exists (Retry.invocations events). split.
    - pose proof (retryLoop_invocations _ _ _ _ _ _ _ _ _ _ Erun) as Hmax.
      change (Retry.attemptsOf axRetryOptions - 1 + 1) with 3 in Hmax.
      destruct (retryLoop_head (axRuntime host) (attemptOnce host binary options)
                  axRetryOptions 2 1 None st1 st2 events res) as [f Hf];
        [discriminate | exact Erun |].
      destruct events as [|e rest]; [discriminate|]. injection Hf as ->.
      rewrite invocations_invoked in *. lia.
    - exact (retryLoop_spawns binary options _ _ _ _ _ _ _ Erun). }
  destruct res as [e|result]; [intros [= <- _]; now apply Hst|].
  destruct (decodePayload host (stdout result)) as [e|[tree origin]];
    intros [= <- _]; now apply Hst.
Qed.

End HelperRuns.

Section CaptureInstances.
Import Ax.

Lemma snapshotAx_helper_runs_witness :
  exists k, (1 <= k <= 3)%nat /\
    spawned (snapshotAx Examples.scriptedHost Examples.simulator Examples.noTrace
               (Examples.startOf [Examples.denied])).1 =
    replicate k ("/opt/axsnapshot", []).
Proof.
  exact (snapshotAx_helper_runs Examples.scriptedHost Examples.simulator Examples.noTrace
           (Examples.startOf [Examples.denied]) (Examples.startOf [Examples.denied])
           _ "/opt/axsnapshot" _ eq_refl eq_refl eq_refl eq_refl).
Defined.

Lemma findProjectRoot_result_witness :
  findProjectRoot Examples.scriptedHost [] = "/work".
Proof.
  destruct (findProjectRoot_result Examples.scriptedHost []) as [_ [H | [H _]]].
  - reflexivity.
  - exact H.
Defined.

Lemma ensureAxSnapshotBinary_result_witness :
  ensureAxSnapshotBinary Examples.scriptedHost (Examples.startOf []) =
  (Examples.startOf [], inr "/opt/axsnapshot").
Proof.
  destruct (ensureAxSnapshotBinary_result Examples.scriptedHost (Examples.startOf [])
              (ensureAxSnapshotBinary Examples.scriptedHost (Examples.startOf [])).1
              (ensureAxSnapshotBinary Examples.scriptedHost (Examples.startOf [])).2
              eq_refl) as (_ & _ & _ & H & _).
  destruct (H "/opt/axsnapshot" eq_refl) as [H1 H2]; [discriminate | reflexivity |].
  reflexivity.
Defined.

End CaptureInstances.

(** ** More on the session daemon *)

Section StepFacts.
Import Daemon Keeps.
Context {W : Type}.
Variable R : DaemonState W -> DaemonState W -> Prop.
Hypothesis R_refl : forall st, R st st.
Hypothesis R_trans : forall a b c, R a b -> R b c -> R a c.

Lemma preserves_resolve {A} (a : A) : preserves R (resolve a).
Proof. intros st st' r [= <- _]. apply R_refl. Qed.

Lemma preserves_throw {A} (e : Thrown) : preserves R (throw (A := A) e).
Proof. intros st st' r [= <- _]. apply R_refl. Qed.

Lemma preserves_fail (code message : string) : preserves R (fail code message).
Proof. apply preserves_resolve. Qed.

Lemma preserves_noSnapshot : preserves R noSnapshot.
Proof. apply preserves_resolve. Qed.

Lemma preserves_await {A B} (m : Async (DaemonState W) A) (k : A -> Async (DaemonState W) B) :
  preserves R m -> (forall a, preserves R (k a)) -> preserves R (await m k).
Proof.
  intros Hm Hk st st' r. unfold await. destruct (m st) as [st1 [e|a]] eqn:E.
  - intros [= <- _]. exact (Hm _ _ _ E).
  - intros H. eapply R_trans; [exact (Hm _ _ _ E) | exact (Hk a _ _ _ H)].
Qed.

Lemma preserves_tryCatch {A} (m : Async (DaemonState W) A)
    (h : Thrown -> Async (DaemonState W) A) :
  preserves R m -> (forall e, preserves R (h e)) -> preserves R (tryCatch m h).
Proof.
  intros Hm Hh st st' r. unfold tryCatch. destruct (m st) as [st1 [e|a]] eqn:E.
  - intros H. eapply R_trans; [exact (Hm _ _ _ E) | exact (Hh e _ _ _ H)].
  - intros [= <- _]. exact (Hm _ _ _ E).
Qed.

Lemma preserves_sessionsGet (key : string) : preserves R (sessionsGet key).
Proof. intros st st' r [= <- _]. apply R_refl. Qed.

Lemma preserves_now (ops : Platform W) : preserves R (now ops).
Proof. intros st st' r [= <- _]. apply R_refl. Qed.

Lemma preserves_call {A} (ev : Event) (m : Async W A) :
  blindToCalls R -> preserves R (call ev m).
Proof.
  intros Hblind st st' r. unfold call. destruct (m (world st)) as [w r'].
  intros [= <- _]. apply Hblind.
Qed.

End StepFacts.

Section StepRelations.
Import Daemon Keeps.
Context {W : Type}.

Lemma sameSessions_refl (st : DaemonState W) : sameSessions st st.
Proof. reflexivity. Qed.

Lemma sameSessions_trans (a b c : DaemonState W) :
  sameSessions a b -> sameSessions b c -> sameSessions a c.
Proof. unfold sameSessions. congruence. Qed.

Lemma sameSessions_blind : blindToCalls (W := W) sameSessions.
Proof. intros st w j. reflexivity. Qed.

Lemma sameElsewhere_refl (key : string) (st : DaemonState W) : sameElsewhere key st st.
Proof. intros k _. reflexivity. Qed.

Lemma sameElsewhere_trans (key : string) (a b c : DaemonState W) :
  sameElsewhere key a b -> sameElsewhere key b c -> sameElsewhere key a c.
Proof. intros H1 H2 k Hk. now rewrite (H2 k Hk), (H1 k Hk). Qed.

Lemma sameElsewhere_blind (key : string) : blindToCalls (W := W) (sameElsewhere key).
Proof. intros st w j k _. reflexivity. Qed.

Lemma sameSessions_elsewhere (key : string) {A} (m : Async (DaemonState W) A) :
  preserves sameSessions m -> preserves (sameElsewhere key) m.
Proof. intros H st st' r E k _. now rewrite (H st st' r E). Qed.

Lemma elsewhere_set (key : string) (s : SessionState) :
  preserves (W := W) (sameElsewhere key) (sessionsSet key s).
Proof. intros st st' r [= <- _] k Hk. simpl. now apply lookup_insert_ne. Qed.

Lemma elsewhere_delete (key : string) :
  preserves (W := W) (sameElsewhere key) (sessionsDelete key).
Proof. intros st st' r [= <- _] k Hk. simpl. now apply lookup_delete_ne. Qed.

End StepRelations.

(** Steps through a handler: every sequencing, branch and collaborator call
    keeps a relation that is reflexive, transitive and blind to calls. *)
Ltac keep_step Hrefl Htrans Hblind :=
  lazymatch goal with
  | |- Keeps.preserves _ (await _ _) =>
      apply (preserves_await _ Htrans); [| intros ?]
  | |- Keeps.preserves _ (tryCatch _ _) =>
      apply (preserves_tryCatch _ Htrans); [| intros ?]
  | |- Keeps.preserves _ (resolve _) => apply (preserves_resolve _ Hrefl)
  | |- Keeps.preserves _ (throw _) => apply (preserves_throw _ Hrefl)
  | |- Keeps.preserves _ (Daemon.fail _ _) => apply (preserves_fail _ Hrefl)
  | |- Keeps.preserves _ Daemon.noSnapshot => apply (preserves_noSnapshot _ Hrefl)
  | |- Keeps.preserves _ (Daemon.sessionsGet _) => apply (preserves_sessionsGet _ Hrefl)
  | |- Keeps.preserves _ (Daemon.now _) => apply (preserves_now _ Hrefl)
  | |- Keeps.preserves _ (Daemon.call _ _) => apply (preserves_call _ _ _ Hblind)
  | |- Keeps.preserves _ (Daemon.dispatch _ _ _ _ _ _ _) => unfold Daemon.dispatch
  | |- Keeps.preserves _ (Daemon.resolveTarget _ _) => unfold Daemon.resolveTarget
  | |- Keeps.preserves _ (match ?x with _ => _ end) => destruct x
  end.

Ltac keep Hrefl Htrans Hblind := repeat keep_step Hrefl Htrans Hblind.

Section HandlerFacts.
Import Daemon Keeps.
Context {W : Type}.
Variable platformOps : Platform W.
Variable daemonToken : string.
Variable logPath : string.

Local Abbreviation handle := (handleRequest platformOps daemonToken logPath).

Lemma click_keeps (req : DaemonRequest) (key : string) :
  preserves sameSessions (handleClick platformOps logPath req key).
Proof.
  unfold handleClick.
  keep (@sameSessions_refl W) (@sameSessions_trans W) (@sameSessions_blind W).
Qed.

Lemma fillRef_keeps (req : DaemonRequest) (key first : string) (ps : list string) :
  preserves sameSessions (handleFillRef platformOps logPath req key first ps).
Proof.
  unfold handleFillRef.
  keep (@sameSessions_refl W) (@sameSessions_trans W) (@sameSessions_blind W).
Qed.

Lemma other_keeps (req : DaemonRequest) (key : string) :
  preserves sameSessions (handleOther platformOps logPath req key).
Proof.
  unfold handleOther.
  keep (@sameSessions_refl W) (@sameSessions_trans W) (@sameSessions_blind W).
Qed.

Lemma get_pure (req : DaemonRequest) (key : string) :
  preserves eq (handleGet (W := W) req key).
Proof.
  unfold handleGet.
  keep (@eq_refl (DaemonState W)) (@eq_trans (DaemonState W)) tt.
Qed.

Lemma sessionList_pure : preserves eq (handleSessionList (W := W)).
Proof. intros st st' r [= <- _]. reflexivity. Qed.

Lemma open_keeps (req : DaemonRequest) (key : string) :
  preserves (sameElsewhere key) (handleOpen platformOps logPath req key).
Proof.
  unfold handleOpen.
  keep (@sameElsewhere_refl W key) (@sameElsewhere_trans W key) (@sameElsewhere_blind W key);
    apply elsewhere_set.
Qed.

Lemma close_keeps (req : DaemonRequest) (key : string) :
  preserves (sameElsewhere key) (handleClose platformOps logPath req key).
Proof.
  unfold handleClose, closeApp, stopRunner.
  keep (@sameElsewhere_refl W key) (@sameElsewhere_trans W key) (@sameElsewhere_blind W key);
    apply elsewhere_delete.
Qed.

Lemma snapshot_keeps (req : DaemonRequest) (key : string) :
  preserves (sameElsewhere key) (handleSnapshot platformOps logPath req key).
Proof.
  unfold handleSnapshot.
  keep (@sameElsewhere_refl W key) (@sameElsewhere_trans W key) (@sameElsewhere_blind W key);
    apply elsewhere_set.
Qed.

End HandlerFacts.

Section RequestFacts.
Import Daemon Keeps.
Context {W : Type}.
Variable platformOps : Platform W.
Variable daemonToken : string.
Variable logPath : string.

Local Abbreviation handle := (handleRequest platformOps daemonToken logPath).

(** A request with another token than the daemon's is answered
    [UNAUTHORIZED] whatever its command is, and nothing happens: no session
    is read or changed and no collaborator is called. *)
Theorem unauthorized_request (req : DaemonRequest) (st : DaemonState W) :
  token req <> daemonToken ->
  handle req st = (st, inr (Fail "UNAUTHORIZED" "Invalid token")).
Proof.
  intros H. unfold handleRequest.
  destruct (String.eqb_spec (token req) daemonToken) as [E|_]; [contradiction|].
  reflexivity.
Qed.

Lemma handle_elsewhere (req : DaemonRequest) :
  preserves (sameElsewhere (sessionNameOf req)) (handle req).
Proof.
  unfold handleRequest.
  keep (@sameElsewhere_refl W (sessionNameOf req))
       (@sameElsewhere_trans W (sessionNameOf req))
       (@sameElsewhere_blind W (sessionNameOf req)).
  all: first
         [ apply open_keeps | apply close_keeps | apply snapshot_keeps
         | apply sameSessions_elsewhere;
           first [ apply click_keeps | apply fillRef_keeps | apply other_keeps
                 | intros st st' r E;
                   first [ now rewrite (sessionList_pure st st' r E)
                         | now rewrite (get_pure _ _ st st' r E) ] ] ].
Qed.

(** Sessions are isolated: whatever the request and its outcome, the
    entries of the sessions under other names than the request's are left
    as they were. *)
Theorem sessions_isolated (req : DaemonRequest) (st st' : DaemonState W)
    (out : Thrown + DaemonResponse) (other : string) :
  handle req st = (st', out) ->
  other <> sessionNameOf req ->
  sessions st' !! other = sessions st !! other.
Proof. intros Hrun Hother. exact (handle_elsewhere req st st' out Hrun other Hother). Qed.

Lemma handle_sameSessions (req : DaemonRequest) :
  command req <> "open" -> command req <> "close" -> command req <> "snapshot" ->
  preserves sameSessions (handle req).
Proof.
  intros H1 H2 H3. unfold handleRequest.
  destruct (negb (String.eqb (token req) daemonToken));
    [apply (preserves_fail _ (@sameSessions_refl W))|].
  destruct (String.eqb_spec (command req) "session_list") as [_|_].
  { intros st st' r E. now rewrite (sessionList_pure st st' r E). }
  destruct (String.eqb_spec (command req) "open") as [E|_]; [contradiction|].
  destruct (String.eqb_spec (command req) "close") as [E|_]; [contradiction|].
  destruct (String.eqb_spec (command req) "snapshot") as [E|_]; [contradiction|].
  destruct (String.eqb (command req) "click"); [apply click_keeps|].
  destruct (if String.eqb (command req) "fill" then refForm req else None) as [[first ps]|];
    [apply fillRef_keeps|].
  destruct (String.eqb (command req) "get"); [|apply other_keeps].
  intros st st' r E. now rewrite (get_pure _ _ st st' r E).
Qed.

(** Only [open], [close] and [snapshot] ever change the session map; and
    [session_list] and [get] change nothing at all: they call no
    collaborator and leave the whole state of the daemon as it was. *)
Theorem only_lifecycle_commands_write (req : DaemonRequest) (st st' : DaemonState W)
    (out : Thrown + DaemonResponse) :
  handle req st = (st', out) ->
  (command req <> "open" -> command req <> "close" -> command req <> "snapshot" ->
   sessions st' = sessions st) /\
  (command req = "session_list" \/ command req = "get" ->
   st' = st /\ exists response, out = inr response).
Proof.
  intros Hrun. split.
  - intros H1 H2 H3. exact (handle_sameSessions req H1 H2 H3 st st' out Hrun).
  - intros Hcmd. unfold handleRequest in Hrun.
    destruct (negb (String.eqb (token req) daemonToken)).
    { injection Hrun as <- <-. split; [reflexivity | now eexists]. }
    destruct Hcmd as [Hc|Hc]; rewrite Hc in Hrun; simpl in Hrun.
    + injection Hrun as <- <-. split; [reflexivity | now eexists].
    + split; [symmetry; exact (get_pure _ _ st st' out Hrun)|].
      clear -Hrun. unfold handleGet in Hrun.
      destruct (negb _ && negb _); [injection Hrun as _ <-; now eexists|].
      unfold await, sessionsGet in Hrun.
      repeat (match type of Hrun with
              | context [match ?x with _ => _ end] => destruct x
              end; try (injection Hrun as _ <-; now eexists)).
Qed.

End RequestFacts.

Section LifecycleFacts.
Import Daemon Keeps.
Context {W : Type}.
Variable platformOps : Platform W.
Variable daemonToken : string.
Variable logPath : string.

Local Abbreviation handle := (handleRequest platformOps daemonToken logPath).

Lemma handle_open (req : DaemonRequest) :
  token req = daemonToken -> command req = "open" ->
  handle req = handleOpen platformOps logPath req (sessionNameOf req).
Proof.
  intros Ht Hc. unfold handleRequest. rewrite (authorised _ req Ht), Hc. reflexivity.
Qed.

Lemma handle_click (req : DaemonRequest) :
  token req = daemonToken -> command req = "click" ->
  handle req = handleClick platformOps logPath req (sessionNameOf req).
Proof.
  intros Ht Hc. unfold handleRequest. rewrite (authorised _ req Ht), Hc. reflexivity.
Qed.

(** [snapshot] on an existing session does not resolve a device again: it
    dispatches the platform snapshot on the session's device; when that
    fails the error is thrown on and the stored snapshot stays; when it
    succeeds the entry keeps its device, creation time and app and its
    snapshot is replaced by the returned nodes with their refs attached,
    the same nodes the response carries. *)
Theorem snapshot_replaces (req : DaemonRequest) (st : DaemonState W) (sess : SessionState)
    (w2 : W) (r : Thrown + option DispatchData) :
  token req = daemonToken -> command req = "snapshot" ->
  sessions st !! sessionNameOf req = Some sess ->
  dispatchCommand platformOps (device sess) "snapshot" [] (flags req ≫= out)
    (contextFromFlags logPath (flags req) (appBundleId sess)) (world st) = (w2, r) ->
  let key := sessionNameOf req in
  match r with
  | inl e =>
      handle req st =
      ({| sessions := sessions st; world := w2;
          journal := journal st ++ [Dispatch (device sess) "snapshot" []] |}, inl e)
  | inr data =>
      let attached := Snapshot.attachRefs (default [] (data ≫= data_nodes)) in
      handle req st =
      ({| sessions :=
            <[key := {| name := key; device := device sess; createdAt := createdAt sess;
                        appBundleId := appBundleId sess;
                        snapshot := Some {| nodes := attached;
                                            truncated := data ≫= data_truncated;
                                            s_createdAt := Date_now platformOps w2 |} |}]>
              (sessions st);
          world := w2;
          journal := journal st ++ [Dispatch (device sess) "snapshot" []; SessionSet key] |},
       inr (Ok (SnapshotNodes attached (default false (data ≫= data_truncated)))))
  end.
Proof.
  intros Ht Hc Hsess Hdisp key. subst key.
  destruct r as [e|data]; cbv zeta;
    rewrite (handle_snapshot _ _ _ req Ht Hc);
    unfold handleSnapshot, await at 1, sessionsGet; rewrite Hsess;
    unfold await at 1, resolve; unfold await at 1, dispatch, call; simpl;
    rewrite Hdisp; [reflexivity|].
  unfold await, now, sessionsSet, resolve. simpl. now rewrite <- app_assoc.
Qed.

(** What [open] does, step by step. The target device is resolved from the
    flags; if that fails the error is thrown on and nothing else happens.
    On iOS the app is resolved from the first positional on the resolved
    device, and a failure there only leaves the app undefined. The platform
    [open] is dispatched on the resolved device with the positionals of the
    request; if it fails the error is thrown on and the session map stays
    as it was. Otherwise the entry under the session's name becomes a fresh
    one, without a snapshot, holding the resolved device, the resolved app
    and the time read after the platform [open], and the answer carries the
    session's name. *)
Theorem open_creates (req : DaemonRequest) (st : DaemonState W) (w1 : W)
    (r1 : Thrown + DeviceInfo) :
  token req = daemonToken -> command req = "open" ->
  resolveTargetDevice platformOps (default noFlags (flags req)) (world st) = (w1, r1) ->
  let key := sessionNameOf req in
  let args := default [] (positionals req) in
  let target := default "" (positional req 0) in
  match r1 with
  | inl e =>
      handle req st =
      ({| sessions := sessions st; world := w1;
          journal := journal st ++ [TargetResolved] |}, inl e)
  | inr dev =>
      let ios := String.eqb (Device.platform dev) "ios" in
      let resolved := resolveIosApp platformOps dev target w1 in
      let w2 := if ios then resolved.1 else w1 in
      let app :=
        if ios then match resolved.2 with inr a => Some a | inl _ => None end
        else None in
      let events :=
        [TargetResolved] ++ (if ios then [AppResolved dev target] else [])
        ++ [Dispatch dev "open" args] in
      let opened :=
        dispatchCommand platformOps dev "open" args (flags req ≫= out)
          (contextFromFlags logPath (flags req) app) w2 in
      match opened.2 with
      | inl e =>
          handle req st =
          ({| sessions := sessions st; world := opened.1;
              journal := journal st ++ events |}, inl e)
      | inr _ =>
          handle req st =
          ({| sessions :=
                <[key := {| name := key; device := dev;
                            createdAt := Date_now platformOps opened.1;
                            appBundleId := app; snapshot := None |}]> (sessions st);
              world := opened.1;
              journal := journal st ++ events ++ [SessionSet key] |},
           inr (Ok (SessionName key)))
      end
  end.
Proof.
  intros Ht Hc Hdev key args target. subst key args target.
  rewrite (handle_open req Ht Hc).
  unfold handleOpen, await, tryCatch, resolveTarget, dispatch, call, now, sessionsSet,
    resolve.
  rewrite Hdev. destruct r1 as [e|dev]; [reflexivity|]. cbv zeta. cbn [world journal sessions].
  destruct (String.eqb (Device.platform dev) "ios"); cbn [world journal sessions].
  - destruct (resolveIosApp platformOps dev _ w1) as [w2 [e|a]];
      cbn [fst snd world journal sessions];
      destruct (dispatchCommand platformOps dev "open" _ _ _ w2) as [w3 [e'|d]];
      cbn [fst snd world journal sessions]; rewrite <- ?app_assoc; reflexivity.
  - destruct (dispatchCommand platformOps dev "open" _ _ _ w1) as [w3 [e'|d]];
      cbn [fst snd world journal sessions]; rewrite <- ?app_assoc; reflexivity.
Qed.

End LifecycleFacts.

Section ClickFacts.
Import Daemon.
Context {W : Type}.
Variable platformOps : Platform W.
Variable daemonToken : string.
Variable logPath : string.

Local Abbreviation handle := (handleRequest platformOps daemonToken logPath).

(** [click] either answers with an error and does nothing at all, or the
    session has a snapshot in which the normalised ref names a node with a
    rect, and then exactly one platform command is dispatched: [press] at
    the centre of that rect on the session's device; the session map is
    never changed. *)
Theorem click_presses_center (req : DaemonRequest) (st st' : DaemonState W)
    (out : Thrown + DaemonResponse) :
  token req = daemonToken -> command req = "click" ->
  handle req st = (st', out) ->
  (st' = st /\
   exists code message,
     out = inr (Fail code message) /\ (code = "INVALID_ARGS" \/ code = "COMMAND_FAILED")) \/
  (exists sess snap r node box,
     sessions st !! sessionNameOf req = Some sess /\ snapshot sess = Some snap /\
     Snapshot.normalizeRef (default "" (positional req 0)) = Some r /\
     Snapshot.findNodeByRef (nodes snap) r = Some node /\ rect node = Some box /\
     let c := Snapshot.centerOfRect box in
     sessions st' = sessions st /\
     journal st' = journal st ++
       [Dispatch (device sess) "press"
          [numberToString platformOps c.1; numberToString platformOps c.2]] /\
     (out = inr (Ok (RefPoint r c.1 c.2)) \/ exists e, out = inl e)).
Proof.
  intros Ht Hc Hrun. rewrite (handle_click _ _ _ req Ht Hc) in Hrun.
  unfold handleClick, await at 1, sessionsGet in Hrun.
  destruct (sessions st !! sessionNameOf req) as [sess|] eqn:Hsess; simpl in Hrun.
  2:{ injection Hrun as <- <-. left. split; [reflexivity|]. eexists _, _. split; eauto. }
  destruct (snapshot sess) as [snap|] eqn:Hsnap; simpl in Hrun.
  2:{ injection Hrun as <- <-. left. split; [reflexivity|]. eexists _, _. split; eauto. }
  destruct (Snapshot.normalizeRef (default "" (positional req 0))) as [r|] eqn:Hr.
  2:{ injection Hrun as <- <-. left. split; [reflexivity|]. eexists _, _. split; eauto. }
  destruct (JsString.isEmpty r).
  { injection Hrun as <- <-. left. split; [reflexivity|]. eexists _, _. split; eauto. }
  destruct (Snapshot.findNodeByRef (nodes snap) r) as [node|] eqn:Hnode; simpl in Hrun.
  2:{ injection Hrun as <- <-. left. split; [reflexivity|]. eexists _, _. split; eauto. }
  destruct (rect node) as [box|] eqn:Hbox; simpl in Hrun.
  2:{ injection Hrun as <- <-. left. split; [reflexivity|]. eexists _, _. split; eauto. }
  right. exists sess, snap, r, node, box.
  split; [reflexivity|]. split; [exact Hsnap|]. split; [reflexivity|].
  split; [exact Hnode|]. split; [exact Hbox|].
  unfold Snapshot.centerOfRect in *. cbn [fst snd].
  unfold await, dispatch, call, resolve in Hrun.
  destruct (dispatchCommand platformOps (device sess) "press" _ _ _ (world st))
    as [w [e|d]]; injection Hrun as <- <-; simpl;
    (split; [reflexivity|]); (split; [reflexivity|]); [right; now exists e | now left].
Qed.

(** The first text of a node, as [get text] computes it, is the label of
    the node as the text form of the snapshot computes it. *)
Lemma firstText_labelOf (node : SnapshotNode) :
  firstText node = Output.labelOf node.
Proof.
  unfold firstText, Output.labelOf, Output.trimmedOr.
  change (?f <$> [?a; ?b; ?c]) with [f a; f b; f c].
  destruct (label node) as [l|], (value node) as [v|], (identifier node) as [i|];
    rewrite ?filter_cons, ?filter_nil;
    repeat case_decide;
    repeat match goal with
           | H : JsString.isEmpty ?s = false |- _ => rewrite H in *
           | H : JsString.isEmpty ?s <> false |- _ =>
               apply not_false_is_true in H; rewrite H in *
           end;
    try reflexivity; try discriminate; try congruence.
Qed.

(** [session_list] answers with one summary for each session of the map,
    and with nothing else. *)
Theorem session_list_complete (req : DaemonRequest) (st : DaemonState W) :
  token req = daemonToken -> command req = "session_list" ->
  exists l,
    handle req st = (st, inr (Ok (SessionList l))) /\
    length l = size (sessions st) /\
    forall s, In s l <->
              exists key sess, sessions st !! key = Some sess /\ s = summary sess.
Proof.
  intros Ht Hc. unfold handleRequest. rewrite (authorised _ req Ht), Hc. simpl.
  eexists. split; [reflexivity|]. split.
  - now rewrite length_fmap, length_fmap, length_map_to_list.
  - intros s. rewrite <- list_elem_of_In, list_elem_of_fmap. split.
    + intros (sess & -> & Hin). apply list_elem_of_fmap in Hin as ([key sess'] & -> & Hin).
      apply elem_of_map_to_list in Hin. now exists key, sess'.
    + intros (key & sess & Hs & ->). exists sess. split; [reflexivity|].
      apply list_elem_of_fmap. exists (key, sess). split; [reflexivity|].
      now apply elem_of_map_to_list.
Qed.

End ClickFacts.

Section OutputFacts.
Import JsString Output.

Lemma trimEnd_keeps (a : string) (c : ascii) (b : string) :
  Ascii.is_space c = false ->
  trimEnd (a +:+ String c b) = a +:+ String c (trimEnd b).
Proof.
  intros Hc. induction a as [|x a IH].
  - rewrite !app_nil_l. simpl. rewrite Hc. now destruct (trimEnd b).
  - rewrite !app_cons. cbn [trimEnd]. rewrite IH.
    destruct a; [rewrite app_nil_l | rewrite app_cons]; reflexivity.
Qed.

Lemma formatRole_normalized (t1 t2 : string) :
  toLowerCase (removeAllCI "xcuielementtype" t1) =
  toLowerCase (removeAllCI "xcuielementtype" t2) ->
  formatRole t1 = formatRole t2.
Proof. unfold formatRole. now intros ->. Qed.

(** The printed role is never empty, is in lower case, and does not depend
    on the case of the type it is computed from. *)
Theorem formatRole_lowercase (type : string) :
  formatRole type <> "" /\
  toLowerCase (formatRole type) = formatRole type /\
  formatRole (toLowerCase type) = formatRole type.
Proof.
  split; [|split].
  - unfold formatRole.
    repeat (destruct (String.eqb _ _); [discriminate|]).
    destruct (toLowerCase _); simpl; discriminate.
  - unfold formatRole.
    repeat (destruct (String.eqb _ _); [reflexivity|]).
    destruct (isEmpty _); [reflexivity | apply toLowerCase_idem].
  - apply formatRole_normalized. apply removeAllFrom_lower.
Qed.

(** A printed line carries no trailing white space, and the line of a node
    with a ref begins with two spaces for each level of depth (none for a
    negative depth), followed by the ref sign. *)
Theorem formatLine_layout (node : SnapshotNode) :
  trimEnd (formatLine node) = formatLine node /\
  forall r, ref node = Some r -> r <> "" ->
    exists tail,
      formatLine node =
      indentOf (Z.to_nat (Z.max 0 (default 0 (depth node)))) +:+ "@" +:+ tail.
Proof.
  split; [apply trimEnd_idem|].
  intros r Hr Hne. unfold formatLine, refText. rewrite Hr.
  destruct r as [|c r]; [congruence|]. cbn [isEmpty].
  rewrite !app_cons, app_nil_l. rewrite trimEnd_keeps by reflexivity.
  eexists. rewrite app_cons, app_nil_l. reflexivity.
Qed.

End OutputFacts.

Section DaemonInstances.
Import Daemon.

Local Abbreviation served := (handleRequest Examples.closeFails "secret" "/tmp/daemon.log").

(** A request with a wrong token is refused and leaves both sessions. *)
Lemma unauthorized_request_witness :
  served Cases.wrongToken Cases.twoSessions =
  (Cases.twoSessions, inr (Fail "UNAUTHORIZED" "Invalid token")).
Proof.
  apply (unauthorized_request Examples.closeFails "secret" "/tmp/daemon.log").
  vm_compute. discriminate.
Defined.

(** Closing "work" leaves the session "default" as it was. *)
Lemma sessions_isolated_witness :
  sessions (served (Examples.requestIn "work" "close" []) Cases.twoSessions).1 !! "default" =
  Some Examples.settingsSession.
Proof.
  pose (run := served (Examples.requestIn "work" "close" []) Cases.twoSessions).
  assert (Hother : "default" <> sessionNameOf (Examples.requestIn "work" "close" []))
    by (vm_compute; discriminate).
  transitivity (sessions Cases.twoSessions !! "default"); [|reflexivity].
  exact (sessions_isolated Examples.closeFails "secret" "/tmp/daemon.log"
           (Examples.requestIn "work" "close" []) Cases.twoSessions run.1 run.2 "default"
           (surjective_pairing run) Hother).
Defined.

(** [back] leaves the session map alone. *)
Lemma only_lifecycle_commands_write_witness :
  sessions (served (Examples.requestIn "work" "back" []) Cases.twoSessions).1 =
  sessions Cases.twoSessions.
Proof.
  pose (run := served (Examples.requestIn "work" "back" []) Cases.twoSessions).
  destruct (only_lifecycle_commands_write Examples.closeFails "secret" "/tmp/daemon.log"
              (Examples.requestIn "work" "back" []) Cases.twoSessions run.1 run.2
              (surjective_pairing run)) as [H _].
  apply H; vm_compute; discriminate.
Defined.

(** A platform snapshot without nodes replaces the snapshot of "work" by an
    empty one. *)
Lemma snapshot_replaces_witness :
  (served (Examples.requestIn "work" "snapshot" []) Cases.twoSessions).2 =
  inr (Ok (SnapshotNodes [] false)).
Proof.
  pose proof (snapshot_replaces Examples.closeFails "secret" "/tmp/daemon.log"
                (Examples.requestIn "work" "snapshot" []) Cases.twoSessions
                Cases.workSession tt (inr None) eq_refl eq_refl eq_refl eq_refl) as H.
  cbv zeta iota in H. rewrite H. reflexivity.
Defined.

(** [open Settings] without sessions creates the session "default" for the
    simulator the platform resolved. *)
Lemma open_creates_witness :
  served (Examples.request "open" ["Settings"]) Examples.noSessions =
  ({| sessions :=
        {[ "default" := {| name := "default"; device := Examples.simulator; createdAt := 0;
                           appBundleId := Some "Settings"; snapshot := None |} ]};
      world := tt;
      journal := [TargetResolved; AppResolved Examples.simulator "Settings";
                  Dispatch Examples.simulator "open" ["Settings"]; SessionSet "default"] |},
   inr (Ok (SessionName "default"))).
Proof.
  exact (open_creates Examples.closeFails "secret" "/tmp/daemon.log"
           (Examples.request "open" ["Settings"]) Examples.noSessions tt
           (inr Examples.simulator) eq_refl eq_refl eq_refl).
Defined.

(** [click @e0] in "work" presses once. *)
Lemma click_presses_center_witness :
  exists dev args,
    journal (served (Examples.requestIn "work" "click" ["@e0"]) Cases.twoSessions).1 =
    [Dispatch dev "press" args].
Proof.
  pose (run := served (Examples.requestIn "work" "click" ["@e0"]) Cases.twoSessions).
  destruct (click_presses_center Examples.closeFails "secret" "/tmp/daemon.log"
              (Examples.requestIn "work" "click" ["@e0"]) Cases.twoSessions run.1 run.2
              eq_refl eq_refl (surjective_pairing run))
    as [[Hst _] | (sess & snap & r & node & box & _ & _ & _ & _ & _ & H)].
  - apply (f_equal journal) in Hst. vm_compute in Hst. discriminate.
  - destruct H as (_ & Hj & _). eexists _, _. exact Hj.
Defined.

(** Two sessions, two summaries. *)
Lemma session_list_complete_witness :
  exists l,
    served (Examples.request "session_list" []) Cases.twoSessions =
    (Cases.twoSessions, inr (Ok (SessionList l))) /\ length l = 2%nat.
Proof.
  destruct (session_list_complete Examples.closeFails "secret" "/tmp/daemon.log"
              (Examples.request "session_list" []) Cases.twoSessions eq_refl eq_refl)
    as (l & Hrun & Hlen & _).
  exists l. split; [exact Hrun | rewrite Hlen; reflexivity].
Defined.

(** The line of a button with a ref, one level down. *)
Lemma formatLine_layout_witness :
  exists tail, Output.formatLine Cases.nestedButton = "  @" +:+ tail.
Proof.
  destruct (formatLine_layout Cases.nestedButton) as [_ H].
  destruct (H "e1" eq_refl) as [tail Ht]; [discriminate|].
  exists tail. exact Ht.
Defined.

End DaemonInstances.

Section ForwardingFacts.
Import Daemon.
Context {W : Type}.
Variable platformOps : Platform W.
Variable daemonToken : string.
Variable logPath : string.

Local Abbreviation handle := (handleRequest platformOps daemonToken logPath).

(** Every command the daemon does not handle itself, and [fill] whose
    first argument is not a ref, is forwarded once, under its own name and
    with the positionals of the request, to the device of the session; the
    answer carries the data the platform returned, or the empty object, and
    an error of the platform is thrown on. The session map is not
    touched. *)
Theorem other_commands_forwarded (req : DaemonRequest) (st : DaemonState W)
    (sess : SessionState) (w2 : W) (r : Thrown + option DispatchData) :
  token req = daemonToken ->
  ~ In (command req) ["session_list"; "open"; "close"; "snapshot"; "click"; "get"] ->
  (command req = "fill" -> refForm req = None) ->
  sessions st !! sessionNameOf req = Some sess ->
  dispatchCommand platformOps (device sess) (command req) (default [] (positionals req))
    (flags req ≫= out) (contextFromFlags logPath (flags req) (appBundleId sess))
    (world st) = (w2, r) ->
  handle req st =
  ({| sessions := sessions st; world := w2;
      journal := journal st ++
        [Dispatch (device sess) (command req) (default [] (positionals req))] |},
   match r with
   | inl e => inl e
   | inr (Some d) => inr (Ok (Forwarded d))
   | inr None => inr (Ok EmptyObject)
   end).
Proof.
  intros Ht Hnot Hfill Hsess Hrun. unfold handleRequest. rewrite (authorised _ req Ht).
  repeat match goal with
         | |- context [String.eqb (command req) ?c] =>
             lazymatch c with
             | "fill" => fail
             | _ => destruct (String.eqb_spec (command req) c) as [E|_];
                    [exfalso; apply Hnot; rewrite E; simpl; tauto|]
             end
         end.
  assert (Hform : (if String.eqb (command req) "fill" then refForm req else None) = None).
  { destruct (String.eqb_spec (command req) "fill") as [E|_]; [exact (Hfill E) | reflexivity]. }
  rewrite Hform.
  unfold handleOther, await at 1, sessionsGet. rewrite Hsess.
  unfold await, dispatch, call. cbn [world]. rewrite Hrun.
  destruct r as [e|[d|]]; reflexivity.
Qed.

End ForwardingFacts.

Section ForwardingInstances.
Import Daemon.

(** [back] in the session "work". *)
Lemma other_commands_forwarded_witness :
  handleRequest Examples.closeFails "secret" "/tmp/daemon.log"
    (Examples.requestIn "work" "back" []) Cases.twoSessions =
  ({| sessions := sessions Cases.twoSessions; world := tt;
      journal := [Dispatch Examples.simulator "back" []] |}, inr (Ok EmptyObject)).
Proof.
  apply (other_commands_forwarded Examples.closeFails "secret" "/tmp/daemon.log"
           (Examples.requestIn "work" "back" []) Cases.twoSessions Cases.workSession
           tt (inr None)); try reflexivity.
  vm_compute. intuition discriminate.
Defined.

End ForwardingInstances.

Section GetFacts.
Import JsString Daemon.
Context {W : Type}.
Variable platformOps : Platform W.
Variable daemonToken : string.
Variable logPath : string.

Local Abbreviation handle := (handleRequest platformOps daemonToken logPath).

Lemma app_assoc_string (a b c : string) : (a +:+ b) +:+ c = a +:+ (b +:+ c).
Proof. induction a as [|x a IH]; [reflexivity|]. now rewrite !app_cons, IH. Qed.

(** The label of a node is its first field, of label, value and
    identifier, that is not blank, trimmed. *)
Lemma labelOf_first (node : SnapshotNode) :
  let fields := [label node; value node; identifier node] in
  let blank (f : option string) :=
    match f with Some t => isEmpty (trim t) = true | None => True end in
  ((forall f, In f fields -> blank f) -> Output.labelOf node = "") /\
  (forall (i : nat) t,
     fields !! i = Some (Some t) -> isEmpty (trim t) = false ->
     (forall (j : nat) f, (j < i)%nat -> fields !! j = Some f -> blank f) ->
     Output.labelOf node = trim t).
Proof.
  intros fields blank. unfold Output.labelOf, Output.trimmedOr. split.
  - intros Hall.
    pose proof (Hall (label node) ltac:(simpl; tauto)) as H0.
    pose proof (Hall (value node) ltac:(simpl; tauto)) as H1.
    pose proof (Hall (identifier node) ltac:(simpl; tauto)) as H2.
    unfold blank in H0, H1, H2.
    destruct (label node), (value node), (identifier node);
      rewrite ?H0, ?H1, ?H2; reflexivity.
  - intros i t Hi Ht Hbefore.
    destruct i as [|[|[|i]]]; cbn in Hi; try discriminate.
    + injection Hi as Hi. rewrite Hi, Ht. reflexivity.
    + injection Hi as Hi.
      pose proof (Hbefore O (label node) ltac:(lia) eq_refl) as H0. unfold blank in H0.
      rewrite Hi, Ht. destruct (label node); [rewrite H0|]; reflexivity.
    + injection Hi as Hi.
      pose proof (Hbefore O (label node) ltac:(lia) eq_refl) as H0.
      pose proof (Hbefore 1%nat (value node) ltac:(lia) eq_refl) as H1.
      unfold blank in H0, H1.
      rewrite Hi, Ht. destruct (label node), (value node); rewrite ?H0, ?H1; reflexivity.
Qed.

(** The line printed for a node with a label holds the label between
    double quotes. *)
Lemma formatLine_quotes (node : SnapshotNode) :
  Output.labelOf node <> "" ->
  includes (String "034" (Output.labelOf node +:+ String "034" ""))
    (Output.formatLine node) = true.
Proof.
  intros Hne. apply includes_substring.
  unfold Output.formatLine, Output.textPart.
  destruct (Output.labelOf node) as [|c lbl] eqn:El; [congruence|]. cbn [isEmpty].
  set (indent := Output.indentOf _). set (ty := Output.formatRole _).
  exists (indent +:+ Output.refText node +:+ " " +:+ ty +:+ " "),
         (trimEnd (Output.rectText node +:+ Output.flagText node)).
  replace (indent +:+ Output.refText node +:+ " " +:+ ty
           +:+ (" " +:+ String "034" (String c lbl) +:+ String "034" "")
           +:+ Output.rectText node +:+ Output.flagText node)
    with ((indent +:+ Output.refText node +:+ " " +:+ ty +:+ " "
           +:+ String "034" (String c lbl))
          +:+ String "034" (Output.rectText node +:+ Output.flagText node)).
  - rewrite trimEnd_keeps by reflexivity.
    rewrite !app_assoc_string, !app_cons, !app_nil_l, ?app_assoc_string, ?app_cons.
    reflexivity.
  - rewrite !app_assoc_string, !app_cons, !app_nil_l, ?app_assoc_string, ?app_cons,
      ?app_nil_l.
    reflexivity.
Qed.

(** [get text] on a ref of the session's snapshot changes nothing and
    answers with the ref, the node and a text: the first of the node's
    label, value and identifier that is not blank, trimmed, or the empty
    string when all are blank. It is the label the text form of the
    snapshot prints for the node, between double quotes on the node's
    line. *)
Theorem get_text_answers_printed_label (req : DaemonRequest) (st : DaemonState W)
    (sess : SessionState) (snap : SnapshotState) (r : string) (node : SnapshotNode) :
  token req = daemonToken -> command req = "get" -> positional req 0 = Some "text" ->
  sessions st !! sessionNameOf req = Some sess -> snapshot sess = Some snap ->
  Snapshot.normalizeRef (default "" (positional req 1)) = Some r -> r <> "" ->
  Snapshot.findNodeByRef (nodes snap) r = Some node ->
  exists text,
    handle req st = (st, inr (Ok (RefText r text node))) /\
    (let fields := [label node; value node; identifier node] in
     let blank (f : option string) :=
       match f with Some t => isEmpty (trim t) = true | None => True end in
     ((forall f, In f fields -> blank f) -> text = "") /\
     (forall (i : nat) t,
        fields !! i = Some (Some t) -> isEmpty (trim t) = false ->
        (forall (j : nat) f, (j < i)%nat -> fields !! j = Some f -> blank f) ->
        text = trim t)) /\
    (text <> "" ->
     includes (String "034" (text +:+ String "034" "")) (Output.formatLine node) = true).
Proof.
  intros Ht Hc Hsub Hsess Hsnap Href Hne Hnode.
  exists (firstText node). split; [|rewrite firstText_labelOf; split;
                                     [apply labelOf_first|apply formatLine_quotes]].
  unfold handleRequest. rewrite (authorised _ req Ht), Hc. cbn [String.eqb Ascii.eqb Bool.eqb].
  unfold handleGet. rewrite Hsub.
  rewrite bool_decide_eq_true_2 by reflexivity.
  rewrite (bool_decide_eq_false_2 (Some "text" = Some "attrs")) by discriminate.
  cbn [negb andb]. unfold await at 1, sessionsGet. rewrite Hsess. cbn [mbind option_bind].
  rewrite Hsnap, Href.
  destruct r as [|c r]; [congruence|]. cbn [isEmpty]. rewrite Hnode. reflexivity.
Qed.

End GetFacts.

Section GetInstances.
Import Daemon.

(** [get text @e1] in "work": the label of the second node, trimmed. *)
Lemma get_text_answers_printed_label_witness :
  exists node,
    handleRequest Examples.closeFails "secret" "/tmp/daemon.log"
      (Examples.requestIn "work" "get" ["text"; "@e1"]) Cases.twoSessions =
    (Cases.twoSessions, inr (Ok (RefText "e1" "CAMERA" node))) /\
    JsString.includes (String "034" ("CAMERA" +:+ String "034" ""))
      (Output.formatLine node) = true.
Proof.
  pose (node := Snapshot.withRef
                  (Examples.plainNode "XCUIElementTypeButton" "  CAMERA " None) "e1").
  destruct (get_text_answers_printed_label Examples.closeFails "secret" "/tmp/daemon.log"
              (Examples.requestIn "work" "get" ["text"; "@e1"]) Cases.twoSessions
              Cases.workSession
              {| nodes := Snapshot.attachRefs Examples.settingsNodes; truncated := None;
                 s_createdAt := 6 |}
              "e1" node eq_refl eq_refl eq_refl eq_refl eq_refl eq_refl)
    as (text & Hrun & [_ Hfirst] & Hline); [discriminate|reflexivity|].
  assert (Et : text = "CAMERA").
  { apply (Hfirst O "  CAMERA "); [reflexivity|reflexivity|]. intros j f Hj. lia. }
  subst text. exists node. split; [exact Hrun|]. apply Hline. discriminate.
Defined.

End GetInstances.
